(** * Live transcript reconciliation: a shallow embedding of tuon-scribe

    The development follows three TypeScript classes of the plugin:

    - [AssemblyAiRealtimeClient] (transcribe/assemblyAiRealtimeClient.ts), the
      streaming channel that turns wire messages into transcript events;
    - [LiveTranscribeService] (transcribe/liveTranscribeService.ts), the
      reconciler and session controller;
    - the block-recording entry points of [TuonScribePlugin] (main.ts);

    and the functions of the vocabulary file (vocab/vocabFile.ts), whose
    terms [start] hands to the channel.

    Methods become functions in a state-and-output monad: the state is the
    object's fields, the output is the ordered list of calls made to the
    collaborators (callbacks, notices, the web socket, the microphone). *)

From Stdlib Require Import String Ascii List Bool Arith Lia Floats.
Import ListNotations.
Local Open Scope string_scope.
Local Open Scope list_scope.

(* ===================================================================== *)
(** * JavaScript strings *)
(* ===================================================================== *)

(** A JavaScript string is held as the UTF-8 bytes of its text, which is how
    the literals of this file are read ("Listening…" ends with the three
    bytes of U+2026). *)

Definition bytes (codes : list nat) : string :=
  fold_right (fun n s => String (ascii_of_nat n) s) "" codes.

(** [s || t] on strings: the empty string is the only falsy one. *)
Definition str_or (s t : string) : string :=
  if s =? "" then t else s.

Fixpoint string_rev (s : string) : string :=
  match s with
  | EmptyString => EmptyString
  | String c r => string_rev r ++ String c EmptyString
  end.

(** The characters [String.prototype.trim] removes (ECMAScript WhiteSpace
    and LineTerminator), each as its UTF-8 encoding. *)
Definition whitespace : list string :=
  map bytes
    [ [9]; [10]; [11]; [12]; [13]; [32];
      [194; 160];                                   (* U+00A0 *)
      [225; 154; 128];                              (* U+1680 *)
      [226; 128; 128]; [226; 128; 129]; [226; 128; 130]; [226; 128; 131];
      [226; 128; 132]; [226; 128; 133]; [226; 128; 134]; [226; 128; 135];
      [226; 128; 136]; [226; 128; 137]; [226; 128; 138]; (* U+2000..U+200A *)
      [226; 128; 168]; [226; 128; 169];             (* U+2028, U+2029 *)
      [226; 128; 175];                              (* U+202F *)
      [226; 129; 159];                              (* U+205F *)
      [227; 128; 128];                              (* U+3000 *)
      [239; 187; 191] ].                            (* U+FEFF *)

(** [drop_prefix p s] is [Some r] when [s = p ++ r]. *)
Fixpoint drop_prefix (p s : string) : option string :=
  match p with
  | EmptyString => Some s
  | String a p' =>
      match s with
      | EmptyString => None
      | String b s' => if Ascii.eqb a b then drop_prefix p' s' else None
      end
  end.

(** Removes one leading character of the table, if there is one. *)
Fixpoint strip_one (table : list string) (s : string) : option string :=
  match table with
  | [] => None
  | w :: table' =>
      match drop_prefix w s with
      | Some r => Some r
      | None => strip_one table' s
      end
  end.

Fixpoint strip_leading (table : list string) (fuel : nat) (s : string) : string :=
  match fuel with
  | O => s
  | S fuel' =>
      match strip_one table s with
      | Some r => strip_leading table fuel' r
      | None => s
      end
  end.

Definition trimStart (s : string) : string :=
  strip_leading whitespace (String.length s) s.

Definition trimEnd (s : string) : string :=
  string_rev
    (strip_leading (map string_rev whitespace) (String.length s) (string_rev s)).

(** [s.trim()] *)
Definition trim (s : string) : string := trimEnd (trimStart s).

(** [toLowerCase], byte by byte: the letters A..Z move to a..z and the
    bytes of multi-byte characters are left alone.  JavaScript also lowers
    letters outside ASCII, but never to text in which one letter of
    "not authorized" is directly followed by the next (U+0130 lowers to an
    "i" followed by a combining dot, U+212A to "k"), so the one use of
    [toLowerCase], the test of [handleAaiEvent], gives the same answer. *)
Definition lower_ascii (c : ascii) : ascii :=
  let n := nat_of_ascii c in
  if ((65 <=? n)%nat && (n <=? 90)%nat)%bool then ascii_of_nat (n + 32) else c.

Fixpoint toLowerCase (s : string) : string :=
  match s with
  | EmptyString => EmptyString
  | String c r => String (lower_ascii c) (toLowerCase r)
  end.

(** [hay.includes(needle)] *)
Fixpoint includes (needle hay : string) : bool :=
  String.prefix needle hay
  || match hay with
     | EmptyString => false
     | String _ hay' => includes needle hay'
     end.

(* ===================================================================== *)
(** * JavaScript numbers and parsed JSON *)
(* ===================================================================== *)

(** A [number] is an IEEE binary64, the primitive [float]. *)
Definition number := float.

(** [Number.isFinite(x)] *)
Definition isFinite (x : number) : bool :=
  negb (PrimFloat.is_nan x) && negb (PrimFloat.is_infinity x).

(** [x > 0] *)
Definition gt0 (x : number) : bool := PrimFloat.ltb 0%float x.

(** What [JSON.parse] returns. *)
#[warnings="-register-all"]
Inductive json : Type :=
| JNull
| JBool (b : bool)
| JNum (x : number)
| JStr (s : string)
| JArr (items : list json)
| JObj (fields : list (string * json)).

Fixpoint assoc (k : string) (fields : list (string * json)) : option json :=
  match fields with
  | [] => None
  | (k', v) :: rest => if k =? k' then Some v else assoc k rest
  end.

(** [msg?.k]: [None] stands for [undefined].  Only objects carry the
    properties read by the channel. *)
Definition prop (msg : json) (k : string) : option json :=
  match msg with
  | JObj fields => assoc k fields
  | _ => None
  end.

(** [!!v] *)
Definition truthy (v : option json) : bool :=
  match v with
  | None => false
  | Some JNull => false
  | Some (JBool b) => b
  | Some (JNum x) => negb (PrimFloat.is_zero x || PrimFloat.is_nan x)
  | Some (JStr s) => negb (s =? "")
  | Some (JArr _) => true
  | Some (JObj _) => true
  end.

(** [a || b] on possibly undefined values. *)
Definition val_or (a b : option json) : option json :=
  if truthy a then a else b.

(* ===================================================================== *)
(** * Transcript events and the calls made to collaborators *)
(* ===================================================================== *)

(** [AssemblyAiTranscriptEvent]; an optional field is an [option]. *)
Inductive AssemblyAiTranscriptEvent : Type :=
| session_begin (session_id : option json)
| transcript_update (text : string) (is_final : bool)
                    (end_of_turn formatted : option bool)
| session_terminated
| error (message : string).

Inductive Encoding : Type := pcm_s16le | pcm_mulaw.

(** [AssemblyAiRealtimeClientOptions] *)
Module Opts.
Record t : Type := Build {
  apiKey : string;
  sampleRate : number;
  encoding : option Encoding;
  formatTurns : option bool;
  endOfTurnConfidenceThreshold : option number;
  minEndOfTurnSilenceMs : option number;
  maxTurnSilenceMs : option number;
  keytermsPrompt : option (list string)
}.
End Opts.

(** The object returned by [getAssemblyAiConfig]. *)
Module Cfg.
Record t : Type := Build {
  sampleRate : number;
  chunkSizeSamples : number;
  encoding : Encoding;
  formatTurns : bool;
  endOfTurnConfidenceThreshold : number;
  minEndOfTurnSilenceMs : number;
  maxTurnSilenceMs : number
}.
End Cfg.

(** A callback supplied by a caller is known by an identifier. *)
Definition Callback := nat.

(** The [target] argument of [start]. *)
Record Target : Type := {
  onFinalText : Callback;
  onPartialText : option Callback;
  onPreviewText : option Callback
}.

(** What [insertFinalHandler] can hold: the target's [onFinalText], or the
    default closure over [insertFinalAtCursor]. *)
Inductive FinalHandler : Type :=
| TargetOnFinalText (cb : Callback)
| InsertFinalAtCursor.

Definition PcmChunk := list Byte.byte.

(** One call from the modelled code to the outside, in the order made. *)
Inductive Effect : Type :=
| Notice (message : string)                       (* new Notice(message) *)
| CallOnStatusText (text : string)                (* this.onStatusText(text) *)
| CallOnRunningChange (running : bool)            (* this.onRunningChange(running) *)
| CallOnAudioFrame (data : list Byte.byte)        (* this.onAudioFrame(data) *)
| CallFinal (h : FinalHandler) (text : string)    (* this.insertFinalHandler(text) *)
| CallPartial (cb : Callback) (text : string)     (* this.insertPartialHandler(text) *)
| CallPreview (cb : Callback) (text : string)     (* this.insertPreviewHandler(text) *)
| NewRealtimeClient (opts : Opts.t)               (* new AssemblyAiRealtimeClient(opts) *)
| StartMicPcm16Capture (chunkSizeSamples sampleRate : number)
| MicStop                                         (* mic.stop() *)
| WsSendAudio (pcm16 : PcmChunk)                  (* ws.send(pcm16) *)
| WsSendTerminate                                 (* ws.send(JSON.stringify({type: "Terminate"})) *)
| WsClose                                         (* ws.close() *)
| CallRecordedStatusText (text : string)          (* the recorded service's onStatusText *)
| StartRecordedAudioCapture.                      (* startRecordedAudioCapture(...) *)

(* ===================================================================== *)
(** * The state-and-output monad *)
(* ===================================================================== *)

Definition Act (S A : Type) : Type := S -> A * S * list Effect.

Definition value {S A} (r : A * S * list Effect) : A := fst (fst r).
Definition state {S A} (r : A * S * list Effect) : S := snd (fst r).
Definition output {S A} (r : A * S * list Effect) : list Effect := snd r.

Definition ret {S A} (a : A) : Act S A := fun s => (a, s, []).

Definition bind {S A B} (m : Act S A) (f : A -> Act S B) : Act S B :=
  fun s =>
    let '(a, s1, out1) := m s in
    let '(b, s2, out2) := f a s1 in
    (b, s2, out1 ++ out2).

Definition get {S} : Act S S := fun s => (s, s, []).
Definition modify {S} (f : S -> S) : Act S unit := fun s => (tt, f s, []).
Definition tell {S} (e : Effect) : Act S unit := fun s => (tt, s, [e]).
Definition tells {S} (es : list Effect) : Act S unit := fun s => (tt, s, es).

Declare Scope act_scope.
Delimit Scope act_scope with act.
Notation "x <- m ;; k" := (bind m (fun x => k))
  (at level 61, m at next level, right associativity) : act_scope.
Notation "m ;; k" := (bind m (fun _ => k))
  (at level 61, right associativity) : act_scope.
Local Open Scope act_scope.

(* ===================================================================== *)
(** * AssemblyAiRealtimeClient: the streaming channel *)
(* ===================================================================== *)

(** [WebSocket.readyState] *)
Inductive ReadyState : Type := CONNECTING | OPEN | CLOSING | CLOSED.

(** The fields of the client.  [ws] is [None] for [null] and otherwise the
    ready state of the socket held.  [onEventHandlers] is a set that only
    ever receives the one handler of the service (registered in [start]),
    so it is held as the flag "that handler is a member". *)
Record AssemblyAiRealtimeClient : Type := {
  ws : option ReadyState;
  apiKey : string;
  sampleRate : number;
  encoding : Encoding;
  formatTurns : bool;
  endOfTurnConfidenceThreshold : option number;
  minEndOfTurnSilenceMs : option number;
  maxTurnSilenceMs : option number;
  keytermsPrompt : option (list string);
  onEventHandlers : bool
}.

Definition set_ws (v : option ReadyState) (c : AssemblyAiRealtimeClient) :=
  {| ws := v; apiKey := apiKey c; sampleRate := sampleRate c;
     encoding := encoding c; formatTurns := formatTurns c;
     endOfTurnConfidenceThreshold := endOfTurnConfidenceThreshold c;
     minEndOfTurnSilenceMs := minEndOfTurnSilenceMs c;
     maxTurnSilenceMs := maxTurnSilenceMs c;
     keytermsPrompt := keytermsPrompt c;
     onEventHandlers := onEventHandlers c |}.

Definition set_onEventHandlers (v : bool) (c : AssemblyAiRealtimeClient) :=
  {| ws := ws c; apiKey := apiKey c; sampleRate := sampleRate c;
     encoding := encoding c; formatTurns := formatTurns c;
     endOfTurnConfidenceThreshold := endOfTurnConfidenceThreshold c;
     minEndOfTurnSilenceMs := minEndOfTurnSilenceMs c;
     maxTurnSilenceMs := maxTurnSilenceMs c;
     keytermsPrompt := keytermsPrompt c;
     onEventHandlers := v |}.

(** [x ?? d] *)
Definition nullish {A} (x : option A) (d : A) : A :=
  match x with Some v => v | None => d end.

(** The constructor. *)
Definition new_client (opts : Opts.t) : AssemblyAiRealtimeClient :=
  {| ws := None;
     apiKey := Opts.apiKey opts;
     sampleRate := Opts.sampleRate opts;
     encoding := nullish (Opts.encoding opts) pcm_s16le;
     formatTurns := nullish (Opts.formatTurns opts) true;
     endOfTurnConfidenceThreshold := Opts.endOfTurnConfidenceThreshold opts;
     minEndOfTurnSilenceMs := Opts.minEndOfTurnSilenceMs opts;
     maxTurnSilenceMs := Opts.maxTurnSilenceMs opts;
     keytermsPrompt := Opts.keytermsPrompt opts;
     onEventHandlers := false |}.

(** [onEvent(handler)]: adds the handler; the closure it returns is
    [unsubscribe]. *)
Definition onEvent (c : AssemblyAiRealtimeClient) : AssemblyAiRealtimeClient :=
  set_onEventHandlers true c.

Definition unsubscribe (c : AssemblyAiRealtimeClient) : AssemblyAiRealtimeClient :=
  set_onEventHandlers false c.

(** How the awaited part of [connect] ends: the token request fails (the
    error carries [message], no socket was made), the socket fails to open,
    or it opens. *)
Inductive ConnectOutcome : Type :=
| TokenFails (message : string)
| SocketFails
| SocketOpens.

(** [connect()]: [Some message] when it throws.  Events the socket raises
    while the connection is pending are not part of this function. *)
Definition connect (o : ConnectOutcome) (c : AssemblyAiRealtimeClient)
  : option string * AssemblyAiRealtimeClient :=
  if trim (apiKey c) =? "" then (Some "Missing AssemblyAI API key.", c)
  else
    match ws c with
    | Some OPEN | Some CONNECTING => (None, c)
    | _ =>
        match o with
        | TokenFails message => (Some message, c)
        | SocketFails =>
            (Some "Failed to connect to AssemblyAI WebSocket.",
             set_ws (Some CLOSED) c)
        | SocketOpens => (None, set_ws (Some OPEN) c)
        end
    end.

(** [sendPcm16Chunk(pcm16)]: the calls made on the socket. *)
Definition sendPcm16Chunk (pcm16 : PcmChunk) (c : AssemblyAiRealtimeClient)
  : list Effect :=
  match ws c with
  | Some OPEN => [WsSendAudio pcm16]
  | _ => []
  end.

(** [terminate()] *)
Definition terminate (c : AssemblyAiRealtimeClient)
  : AssemblyAiRealtimeClient * list Effect :=
  match ws c with
  | None => (c, [])
  | Some OPEN => (set_ws None c, [WsSendTerminate; WsClose])
  | Some _ => (set_ws None c, [WsClose])
  end.

(** [handleMessageString(dataStr)]: the events passed to [emit], in order.
    [parsed] is what [JSON.parse(dataStr)] gives, [None] when it throws. *)
Definition handleMessageString (c : AssemblyAiRealtimeClient)
    (dataStr : string) (parsed : option json)
  : list AssemblyAiTranscriptEvent :=
  if dataStr =? "" then []
  else
    match parsed with
    | None => []
    | Some msg =>
        match prop msg "type" with
        | Some (JStr "Begin") => [session_begin (prop msg "id")]
        | Some (JStr "Turn") =>
            let endOfTurn := truthy (prop msg "end_of_turn") in
            let formatted := truthy (prop msg "turn_is_formatted") in
            match prop msg "transcript" with
            | Some (JStr transcript) =>
                if (0 <? String.length transcript)%nat then
                  let isFinal := endOfTurn && (formatted || negb (formatTurns c)) in
                  [transcript_update transcript isFinal
                                     (Some endOfTurn) (Some formatted)]
                else []
            | _ => []
            end
        | Some (JStr "Termination") => [session_terminated]
        | _ =>
            match val_or (prop msg "error") (prop msg "message") with
            | Some (JStr err) =>
                if trim err =? "" then [] else [error (trim err)]
            | _ => []
            end
        end
    end.

(* ===================================================================== *)
(** * LiveTranscribeService: reconciler and session controller *)
(* ===================================================================== *)

(** The handle [startMicPcm16Capture] resolves to, with the configuration
    the capture was started with. *)
Record MicCaptureHandle : Type := {
  mic_chunkSizeSamples : number;
  mic_sampleRate : number
}.

(** The fields of the service.  The three [opt_] flags say which of the
    optional constructor callbacks were supplied. *)
Record LiveTranscribeService : Type := {
  opt_onStatusText : bool;
  opt_onRunningChange : bool;
  opt_onAudioFrame : bool;
  mic : option MicCaptureHandle;
  aai : option AssemblyAiRealtimeClient;
  unsubAai : bool;
  finalized : string;
  current : string;
  pendingUnformatted : string;
  running : bool;
  insertFinalHandler : option FinalHandler;
  insertPartialHandler : option Callback;
  insertPreviewHandler : option Callback
}.

Definition set_mic v (s : LiveTranscribeService) :=
  {| opt_onStatusText := opt_onStatusText s; opt_onRunningChange := opt_onRunningChange s;
     opt_onAudioFrame := opt_onAudioFrame s;
     mic := v; aai := aai s; unsubAai := unsubAai s;
     finalized := finalized s; current := current s;
     pendingUnformatted := pendingUnformatted s; running := running s;
     insertFinalHandler := insertFinalHandler s;
     insertPartialHandler := insertPartialHandler s;
     insertPreviewHandler := insertPreviewHandler s |}.

Definition set_aai v (s : LiveTranscribeService) :=
  {| opt_onStatusText := opt_onStatusText s; opt_onRunningChange := opt_onRunningChange s;
     opt_onAudioFrame := opt_onAudioFrame s;
     mic := mic s; aai := v; unsubAai := unsubAai s;
     finalized := finalized s; current := current s;
     pendingUnformatted := pendingUnformatted s; running := running s;
     insertFinalHandler := insertFinalHandler s;
     insertPartialHandler := insertPartialHandler s;
     insertPreviewHandler := insertPreviewHandler s |}.

Definition set_unsubAai v (s : LiveTranscribeService) :=
  {| opt_onStatusText := opt_onStatusText s; opt_onRunningChange := opt_onRunningChange s;
     opt_onAudioFrame := opt_onAudioFrame s;
     mic := mic s; aai := aai s; unsubAai := v;
     finalized := finalized s; current := current s;
     pendingUnformatted := pendingUnformatted s; running := running s;
     insertFinalHandler := insertFinalHandler s;
     insertPartialHandler := insertPartialHandler s;
     insertPreviewHandler := insertPreviewHandler s |}.

Definition set_finalized v (s : LiveTranscribeService) :=
  {| opt_onStatusText := opt_onStatusText s; opt_onRunningChange := opt_onRunningChange s;
     opt_onAudioFrame := opt_onAudioFrame s;
     mic := mic s; aai := aai s; unsubAai := unsubAai s;
     finalized := v; current := current s;
     pendingUnformatted := pendingUnformatted s; running := running s;
     insertFinalHandler := insertFinalHandler s;
     insertPartialHandler := insertPartialHandler s;
     insertPreviewHandler := insertPreviewHandler s |}.

Definition set_current v (s : LiveTranscribeService) :=
  {| opt_onStatusText := opt_onStatusText s; opt_onRunningChange := opt_onRunningChange s;
     opt_onAudioFrame := opt_onAudioFrame s;
     mic := mic s; aai := aai s; unsubAai := unsubAai s;
     finalized := finalized s; current := v;
     pendingUnformatted := pendingUnformatted s; running := running s;
     insertFinalHandler := insertFinalHandler s;
     insertPartialHandler := insertPartialHandler s;
     insertPreviewHandler := insertPreviewHandler s |}.

Definition set_pendingUnformatted v (s : LiveTranscribeService) :=
  {| opt_onStatusText := opt_onStatusText s; opt_onRunningChange := opt_onRunningChange s;
     opt_onAudioFrame := opt_onAudioFrame s;
     mic := mic s; aai := aai s; unsubAai := unsubAai s;
     finalized := finalized s; current := current s;
     pendingUnformatted := v; running := running s;
     insertFinalHandler := insertFinalHandler s;
     insertPartialHandler := insertPartialHandler s;
     insertPreviewHandler := insertPreviewHandler s |}.

Definition set_running v (s : LiveTranscribeService) :=
  {| opt_onStatusText := opt_onStatusText s; opt_onRunningChange := opt_onRunningChange s;
     opt_onAudioFrame := opt_onAudioFrame s;
     mic := mic s; aai := aai s; unsubAai := unsubAai s;
     finalized := finalized s; current := current s;
     pendingUnformatted := pendingUnformatted s; running := v;
     insertFinalHandler := insertFinalHandler s;
     insertPartialHandler := insertPartialHandler s;
     insertPreviewHandler := insertPreviewHandler s |}.

Definition set_insertFinalHandler v (s : LiveTranscribeService) :=
  {| opt_onStatusText := opt_onStatusText s; opt_onRunningChange := opt_onRunningChange s;
     opt_onAudioFrame := opt_onAudioFrame s;
     mic := mic s; aai := aai s; unsubAai := unsubAai s;
     finalized := finalized s; current := current s;
     pendingUnformatted := pendingUnformatted s; running := running s;
     insertFinalHandler := v;
     insertPartialHandler := insertPartialHandler s;
     insertPreviewHandler := insertPreviewHandler s |}.

Definition set_insertPartialHandler v (s : LiveTranscribeService) :=
  {| opt_onStatusText := opt_onStatusText s; opt_onRunningChange := opt_onRunningChange s;
     opt_onAudioFrame := opt_onAudioFrame s;
     mic := mic s; aai := aai s; unsubAai := unsubAai s;
     finalized := finalized s; current := current s;
     pendingUnformatted := pendingUnformatted s; running := running s;
     insertFinalHandler := insertFinalHandler s;
     insertPartialHandler := v;
     insertPreviewHandler := insertPreviewHandler s |}.

Definition set_insertPreviewHandler v (s : LiveTranscribeService) :=
  {| opt_onStatusText := opt_onStatusText s; opt_onRunningChange := opt_onRunningChange s;
     opt_onAudioFrame := opt_onAudioFrame s;
     mic := mic s; aai := aai s; unsubAai := unsubAai s;
     finalized := finalized s; current := current s;
     pendingUnformatted := pendingUnformatted s; running := running s;
     insertFinalHandler := insertFinalHandler s;
     insertPartialHandler := insertPartialHandler s;
     insertPreviewHandler := v |}.

(** The constructor: the field initialisers of the class. *)
Definition new_service (onStatus onRunning onFrame : bool) : LiveTranscribeService :=
  {| opt_onStatusText := onStatus; opt_onRunningChange := onRunning;
     opt_onAudioFrame := onFrame;
     mic := None; aai := None; unsubAai := false;
     finalized := ""; current := ""; pendingUnformatted := "";
     running := false;
     insertFinalHandler := None; insertPartialHandler := None;
     insertPreviewHandler := None |}.

Definition Svc := Act LiveTranscribeService.

(** [new Notice(message)] *)
Definition notice {S} (message : string) : Act S unit := tell (Notice message).

(** An optional call [f?.(x)]: the call is made when [f] is there. *)
Definition final_calls (h : option FinalHandler) (text : string) : list Effect :=
  match h with Some f => [CallFinal f text] | None => [] end.
Definition partial_calls (h : option Callback) (text : string) : list Effect :=
  match h with Some cb => [CallPartial cb text] | None => [] end.
Definition preview_calls (h : option Callback) (text : string) : list Effect :=
  match h with Some cb => [CallPreview cb text] | None => [] end.
Definition when (supplied : bool) (e : Effect) : list Effect :=
  if supplied then [e] else [].

(** [this.onStatusText?.(text)] *)
Definition onStatusText (text : string) : Svc unit :=
  s <- get ;; tells (when (opt_onStatusText s) (CallOnStatusText text)).

(** [this.onRunningChange?.(running)] *)
Definition onRunningChange (b : bool) : Svc unit :=
  s <- get ;; tells (when (opt_onRunningChange s) (CallOnRunningChange b)).

(** [this.onAudioFrame?.(data)], the body of the capture's [onAudioFrame]. *)
Definition onAudioFrame (data : list Byte.byte) : Svc unit :=
  s <- get ;; tells (when (opt_onAudioFrame s) (CallOnAudioFrame data)).

(** [this.insertFinalHandler?.(text)] *)
Definition callInsertFinal (text : string) : Svc unit :=
  s <- get ;; tells (final_calls (insertFinalHandler s) text).

(** [this.insertPartialHandler?.(text)] *)
Definition callInsertPartial (text : string) : Svc unit :=
  s <- get ;; tells (partial_calls (insertPartialHandler s) text).

(** [this.insertPreviewHandler?.(text)] *)
Definition callInsertPreview (text : string) : Svc unit :=
  s <- get ;; tells (preview_calls (insertPreviewHandler s) text).

(** [flushPendingUnformatted()] *)
Definition flushPendingUnformatted : Svc unit :=
  s <- get ;;
  let fallback := trim (str_or (str_or (pendingUnformatted s) (current s)) "") in
  if fallback =? "" then ret tt
  else
    callInsertFinal fallback ;;
    modify (fun s => set_finalized (finalized s ++ fallback ++ " ") s) ;;
    modify (set_current "") ;;
    modify (set_pendingUnformatted "") ;;
    callInsertPartial "".

(** [cleanup()].  The closure in [unsubAai] removes the handler from the
    client it was made on, which is the client in [aai]: [start] assigns
    the two together and [cleanup] drops them together. *)
Definition cleanup : Svc unit :=
  (* try { this.unsubAai?.() } catch {} *)
  modify (fun s => set_aai (if unsubAai s then option_map unsubscribe (aai s)
                            else aai s) s) ;;
  modify (set_unsubAai false) ;;
  modify (set_insertFinalHandler None) ;;
  callInsertPartial "" ;;
  modify (set_insertPartialHandler None) ;;
  callInsertPreview "" ;;
  modify (set_insertPreviewHandler None) ;;
  (* try { this.aai?.terminate() } catch {} *)
  s <- get ;;
  tells (match aai s with Some c => snd (terminate c) | None => [] end) ;;
  modify (set_aai None) ;;
  s <- get ;;
  modify (set_mic None) ;;
  (* if (mic) void mic.stop() *)
  tells (match mic s with Some _ => [MicStop] | None => [] end) ;;
  onStatusText "".

(** [stop()] *)
Definition stop : Svc unit :=
  s <- get ;;
  if negb (running s) then ret tt
  else
    flushPendingUnformatted ;;
    modify (set_running false) ;;
    onRunningChange false ;;
    onStatusText "Stopping…" ;;
    cleanup ;;
    notice "Live transcription stopped.".

(** [ev.end_of_turn] as a condition, and [ev.formatted === false]. *)
Definition is_true (b : option bool) : bool := nullish b false.
Definition is_false (b : option bool) : bool :=
  match b with Some false => true | _ => false end.

(** [handleAaiEvent(ev)] *)
Definition handleAaiEvent (ev : AssemblyAiTranscriptEvent) : Svc unit :=
  match ev with
  | transcript_update text is_final end_of_turn formatted =>
      (if is_final then
         modify (fun s => set_finalized (finalized s ++ trim text ++ " ") s) ;;
         modify (set_current "") ;;
         modify (set_pendingUnformatted "") ;;
         callInsertFinal text ;;
         callInsertPartial ""
       else
         modify (set_current text) ;;
         modify (fun s => set_pendingUnformatted
                            (if is_true end_of_turn && is_false formatted
                             then text else pendingUnformatted s) s) ;;
         callInsertPartial text) ;;
      s <- get ;;
      let preview := trim (finalized s ++ current s) in
      onStatusText (str_or preview "Listening…") ;;
      callInsertPreview preview
  | session_terminated => flushPendingUnformatted
  | error message =>
      onStatusText "Transcription error." ;;
      notice ("Transcription error: " ++ message) ;;
      if includes "not authorized" (toLowerCase message) then stop else ret tt
  | session_begin _ => ret tt
  end.

(** What [start] reads from its surroundings, and how the operations it
    awaits end.  [start] is taken to run to its end with no other input
    handled while it waits. *)
Inductive MicOutcome : Type :=
| MicStarts
| MicFails (message : string).

Record StartEnv : Type := {
  env_apiKey : option string;        (* this.getAssemblyAiApiKey() *)
  env_config : Cfg.t;                (* this.getAssemblyAiConfig() *)
  env_keyterms : option (list string);
      (* the awaited this.getKeytermsPrompt?.(); None for undefined, which
         is also what the catch block leaves *)
  env_connect : ConnectOutcome;      (* await this.aai.connect() *)
  env_mic : MicOutcome               (* await startMicPcm16Capture(...) *)
}.

(** [Number.isFinite(x) && x > 0 ? x : dflt] *)
Definition positive_or (x dflt : number) : number :=
  if isFinite x && gt0 x then x else dflt.

(** The part of [start] between the awaited key terms and the awaited
    connection: the handlers are installed, the transcript is reset, the
    service is marked running, the client is created and subscribed to. *)
Definition begin_session (target : option Target) (opts : Opts.t) : Svc unit :=
  modify (set_insertFinalHandler
            (Some match target with
                  | Some t => TargetOnFinalText (onFinalText t)
                  | None => InsertFinalAtCursor
                  end)) ;;
  modify (set_insertPartialHandler
            match target with Some t => onPartialText t | None => None end) ;;
  modify (set_insertPreviewHandler
            match target with Some t => onPreviewText t | None => None end) ;;
  modify (set_finalized "") ;;
  modify (set_current "") ;;
  modify (set_running true) ;;
  onRunningChange true ;;
  onStatusText "Starting transcription…" ;;
  tell (NewRealtimeClient opts) ;;
  modify (set_aai (Some (onEvent (new_client opts)))) ;;
  modify (set_unsubAai true).

(** [start(target)] *)
Definition start (target : option Target) (env : StartEnv) : Svc unit :=
  s <- get ;;
  if running s then ret tt
  else
    (* apiKey is undefined or a trimmed string; both undefined and the
       empty string fail the test *)
    let apiKey := nullish (option_map trim (env_apiKey env)) "" in
    if apiKey =? "" then
      notice "Missing AssemblyAI API key. Set it in plugin settings."
    else
      let config := env_config env in
      let sampleRate := positive_or (Cfg.sampleRate config) 16000%float in
      let chunkSizeSamples := positive_or (Cfg.chunkSizeSamples config) 800%float in
      let keytermsPrompt := env_keyterms env in
      let opts :=
        {| Opts.apiKey := apiKey;
           Opts.sampleRate := sampleRate;
           Opts.encoding := Some (Cfg.encoding config);
           Opts.formatTurns := Some (Cfg.formatTurns config);
           Opts.endOfTurnConfidenceThreshold :=
             Some (Cfg.endOfTurnConfidenceThreshold config);
           Opts.minEndOfTurnSilenceMs := Some (Cfg.minEndOfTurnSilenceMs config);
           Opts.maxTurnSilenceMs := Some (Cfg.maxTurnSilenceMs config);
           Opts.keytermsPrompt := keytermsPrompt |} in
      begin_session target opts ;;
      (* this.aai is the client just created and subscribed to *)
      let connected := connect (env_connect env) (onEvent (new_client opts)) in
      modify (set_aai (Some (snd connected))) ;;
      match fst connected with
      | Some msg =>
          onStatusText "Failed to connect." ;;
          modify (set_running false) ;;
          notice ("AssemblyAI connect failed: " ++ msg) ;;
          cleanup
      | None =>
          tell (StartMicPcm16Capture chunkSizeSamples sampleRate) ;;
          match env_mic env with
          | MicFails msg =>
              notice ("Microphone failed: " ++ msg) ;;
              stop
          | MicStarts =>
              modify (set_mic (Some {| mic_chunkSizeSamples := chunkSizeSamples;
                                       mic_sampleRate := sampleRate |})) ;;
              onStatusText "Listening…" ;;
              notice "Live transcription started."
          end
      end.

(* ===================================================================== *)
(** * The callbacks wired in [start] and in [connect] *)
(* ===================================================================== *)

(** [emit(ev)] on the client held by the service: every registered handler
    is called, and the only one there can be is [handleAaiEvent].  A client
    the service no longer holds has had that handler removed by [cleanup],
    so what it emits reaches nothing. *)
Definition emit (ev : AssemblyAiTranscriptEvent) : Svc unit :=
  s <- get ;;
  match aai s with
  | Some c => if onEventHandlers c then handleAaiEvent ev else ret tt
  | None => ret tt
  end.

Fixpoint emit_all (evs : list AssemblyAiTranscriptEvent) : Svc unit :=
  match evs with
  | [] => ret tt
  | ev :: rest => emit ev ;; emit_all rest
  end.

(** [ws.onmessage]: [data] is [None] when [event.data] is not a string. *)
Definition ws_onmessage (data : option string) (parsed : option json) : Svc unit :=
  let dataStr := nullish data "" in
  if dataStr =? "" then ret tt
  else
    s <- get ;;
    match aai s with
    | Some c => emit_all (handleMessageString c dataStr parsed)
    | None => ret tt
    end.

(** [ws.onclose]; the socket is closed when it runs. *)
Definition ws_onclose (event_reason : string) : Svc unit :=
  modify (fun s => set_aai (option_map
                              (fun c => match ws c with
                                        | Some _ => set_ws (Some CLOSED) c
                                        | None => c
                                        end) (aai s)) s) ;;
  let reason := trim (str_or event_reason "") in
  (if reason =? "" then ret tt else emit (error reason)) ;;
  emit session_terminated.

(** [ws.onerror] *)
Definition ws_onerror : Svc unit :=
  emit (error "WebSocket error connecting to AssemblyAI streaming.").

(** The capture's [onPcm16Chunk]: [this.aai?.sendPcm16Chunk(chunk)]. *)
Definition onPcm16Chunk (chunk : PcmChunk) : Svc unit :=
  s <- get ;;
  match aai s with
  | Some c => tells (sendPcm16Chunk chunk c)
  | None => ret tt
  end.

(** Everything that can happen to a service. *)
Inductive Input : Type :=
| DoStart (target : option Target) (env : StartEnv)
| DoStop
| Event (ev : AssemblyAiTranscriptEvent)       (* the channel emits ev *)
| WsMessage (data : option string) (parsed : option json)
| WsCloseEvent (reason : string)
| WsErrorEvent
| Pcm16Chunk (chunk : PcmChunk)
| AudioFrame (data : list Byte.byte).

Definition step (i : Input) : Svc unit :=
  match i with
  | DoStart target env => start target env
  | DoStop => stop
  | Event ev => emit ev
  | WsMessage data parsed => ws_onmessage data parsed
  | WsCloseEvent reason => ws_onclose reason
  | WsErrorEvent => ws_onerror
  | Pcm16Chunk chunk => onPcm16Chunk chunk
  | AudioFrame data => onAudioFrame data
  end.

Fixpoint run (inputs : list Input) : Svc unit :=
  match inputs with
  | [] => ret tt
  | i :: rest => step i ;; run rest
  end.

(** The reconciler fed a list of events directly. *)
Fixpoint handleAll (evs : list AssemblyAiTranscriptEvent) : Svc unit :=
  match evs with
  | [] => ret tt
  | ev :: rest => handleAaiEvent ev ;; handleAll rest
  end.

Definition is_start (i : Input) : bool :=
  match i with DoStart _ _ => true | _ => false end.

(* ===================================================================== *)
(** * TuonScribePlugin: who holds the recording session *)
(* ===================================================================== *)

Inductive RecordingMode : Type := mode_stream | mode_file.

(** [RecordedTranscribeService]: the two flags behind [isRecording] and
    [isTranscribing]. *)
Record RecordedTranscribeService : Type := {
  recording : bool;
  transcribing : bool
}.

(** The fields of the plugin that arbitrate recording.  The listeners,
    widget and status bar it also owns are display only and left out, and
    so are the calls that only refresh them ([notifyRecordingChange],
    [notifyAudioFrame], [updateWidgetState]). *)
Record TuonScribePlugin : Type := {
  liveTranscribe : option LiveTranscribeService;
  recordedTranscribe : option RecordedTranscribeService;
  streamRecordingBlockId : option string;
  fileRecordingBlockId : option string
}.

Definition set_liveTranscribe v (p : TuonScribePlugin) :=
  {| liveTranscribe := v; recordedTranscribe := recordedTranscribe p;
     streamRecordingBlockId := streamRecordingBlockId p;
     fileRecordingBlockId := fileRecordingBlockId p |}.

Definition set_recordedTranscribe v (p : TuonScribePlugin) :=
  {| liveTranscribe := liveTranscribe p; recordedTranscribe := v;
     streamRecordingBlockId := streamRecordingBlockId p;
     fileRecordingBlockId := fileRecordingBlockId p |}.

Definition set_streamRecordingBlockId v (p : TuonScribePlugin) :=
  {| liveTranscribe := liveTranscribe p; recordedTranscribe := recordedTranscribe p;
     streamRecordingBlockId := v;
     fileRecordingBlockId := fileRecordingBlockId p |}.

Definition set_fileRecordingBlockId v (p : TuonScribePlugin) :=
  {| liveTranscribe := liveTranscribe p; recordedTranscribe := recordedTranscribe p;
     streamRecordingBlockId := streamRecordingBlockId p;
     fileRecordingBlockId := v |}.

Definition Plg := Act TuonScribePlugin.

(** [this.liveTranscribe?.isRunning] and the two getters of the recorded
    service, as conditions. *)
Definition live_isRunning (p : TuonScribePlugin) : bool :=
  match liveTranscribe p with Some svc => running svc | None => false end.

Definition recorded_isRecording (p : TuonScribePlugin) : bool :=
  match recordedTranscribe p with Some r => recording r | None => false end.

Definition recorded_isTranscribing (p : TuonScribePlugin) : bool :=
  match recordedTranscribe p with Some r => transcribing r | None => false end.

(** A block id as a condition: [null] and the empty string are falsy. *)
Definition id_truthy (id : option string) : bool :=
  match id with Some b => negb (b =? "") | None => false end.

(** [active !== opts.blockId] *)
Definition id_differs (id : option string) (blockId : string) : bool :=
  match id with Some b => negb (b =? blockId) | None => true end.

(** The effect on the plugin of the [onRunningChange] closure it hands to
    the service: [this.streamRecordingBlockId = null] when [running] is
    false. *)
Fixpoint after_callbacks (out : list Effect) (p : TuonScribePlugin) : TuonScribePlugin :=
  match out with
  | [] => p
  | CallOnRunningChange false :: rest =>
      after_callbacks rest (set_streamRecordingBlockId None p)
  | _ :: rest => after_callbacks rest p
  end.

(** Runs a method of [this.liveTranscribe], which must be there. *)
Definition on_live (m : Svc unit) : Plg unit :=
  fun p =>
    match liveTranscribe p with
    | Some svc =>
        let r := m svc in
        (tt, set_liveTranscribe (Some (state r)) (after_callbacks (output r) p),
         output r)
    | None => (tt, p, [])
    end.

(** The arguments of [startRecordingForBlock]. *)
Record BlockOpts : Type := {
  blockId : string;
  sourcePath : string;
  mode : RecordingMode;
  block_target : Target
}.

(** How [startRecordedAudioCapture] ends, and the key read by the recorded
    service. *)
Record FileEnv : Type := {
  file_apiKey : option string;
  file_capture : option string     (* Some message when the capture throws *)
}.

(** [RecordedTranscribeService.startRecording()]: [Some message] when it
    throws. *)
Definition startRecording (env : FileEnv) (r : RecordedTranscribeService)
  : option string * RecordedTranscribeService * list Effect :=
  if recording r || transcribing r then
    (Some "Recorded transcription is already running.", r, [])
  else if nullish (option_map trim (file_apiKey env)) "" =? "" then
    (Some "Missing AssemblyAI API key. Set it in plugin settings.", r, [])
  else
    match file_capture env with
    | None =>
        (None, {| recording := true; transcribing := transcribing r |},
         [CallRecordedStatusText "Recording audio…"; StartRecordedAudioCapture])
    | Some message =>
        (Some message, r,
         [CallRecordedStatusText "Recording audio…"; StartRecordedAudioCapture;
          CallRecordedStatusText ""])
    end.

(** [startFileRecordingForBlock(opts)] *)
Definition startFileRecordingForBlock (opts : BlockOpts) (env : FileEnv) : Plg bool :=
  p <- get ;;
  match recordedTranscribe p with
  | None => ret false
  | Some rec =>
      if live_isRunning p then
        notice "Live transcription is running. Stop it before recording audio." ;;
        ret false
      else
        let active := fileRecordingBlockId p in
        if (recording rec || transcribing rec)
           && id_truthy active && id_differs active (blockId opts) then
          notice "Another scribe block is recording." ;; ret false
        else if (recording rec || transcribing rec) && negb (id_truthy active) then
          notice "Recorded transcription is already running." ;; ret false
        else
          modify (set_fileRecordingBlockId (Some (blockId opts))) ;;
          let r := startRecording env rec in
          tells (output r) ;;
          modify (set_recordedTranscribe (Some (state r))) ;;
          match value r with
          | None => ret (recording (state r))
          | Some msg =>
              modify (set_fileRecordingBlockId None) ;;
              notice ("Recording failed: " ++ msg) ;;
              ret false
          end
  end.

(** [startRecordingForBlock(opts)]; [env] and [fenv] are what the stream
    and the file path read from their surroundings. *)
Definition startRecordingForBlock (opts : BlockOpts) (env : StartEnv)
    (fenv : FileEnv) : Plg bool :=
  match mode opts with
  | mode_file => startFileRecordingForBlock opts fenv
  | mode_stream =>
      p <- get ;;
      match liveTranscribe p with
      | None => ret false
      | Some svc =>
          if recorded_isRecording p || recorded_isTranscribing p then
            notice "Recorded transcription is already running." ;; ret false
          else
            let active := streamRecordingBlockId p in
            if running svc && id_truthy active && id_differs active (blockId opts) then
              notice "Another scribe block is recording." ;; ret false
            else if running svc && negb (id_truthy active) then
              notice "Live transcription is already running." ;; ret false
            else
              modify (set_streamRecordingBlockId (Some (blockId opts))) ;;
              on_live (start (Some (block_target opts)) env) ;;
              p <- get ;;
              (if negb (live_isRunning p)
               then modify (set_streamRecordingBlockId None)
               else ret tt) ;;
              p <- get ;;
              ret (live_isRunning p)
      end
  end.

(** [stopStreamRecording()] *)
Definition stopStreamRecording : Plg unit :=
  on_live stop ;;
  modify (set_streamRecordingBlockId None).

(** [RecordingState], the object returned by [getRecordingState]. *)
Inductive RecordingPhase : Type := phase_recording | phase_transcribing.

Module RecordingState.
Record t : Type := Build {
  running : bool;
  blockId : option string;
  mode : option RecordingMode;
  phase : option RecordingPhase
}.
End RecordingState.

(** [getRecordingState()] *)
Definition getRecordingState (p : TuonScribePlugin) : RecordingState.t :=
  if live_isRunning p then
    {| RecordingState.running := true;
       RecordingState.blockId := streamRecordingBlockId p;
       RecordingState.mode := Some mode_stream;
       RecordingState.phase := Some phase_recording |}
  else if recorded_isRecording p then
    {| RecordingState.running := true;
       RecordingState.blockId := fileRecordingBlockId p;
       RecordingState.mode := Some mode_file;
       RecordingState.phase := Some phase_recording |}
  else if recorded_isTranscribing p then
    {| RecordingState.running := true;
       RecordingState.blockId := fileRecordingBlockId p;
       RecordingState.mode := Some mode_file;
       RecordingState.phase := Some phase_transcribing |}
  else
    {| RecordingState.running := false;
       RecordingState.blockId := None;
       RecordingState.mode := None;
       RecordingState.phase := None |}.

(* ===================================================================== *)
(** * The rest of the service: toggle and the default commit handler *)
(* ===================================================================== *)

(** [toggle()]; the [start] it makes has no target. *)
Definition toggle (env : StartEnv) : Svc unit :=
  s <- get ;;
  if running s then stop else start None env.

(** [s.length]: the UTF-16 code units of the text whose UTF-8 bytes are
    [s].  A byte below 128 or a lead byte of a two- or three-byte sequence
    stands for one unit, the lead byte of a four-byte sequence for two, a
    continuation byte for none. *)
Definition units_of_byte (c : ascii) : nat :=
  let n := nat_of_ascii c in
  if (n <? 128)%nat then 1
  else if (n <? 192)%nat then 0
  else if (n <? 240)%nat then 1
  else 2.

Fixpoint js_length (s : string) : nat :=
  match s with
  | EmptyString => 0
  | String c r => units_of_byte c + js_length r
  end.

(** The line feed. *)
Definition LF : ascii := ascii_of_nat 10.
Definition CR : ascii := ascii_of_nat 13.

(** [text.split("\n")]; the result is never empty. *)
Fixpoint split_lf (s : string) : list string :=
  match s with
  | EmptyString => [EmptyString]
  | String c r =>
      if Ascii.eqb c LF then EmptyString :: split_lf r
      else
        match split_lf r with
        | x :: xs => String c x :: xs
        | [] => [String c EmptyString]
        end
  end.

(** An editor position. *)
Record Cursor : Type := {
  line : nat;
  ch : nat
}.

(** [advanceCursor(cursor, text)] *)
Definition advanceCursor (cursor : Cursor) (text : string) : Cursor :=
  let lines := split_lf text in
  if (List.length lines =? 1)%nat then
    {| line := line cursor;
       ch := ch cursor + js_length (nth 0 lines "") |}
  else
    {| line := line cursor + List.length lines - 1;
       ch := js_length (last lines "") |}.

(** The calls [insertFinalAtCursor] makes on the editor. *)
Inductive EditorCall : Type :=
| ReplaceRange (insertion : string) (from : Cursor)  (* editor.replaceRange(insertion, cursor) *)
| SetCursor (pos : Cursor).                          (* editor.setCursor(pos) *)

(** [insertFinalAtCursor(text)].  [editor] is the cursor of the active
    editor, [None] when [getActiveEditor()] is [null]. *)
Definition insertFinalAtCursor (editor : option Cursor) (text : string)
  : list EditorCall :=
  match editor with
  | None => []
  | Some cursor =>
      let out := trim text in
      if out =? "" then []
      else
        let prefix := if (ch cursor =? 0)%nat then "" else " " in
        let insertion := (prefix ++ out ++ " ")%string in
        [ReplaceRange insertion cursor;
         SetCursor (advanceCursor cursor insertion)]
  end.

(* ===================================================================== *)
(** * The vocabulary file (vocab/vocabFile.ts) *)
(* ===================================================================== *)

Definition MAX_KEYTERMS : nat := 100.
Definition MAX_KEYTERM_LENGTH : nat := 50.

(** What [ensureVocabFile] writes to a vocabulary file it creates. *)
Definition DEFAULT_VOCAB_CONTENT : string :=
  "# Vocabulary" ++ String LF (String LF "")
    ++ "<!-- Add one term per line. -->" ++ String LF "".

(** [s.replace(/\s+/g, " ")]: every run of white space becomes one space.
    The characters of [\s] are those [trim] removes. *)
Fixpoint collapse_ws_fuel (fuel : nat) (s : string) : string :=
  match fuel with
  | O => s
  | S fuel' =>
      match strip_one whitespace s with
      | Some r =>
          String " " (collapse_ws_fuel fuel'
                        (strip_leading whitespace (String.length r) r))
      | None =>
          match s with
          | EmptyString => EmptyString
          | String c r => String c (collapse_ws_fuel fuel' r)
          end
      end
  end.

Definition collapse_ws (s : string) : string :=
  collapse_ws_fuel (String.length s) s.

(** [s.replace(/^[-*+]\s+/, "")] *)
Definition strip_bullet (s : string) : string :=
  match s with
  | String c r =>
      if Ascii.eqb c "-" || Ascii.eqb c "*" || Ascii.eqb c "+" then
        match strip_one whitespace r with
        | Some r' => strip_leading whitespace (String.length r') r'
        | None => s
        end
      else s
  | EmptyString => s
  end.

(** [\d] *)
Definition is_digit (c : ascii) : bool :=
  let n := nat_of_ascii c in ((48 <=? n)%nat && (n <=? 57)%nat)%bool.

Fixpoint drop_digits (s : string) : string :=
  match s with
  | String c r => if is_digit c then drop_digits r else s
  | EmptyString => EmptyString
  end.

(** One character of the class [[\).\s]] removed, if there is one. *)
Definition strip_sep (s : string) : option string :=
  match s with
  | String c r =>
      if Ascii.eqb c ")" || Ascii.eqb c "." then Some r
      else strip_one whitespace s
  | EmptyString => None
  end.

Fixpoint strip_seps (fuel : nat) (s : string) : string :=
  match fuel with
  | O => s
  | S fuel' =>
      match strip_sep s with
      | Some r => strip_seps fuel' r
      | None => s
      end
  end.

(** [s.replace(/^\d+[\).\s]+/, "")] *)
Definition strip_number (s : string) : string :=
  match s with
  | String c _ =>
      if is_digit c then
        match strip_sep (drop_digits s) with
        | Some r => strip_seps (String.length r) r
        | None => s
        end
      else s
  | EmptyString => s
  end.

(** [normalizeVocabTerm(raw)]; [None] for [null]. *)
Definition normalizeVocabTerm (raw : string) : option string :=
  let trimmed := trim (collapse_ws raw) in
  if trimmed =? "" then None
  else
    let withoutListMarker := trim (strip_number (strip_bullet trimmed)) in
    let normalized := trim (collapse_ws withoutListMarker) in
    if normalized =? "" then None else Some normalized.

(** One trailing carriage return removed. *)
Fixpoint chop_cr (s : string) : string :=
  match s with
  | EmptyString => EmptyString
  | String c EmptyString => if Ascii.eqb c CR then EmptyString else s
  | String c r => String c (chop_cr r)
  end.

Fixpoint chop_all_but_last (segments : list string) : list string :=
  match segments with
  | [] => []
  | [x] => [x]
  | x :: rest => chop_cr x :: chop_all_but_last rest
  end.

(** [content.split(/\r?\n/)] *)
Definition split_lines (content : string) : list string :=
  chop_all_but_last (split_lf content).

(** The variables of the loop of [parseVocabTerms]; the set [seen] is held
    as the list of its members. *)
Record ParseState : Type := {
  terms : list string;
  seen : list string;
  inCodeFence : bool
}.

(** One turn of the loop of [parseVocabTerms]. *)
Definition parse_line (st : ParseState) (rawLine : string) : ParseState :=
  let line := trim rawLine in
  if line =? "" then st
  else if String.prefix "```" line then
    {| terms := terms st; seen := seen st;
       inCodeFence := negb (inCodeFence st) |}
  else if inCodeFence st then st
  else if String.prefix "#" line then st
  else if String.prefix ">" line then st
  else if String.prefix "<!--" line then st
  else
    match normalizeVocabTerm line with
    | None => st
    | Some term =>
        if (MAX_KEYTERM_LENGTH <? js_length term)%nat then st
        else if existsb (String.eqb term) (seen st) then st
        else
          {| terms := terms st ++ [term]; seen := term :: seen st;
             inCodeFence := inCodeFence st |}
    end.

(** [parseVocabTerms(content)] *)
Definition parseVocabTerms (content : string) : list string :=
  terms (fold_left parse_line (split_lines content)
           {| terms := []; seen := []; inCodeFence := false |}).

(** [readVocabTerms(app)] on a vocabulary file that holds [content]. *)
Definition readVocabTerms (content : string) : list string :=
  firstn MAX_KEYTERMS (parseVocabTerms content).

Inductive AppendStatus : Type :=
| status_added
| status_exists
| status_invalid
| status_too_long.

(** [content.endsWith("\n")] *)
Fixpoint ends_with_lf (s : string) : bool :=
  match s with
  | EmptyString => false
  | String c EmptyString => Ascii.eqb c LF
  | String _ r => ends_with_lf r
  end.

(** [appendVocabTerm(app, raw)] on a vocabulary file that holds [content]:
    the status, the term reported, and what the file holds afterwards. *)
Definition appendVocabTerm (raw content : string)
  : AppendStatus * option string * string :=
  match normalizeVocabTerm raw with
  | None => (status_invalid, None, content)
  | Some normalized =>
      if (MAX_KEYTERM_LENGTH <? js_length normalized)%nat then
        (status_too_long, Some normalized, content)
      else if existsb (String.eqb normalized) (parseVocabTerms content) then
        (status_exists, Some normalized, content)
      else
        let prefix :=
          if (0 <? String.length content)%nat && negb (ends_with_lf content)
          then String LF "" else "" in
        (status_added, Some normalized,
         (content ++ prefix ++ normalized ++ String LF "")%string)
  end.

(* ===================================================================== *)
(** * Vocabulary of the statements *)
(* ===================================================================== *)

(** The calls of the commit callback in an output, in order. *)
Fixpoint commits (out : list Effect) : list (FinalHandler * string) :=
  match out with
  | [] => []
  | CallFinal h text :: rest => (h, text) :: commits rest
  | _ :: rest => commits rest
  end.

(** The calls of the partial-preview callback. *)
Fixpoint partials (out : list Effect) : list (Callback * string) :=
  match out with
  | [] => []
  | CallPartial cb text :: rest => (cb, text) :: partials rest
  | _ :: rest => partials rest
  end.

(** The calls of the preview callback. *)
Fixpoint previews (out : list Effect) : list (Callback * string) :=
  match out with
  | [] => []
  | CallPreview cb text :: rest => (cb, text) :: previews rest
  | _ :: rest => previews rest
  end.

(** The texts given to the status callback. *)
Fixpoint statuses (out : list Effect) : list string :=
  match out with
  | [] => []
  | CallOnStatusText text :: rest => text :: statuses rest
  | _ :: rest => statuses rest
  end.

(** The audio chunks sent on the socket. *)
Fixpoint sent_audio (out : list Effect) : list PcmChunk :=
  match out with
  | [] => []
  | WsSendAudio pcm16 :: rest => pcm16 :: sent_audio rest
  | _ :: rest => sent_audio rest
  end.

Definition is_update (ev : AssemblyAiTranscriptEvent) : bool :=
  match ev with transcript_update _ _ _ _ => true | _ => false end.

Definition is_final_update (ev : AssemblyAiTranscriptEvent) : bool :=
  match ev with transcript_update _ is_final _ _ => is_final | _ => false end.

Definition text_of (ev : AssemblyAiTranscriptEvent) : string :=
  match ev with transcript_update text _ _ _ => text | _ => "" end.

(** [a] is a prefix of [b]. *)
Definition is_prefix_of (a b : string) : Prop := exists tail, b = (a ++ tail)%string.

(** [message] contains "not authorized" in some mix of upper and lower
    case: it splits around a part that lowers to the phrase. *)
Definition mentions_not_authorized (message : string) : Prop :=
  exists before part after,
    message = (before ++ part ++ after)%string
    /\ toLowerCase part = "not authorized".

(** A configured rate or size that [start] keeps. *)
Definition usable (x : number) : Prop := isFinite x = true /\ gt0 x = true.

(** [start] gets past its two guards. *)
Definition passes_guards (s : LiveTranscribeService) (env : StartEnv) : Prop :=
  running s = false
  /\ nullish (option_map trim (env_apiKey env)) "" <> "".

(** The option of a callback as the list of calls it receives. *)
Definition calls {H} (h : option H) (text : string) : list (H * string) :=
  match h with Some cb => [(cb, text)] | None => [] end.

(** An action under which [finalized] only grows. *)
Definition grows {A} (m : Svc A) : Prop :=
  forall s, is_prefix_of (finalized s) (finalized (state (m s))).

(** An action that keeps a property of the service. *)
Definition keeps {A} (P : LiveTranscribeService -> Prop) (m : Svc A) : Prop :=
  forall s, P s -> P (state (m s)).

(** While [handleAaiEvent] is registered on the client held, the commit
    handler is installed. *)
Definition wired (s : LiveTranscribeService) : Prop :=
  match aai s with
  | Some c => onEventHandlers c = true -> insertFinalHandler s <> None
  | None => True
  end.

(** The states a service goes through: from its construction, by any
    inputs. *)
Definition reachable (s : LiveTranscribeService) : Prop :=
  exists (onStatus onRunning onFrame : bool) (inputs : list Input),
    s = state (run inputs (new_service onStatus onRunning onFrame)).

(** The options of the clients created. *)
Fixpoint clients_created (out : list Effect) : list Opts.t :=
  match out with
  | [] => []
  | NewRealtimeClient opts :: rest => opts :: clients_created rest
  | _ :: rest => clients_created rest
  end.

(** The chunk size and sample rate of the captures started. *)
Fixpoint captures_started (out : list Effect) : list (number * number) :=
  match out with
  | [] => []
  | StartMicPcm16Capture chunkSizeSamples sampleRate :: rest =>
      (chunkSizeSamples, sampleRate) :: captures_started rest
  | _ :: rest => captures_started rest
  end.

(** The calls that neither open a channel or a capture nor send audio. *)
Definition is_quiet (e : Effect) : bool :=
  match e with
  | NewRealtimeClient _ | StartMicPcm16Capture _ _ | WsSendAudio _ => false
  | _ => true
  end.

(** The tail the flush looks at: [pendingUnformatted] if it is not empty,
    else [current]; trimmed. *)
Definition tail_of (s : LiveTranscribeService) : string :=
  trim (if pendingUnformatted s =? "" then current s else pendingUnformatted s).

(** A service is either set up in full or torn down in full: while it
    runs it holds a subscribed client, a capture and a commit handler; while
    it does not it holds none of them, and no text is left to flush. *)
Definition settled (s : LiveTranscribeService) : Prop :=
  if running s then
    (exists c, aai s = Some c /\ onEventHandlers c = true)
    /\ mic s <> None
    /\ insertFinalHandler s <> None
    /\ unsubAai s = true
  else
    aai s = None
    /\ mic s = None
    /\ unsubAai s = false
    /\ insertFinalHandler s = None
    /\ insertPartialHandler s = None
    /\ insertPreviewHandler s = None
    /\ tail_of s = "".

(** The socket of the client held, if any, is not open. *)
Definition socket_shut (s : LiveTranscribeService) : Prop :=
  match aai s with
  | Some c => ws c <> Some OPEN
  | None => True
  end.

(** An action that tells the plugin when it ends a running session: if the
    [onRunningChange] callback was supplied it still is afterwards, and a
    session that ran before and does not run after was announced with
    [onRunningChange(false)]. *)
Definition announces {A} (m : Svc A) : Prop :=
  forall s,
    opt_onRunningChange s = true ->
    opt_onRunningChange (state (m s)) = true
    /\ (running s = true ->
        running (state (m s)) = false ->
        In (CallOnRunningChange false) (output (m s))).

(** What reaches the plugin: a block asks to start, a block stops its
    stream, the toggle command, and whatever reaches the live service (the
    start and stop commands, the channel, the capture). *)
Inductive PluginInput : Type :=
| StartBlock (opts : BlockOpts) (env : StartEnv) (fenv : FileEnv)
| StopStream
| ToggleCommand (env : StartEnv)
| ToService (i : Input).

Definition plugin_step (i : PluginInput) : Plg unit :=
  match i with
  | StartBlock opts env fenv =>
      _ <- startRecordingForBlock opts env fenv ;; ret tt
  | StopStream => stopStreamRecording
  | ToggleCommand env => on_live (toggle env)
  | ToService i => on_live (step i)
  end.

Fixpoint plugin_run (inputs : list PluginInput) : Plg unit :=
  match inputs with
  | [] => ret tt
  | i :: rest => plugin_step i ;; plugin_run rest
  end.

(** A block is on record as the owner of the stream only while the live
    service runs. *)
Definition owner_runs (p : TuonScribePlugin) : Prop :=
  streamRecordingBlockId p <> None -> live_isRunning p = true.

(** The plugin gave its live service the [onRunningChange] callback. *)
Definition listens (p : TuonScribePlugin) : Prop :=
  match liveTranscribe p with
  | Some svc => opt_onRunningChange svc = true
  | None => True
  end.

(** Every event of a list is well formed: an update has text, is final
    only at the end of a turn and, for a client that waits for formatting,
    only when formatted; an error has a message. *)
Definition well_formed (c : AssemblyAiRealtimeClient)
    (ev : AssemblyAiTranscriptEvent) : Prop :=
  match ev with
  | transcript_update text is_final end_of_turn formatted =>
      text <> ""
      /\ (is_final = true -> end_of_turn = Some true)
      /\ (is_final = true -> formatTurns c = true -> formatted = Some true)
  | error message => message <> "" /\ trim message = message
  | _ => True
  end.

(** The values given to the running-change callback, in order. *)
Fixpoint running_changes (out : list Effect) : list bool :=
  match out with
  | [] => []
  | CallOnRunningChange b :: rest => b :: running_changes rest
  | _ :: rest => running_changes rest
  end.

(** An action that sends no audio and leaves the client held as it is,
    or drops it. *)
Definition mute {A} (m : Svc A) : Prop :=
  forall s,
    (aai (state (m s)) = aai s \/ aai (state (m s)) = None)
    /\ sent_audio (output (m s)) = [].

(** What a flush in state [s] commits: the tail, if it is not blank, to the
    commit handler, if there is one. *)
Definition tail_commits (s : LiveTranscribeService)
  : list (FinalHandler * string) :=
  if tail_of s =? "" then [] else calls (insertFinalHandler s) (tail_of s).

(** The text contains a line feed. *)
Fixpoint has_lf (s : string) : bool :=
  match s with
  | EmptyString => false
  | String c r => Ascii.eqb c LF || has_lf r
  end.

(** The variables of the loop of [parseVocabTerms] when it has gone
    through all of [content]. *)
Definition parse_end (content : string) : ParseState :=
  fold_left parse_line (split_lines content)
    {| terms := []; seen := []; inCodeFence := false |}.

(** A line that [parseVocabTerms] takes for markup: a code fence, a
    heading, a quotation or a comment. *)
Definition is_markup (line : string) : bool :=
  String.prefix "```" line || String.prefix "#" line
  || String.prefix ">" line || String.prefix "<!--" line.

(** A term as [parseVocabTerms] returns them: the normal form of some
    line, of at most [MAX_KEYTERM_LENGTH] UTF-16 units. *)
Definition is_keyterm (t : string) : Prop :=
  (exists line, normalizeVocabTerm line = Some t)
  /\ js_length t <= MAX_KEYTERM_LENGTH.

(** A call of the audio-frame callback. *)
Definition is_frame_call (e : Effect) : bool :=
  match e with CallOnAudioFrame _ => true | _ => false end.

(** An update that is not final. *)
Definition is_partial_update (ev : AssemblyAiTranscriptEvent) : bool :=
  is_update ev && negb (is_final_update ev).

(** Concrete surroundings used where a statement is tried on an input. *)
Definition demo_config : Cfg.t :=
  {| Cfg.sampleRate := nan;
     Cfg.chunkSizeSamples := (-3)%float;
     Cfg.encoding := pcm_s16le;
     Cfg.formatTurns := true;
     Cfg.endOfTurnConfidenceThreshold := 0.5%float;
     Cfg.minEndOfTurnSilenceMs := 160%float;
     Cfg.maxTurnSilenceMs := 2400%float |}.

Definition demo_env : StartEnv :=
  {| env_apiKey := Some " key ";
     env_config := demo_config;
     env_keyterms := None;
     env_connect := SocketOpens;
     env_mic := MicStarts |}.

Definition demo_target : Target :=
  {| onFinalText := 1; onPartialText := Some 2; onPreviewText := Some 3 |}.

(** A service right after a successful [start]. *)
Definition demo_session : LiveTranscribeService :=
  state (start (Some demo_target) demo_env (new_service true true true)).

(** A turn message as parsed, with the text it was parsed from. *)
Definition quoted (s : string) : string :=
  String (ascii_of_nat 34) s ++ String (ascii_of_nat 34) "".

Definition demo_turn_text : string :=
  "{" ++ quoted "type" ++ ":" ++ quoted "Turn" ++ ","
      ++ quoted "transcript" ++ ":" ++ quoted "hello world" ++ ","
      ++ quoted "end_of_turn" ++ ":true,"
      ++ quoted "turn_is_formatted" ++ ":false}".

Definition demo_turn : json :=
  JObj [("type", JStr "Turn");
        ("transcript", JStr "hello world");
        ("end_of_turn", JBool true);
        ("turn_is_formatted", JBool false)].

(** A turn message whose transcript is one space, end of turn and not
    formatted, and the inputs that leave it behind in [pendingUnformatted]:
    a session receives it and is stopped, and a new session is started. *)
Definition blank_turn_text : string :=
  "{" ++ quoted "type" ++ ":" ++ quoted "Turn" ++ ","
      ++ quoted "transcript" ++ ":" ++ quoted " " ++ ","
      ++ quoted "end_of_turn" ++ ":true,"
      ++ quoted "turn_is_formatted" ++ ":false}".

Definition blank_turn : json :=
  JObj [("type", JStr "Turn");
        ("transcript", JStr " ");
        ("end_of_turn", JBool true);
        ("turn_is_formatted", JBool false)].

Definition stale_tail_inputs : list Input :=
  [DoStart (Some demo_target) demo_env;
   WsMessage (Some blank_turn_text) (Some blank_turn);
   DoStop;
   DoStart (Some demo_target) demo_env].

Definition demo_client : AssemblyAiRealtimeClient :=
  new_client {| Opts.apiKey := "key";
                Opts.sampleRate := 16000%float;
                Opts.encoding := None;
                Opts.formatTurns := None;
                Opts.endOfTurnConfidenceThreshold := None;
                Opts.minEndOfTurnSilenceMs := None;
                Opts.maxTurnSilenceMs := None;
                Opts.keytermsPrompt := None |}.

(** A plugin whose live session is held by block "A", and a request from
    block "B". *)
Definition demo_plugin : TuonScribePlugin :=
  {| liveTranscribe := Some demo_session;
     recordedTranscribe := Some {| recording := false; transcribing := false |};
     streamRecordingBlockId := Some "A";
     fileRecordingBlockId := None |}.

Definition demo_request : BlockOpts :=
  {| blockId := "B"; sourcePath := "note.md"; mode := mode_stream;
     block_target := {| onFinalText := 4; onPartialText := None;
                        onPreviewText := None |} |}.

Definition demo_file_env : FileEnv :=
  {| file_apiKey := Some "key"; file_capture := None |}.

Arguments trim : simpl never.
Arguments toLowerCase : simpl nomatch.
Arguments includes : simpl nomatch.

(* ===================================================================== *)
(** * Strings *)
(* ===================================================================== *)

Lemma trim_empty : trim "" = "".
Proof. reflexivity. Qed.

Lemma eqb_empty_false (s : string) : s <> "" -> (s =? "") = false.
Proof. intros H. apply String.eqb_neq. exact H. Qed.

Lemma trim_nonempty_arg (s : string) : trim s <> "" -> (s =? "") = false.
Proof.
  intros H. apply eqb_empty_false. intros ->. apply H. apply trim_empty.
Qed.

Lemma append_empty_r (s : string) : (s ++ "")%string = s.
Proof.
  induction s as [|c s IH]; [reflexivity|]. cbn. now rewrite IH.
Qed.

Lemma append_assoc (a b c : string) :
  ((a ++ b) ++ c)%string = (a ++ b ++ c)%string.
Proof.
  induction a as [|x a IH]; [reflexivity|]. cbn. now rewrite IH.
Qed.

Lemma is_prefix_of_refl (a : string) : is_prefix_of a a.
Proof. exists "". symmetry. apply append_empty_r. Qed.

Lemma is_prefix_of_trans (a b c : string) :
  is_prefix_of a b -> is_prefix_of b c -> is_prefix_of a c.
Proof.
  intros [t1 ->] [t2 ->]. exists (t1 ++ t2)%string. apply append_assoc.
Qed.

Lemma is_prefix_of_append (a t : string) : is_prefix_of a (a ++ t).
Proof. now exists t. Qed.

Lemma prefix_split (p s : string) :
  String.prefix p s = true <-> exists t, s = (p ++ t)%string.
Proof.
  revert s. induction p as [|a p IH]; intros s.
  - destruct s; cbn; split; intros; try reflexivity; eexists; reflexivity.
  - destruct s as [|b s]; cbn.
    + split; [discriminate | intros [t H]; discriminate].
    + destruct (ascii_dec a b) as [->|Hab].
      * rewrite IH. split; intros [t H]; exists t; [now rewrite H | now inversion H].
      * split; [discriminate | intros [t H]; inversion H; congruence].
Qed.

Lemma includes_split (needle hay : string) :
  includes needle hay = true
  <-> exists a b, hay = (a ++ needle ++ b)%string.
Proof.
  induction hay as [|c hay IH].
  - cbn [includes]. rewrite orb_false_r, prefix_split. split.
    + intros [t H]. exists "", t. exact H.
    + intros [a [b H]]. destruct a; cbn in H.
      * now exists b.
      * discriminate.
  - cbn [includes]. rewrite orb_true_iff, prefix_split, IH. split.
    + intros [[t H] | [a [b H]]].
      * exists "", t. exact H.
      * exists (String c a), b. cbn. now rewrite H.
    + intros [a [b H]]. destruct a as [|x a]; cbn in H.
      * left. now exists b.
      * right. inversion H. now exists a, b.
Qed.

Lemma toLowerCase_append (a b : string) :
  toLowerCase (a ++ b) = (toLowerCase a ++ toLowerCase b)%string.
Proof.
  induction a as [|c a IH]; [reflexivity|]. cbn. now rewrite IH.
Qed.

Lemma toLowerCase_unappend (m x y : string) :
  toLowerCase m = (x ++ y)%string ->
  exists a b, m = (a ++ b)%string /\ toLowerCase a = x /\ toLowerCase b = y.
Proof.
  revert m. induction x as [|c x IH]; intros m H.
  - exists "", m. auto.
  - destruct m as [|d m]; [discriminate|]. cbn in H. inversion H as [[Hc Hx]].
    destruct (IH m Hx) as [a [b [-> [Ha Hb]]]].
    exists (String d a), b. cbn. rewrite Ha. auto.
Qed.

(** The test of [handleAaiEvent] decides [mentions_not_authorized]. *)
Lemma not_authorized_test (message : string) :
  includes "not authorized" (toLowerCase message) = true
  <-> mentions_not_authorized message.
Proof.
  rewrite includes_split. split.
  - intros [a [b H]].
    destruct (toLowerCase_unappend _ _ _ H) as [before [rest [-> [_ Hrest]]]].
    destruct (toLowerCase_unappend _ _ _ Hrest) as [part [after [-> [Hpart _]]]].
    now exists before, part, after.
  - intros [before [part [after [-> Hpart]]]].
    exists (toLowerCase before), (toLowerCase after).
    now rewrite !toLowerCase_append, Hpart.
Qed.

(* ===================================================================== *)
(** * Reading an output *)
(* ===================================================================== *)

Section Projections.

Lemma commits_app a b : commits (a ++ b) = commits a ++ commits b.
Proof.
  induction a as [|e a IH]; [reflexivity|].
  destruct e; cbn; rewrite ?IH; reflexivity.
Qed.

Lemma sent_audio_app a b : sent_audio (a ++ b) = sent_audio a ++ sent_audio b.
Proof.
  induction a as [|e a IH]; [reflexivity|].
  destruct e; cbn; rewrite ?IH; reflexivity.
Qed.

Lemma partials_app a b : partials (a ++ b) = partials a ++ partials b.
Proof.
  induction a as [|e a IH]; [reflexivity|].
  destruct e; cbn; rewrite ?IH; reflexivity.
Qed.

Lemma previews_app a b : previews (a ++ b) = previews a ++ previews b.
Proof.
  induction a as [|e a IH]; [reflexivity|].
  destruct e; cbn; rewrite ?IH; reflexivity.
Qed.

Lemma statuses_app a b : statuses (a ++ b) = statuses a ++ statuses b.
Proof.
  induction a as [|e a IH]; [reflexivity|].
  destruct e; cbn; rewrite ?IH; reflexivity.
Qed.

Lemma commits_final h t : commits (final_calls h t) = calls h t.
Proof. now destruct h. Qed.

Lemma commits_partial h t : commits (partial_calls h t) = [].
Proof. now destruct h. Qed.

Lemma commits_preview h t : commits (preview_calls h t) = [].
Proof. now destruct h. Qed.

Lemma commits_terminate c : commits (snd (terminate c)) = [].
Proof. unfold terminate. destruct (ws c) as [[]|]; reflexivity. Qed.

Lemma partials_final h t : partials (final_calls h t) = [].
Proof. now destruct h. Qed.

Lemma partials_partial h t : partials (partial_calls h t) = calls h t.
Proof. now destruct h. Qed.

Lemma partials_preview h t : partials (preview_calls h t) = [].
Proof. now destruct h. Qed.

Lemma previews_final h t : previews (final_calls h t) = [].
Proof. now destruct h. Qed.

Lemma previews_partial h t : previews (partial_calls h t) = [].
Proof. now destruct h. Qed.

Lemma previews_preview h t : previews (preview_calls h t) = calls h t.
Proof. now destruct h. Qed.

Lemma statuses_final h t : statuses (final_calls h t) = [].
Proof. now destruct h. Qed.

Lemma statuses_partial h t : statuses (partial_calls h t) = [].
Proof. now destruct h. Qed.

Lemma statuses_preview h t : statuses (preview_calls h t) = [].
Proof. now destruct h. Qed.

Lemma sent_audio_final h t : sent_audio (final_calls h t) = [].
Proof. now destruct h. Qed.

Lemma sent_audio_partial h t : sent_audio (partial_calls h t) = [].
Proof. now destruct h. Qed.

Lemma sent_audio_preview h t : sent_audio (preview_calls h t) = [].
Proof. now destruct h. Qed.

Lemma sent_audio_terminate c : sent_audio (snd (terminate c)) = [].
Proof. unfold terminate. destruct (ws c) as [[]|]; reflexivity. Qed.

End Projections.

Create Rewrite HintDb proj.
#[local] Hint Rewrite
  commits_app commits_final commits_partial commits_preview commits_terminate
  partials_app partials_final partials_partial partials_preview
  previews_app previews_final previews_partial previews_preview
  statuses_app statuses_final statuses_partial statuses_preview
  sent_audio_app sent_audio_final sent_audio_partial sent_audio_preview
  sent_audio_terminate app_nil_r : proj.

(** Unfolds the monad, leaving the calls to whole methods in place. *)
Ltac run_act :=
  unfold notice; unfold bind, ret, get, modify, tell, tells;
  cbn [fst snd].

Ltac callbacks :=
  unfold callInsertFinal, callInsertPartial, callInsertPreview,
    onStatusText, onRunningChange, onAudioFrame.

Ltac fields s :=
  destruct s as [oS oR oF fMic fAai fUnsub fFin fCur fPend fRun fFH fPH fVH].

(** Reads the projections of an output built from call lists. *)
Ltac proj :=
  autorewrite with proj;
  repeat match goal with
         | |- context [when ?b _] =>
             lazymatch b with
             | true => fail
             | false => fail
             | _ => destruct b; cbn [when]
             end
         end;
  cbn [app commits partials previews statuses sent_audio when calls].

Lemma bind_run {S A B} (m : Act S A) (f : A -> Act S B) (s : S) :
  bind m f s
  = (value (f (value (m s)) (state (m s))),
     state (f (value (m s)) (state (m s))),
     output (m s) ++ output (f (value (m s)) (state (m s)))).
Proof.
  unfold bind, value, state, output.
  destruct (m s) as [[a s1] o1]. cbn.
  destruct (f a s1) as [[b s2] o2]. reflexivity.
Qed.

(* ===================================================================== *)
(** * The flush, the tear-down and the stop *)
(* ===================================================================== *)

Lemma str_or_empty_r (s : string) : str_or s "" = s.
Proof.
  unfold str_or. destruct (s =? "") eqn:E; [|reflexivity].
  apply String.eqb_eq in E. now rewrite E.
Qed.

Lemma flush_fallback s :
  trim (str_or (str_or (pendingUnformatted s) (current s)) "") = tail_of s.
Proof. rewrite str_or_empty_r. reflexivity. Qed.

Lemma flush_blank s :
  tail_of s = "" -> flushPendingUnformatted s = (tt, s, []).
Proof.
  intros H. unfold flushPendingUnformatted. run_act.
  rewrite flush_fallback, H. reflexivity.
Qed.

Lemma flush_tail s :
  tail_of s <> "" ->
  flushPendingUnformatted s
  = (tt,
     set_pendingUnformatted ""
       (set_current "" (set_finalized (finalized s ++ tail_of s ++ " ") s)),
     final_calls (insertFinalHandler s) (tail_of s)
       ++ partial_calls (insertPartialHandler s) "").
Proof.
  intros H. apply eqb_empty_false in H.
  unfold flushPendingUnformatted. callbacks. run_act.
  rewrite flush_fallback, H. cbn. rewrite ?app_nil_r. reflexivity.
Qed.

(** After a flush the tail is blank: either it was, or it was cleared. *)
Lemma flush_leaves_no_tail s :
  tail_of (state (flushPendingUnformatted s)) = "".
Proof.
  destruct (string_dec (tail_of s) "") as [E|E].
  - rewrite (flush_blank s E). exact E.
  - rewrite (flush_tail s E). reflexivity.
Qed.

Lemma cleanup_state s :
  let r := cleanup s in
  finalized (state r) = finalized s
  /\ current (state r) = current s
  /\ pendingUnformatted (state r) = pendingUnformatted s
  /\ running (state r) = running s
  /\ aai (state r) = None
  /\ mic (state r) = None
  /\ commits (output r) = []
  /\ sent_audio (output r) = [].
Proof.
  fields s. unfold cleanup. callbacks. run_act. cbn.
  repeat split; proj; auto.
  all: destruct fUnsub, fAai, fMic; cbn; autorewrite with proj; reflexivity.
Qed.

Lemma stop_idle s : running s = false -> stop s = (tt, s, []).
Proof. intros H. unfold stop. run_act. rewrite H. reflexivity. Qed.

Lemma stop_running s :
  running s = true ->
  let f := flushPendingUnformatted s in
  let r := stop s in
  finalized (state r) = finalized (state f)
  /\ current (state r) = current (state f)
  /\ pendingUnformatted (state r) = pendingUnformatted (state f)
  /\ running (state r) = false
  /\ aai (state r) = None
  /\ mic (state r) = None
  /\ commits (output r) = commits (output f)
  /\ sent_audio (output r) = sent_audio (output f).
Proof.
  intros H. unfold stop. run_act. rewrite H. cbn [negb].
  destruct (flushPendingUnformatted s) as [[[] s1] o1].
  pose proof (cleanup_state (set_running false s1)) as C. cbv zeta in C.
  callbacks. run_act.
  destruct (cleanup (set_running false s1)) as [[[] s2] o2].
  unfold state, output in *. cbn [fst snd] in *.
  destruct C as (C1 & C2 & C3 & C4 & C5 & C6 & C7 & C8).
  repeat split; auto; proj; rewrite ?C7, ?C8; cbn; now rewrite ?app_nil_r.
Qed.

Lemma flush_prefix s :
  is_prefix_of (finalized s) (finalized (state (flushPendingUnformatted s))).
Proof.
  destruct (string_dec (tail_of s) "") as [E|E].
  - rewrite (flush_blank s E). apply is_prefix_of_refl.
  - rewrite (flush_tail s E). apply is_prefix_of_append.
Qed.

Lemma flush_commits_at_most_once s :
  length (commits (output (flushPendingUnformatted s))) <= 1.
Proof.
  destruct (string_dec (tail_of s) "") as [E|E].
  - rewrite (flush_blank s E). cbn. lia.
  - rewrite (flush_tail s E). unfold output. cbn [snd]. proj.
    destruct (insertFinalHandler s); cbn; lia.
Qed.

Lemma flush_sends_no_audio s :
  sent_audio (output (flushPendingUnformatted s)) = [].
Proof.
  destruct (string_dec (tail_of s) "") as [E|E].
  - now rewrite (flush_blank s E).
  - rewrite (flush_tail s E). unfold output. cbn [snd]. now proj.
Qed.

Lemma stop_prefix s :
  is_prefix_of (finalized s) (finalized (state (stop s))).
Proof.
  destruct (running s) eqn:R.
  - destruct (stop_running s R) as (F & _). rewrite F. apply flush_prefix.
  - rewrite (stop_idle s R). apply is_prefix_of_refl.
Qed.

(* ===================================================================== *)
(** * The event handler *)
(* ===================================================================== *)

Lemma update_final s text eot fmt :
  handleAaiEvent (transcript_update text true eot fmt) s
  = (tt,
     set_pendingUnformatted ""
       (set_current "" (set_finalized (finalized s ++ trim text ++ " ") s)),
     final_calls (insertFinalHandler s) text
       ++ partial_calls (insertPartialHandler s) ""
       ++ when (opt_onStatusText s)
            (CallOnStatusText
               (str_or (trim ((finalized s ++ trim text ++ " ") ++ "")) "Listening…"))
       ++ preview_calls (insertPreviewHandler s)
            (trim ((finalized s ++ trim text ++ " ") ++ ""))).
Proof.
  fields s. unfold handleAaiEvent. callbacks. run_act. cbn.
  rewrite ?app_nil_r, <- ?app_assoc. reflexivity.
Qed.

Lemma update_partial s text eot fmt :
  handleAaiEvent (transcript_update text false eot fmt) s
  = (tt,
     set_pendingUnformatted
       (if is_true eot && is_false fmt then text else pendingUnformatted s)
       (set_current text s),
     partial_calls (insertPartialHandler s) text
       ++ when (opt_onStatusText s)
            (CallOnStatusText (str_or (trim (finalized s ++ text)) "Listening…"))
       ++ preview_calls (insertPreviewHandler s) (trim (finalized s ++ text))).
Proof.
  fields s. unfold handleAaiEvent. callbacks. run_act. cbn.
  rewrite ?app_nil_r, <- ?app_assoc. reflexivity.
Qed.

Lemma error_event s message :
  handleAaiEvent (error message) s
  = (tt,
     state (if includes "not authorized" (toLowerCase message)
            then stop s else (tt, s, [])),
     when (opt_onStatusText s) (CallOnStatusText "Transcription error.")
       ++ Notice ("Transcription error: " ++ message)
       :: output (if includes "not authorized" (toLowerCase message)
                  then stop s else (tt, s, []))).
Proof.
  unfold handleAaiEvent. callbacks. run_act.
  destruct (includes "not authorized" (toLowerCase message)).
  - destruct (stop s) as [[[] s1] o1]. cbn. reflexivity.
  - cbn. reflexivity.
Qed.

Lemma handleAaiEvent_prefix s ev :
  is_prefix_of (finalized s) (finalized (state (handleAaiEvent ev s))).
Proof.
  destruct ev as [id | text [|] eot fmt | | message].
  - apply is_prefix_of_refl.
  - rewrite update_final. apply is_prefix_of_append.
  - rewrite update_partial. apply is_prefix_of_refl.
  - apply flush_prefix.
  - rewrite error_event. unfold state at 1. cbn [fst snd].
    destruct (includes "not authorized" (toLowerCase message)).
    + apply stop_prefix.
    + apply is_prefix_of_refl.
Qed.

Lemma handleAll_cons ev evs s :
  handleAll (ev :: evs) s
  = (tt,
     state (handleAll evs (state (handleAaiEvent ev s))),
     output (handleAaiEvent ev s)
       ++ output (handleAll evs (state (handleAaiEvent ev s)))).
Proof.
  cbn [handleAll]. rewrite bind_run.
  destruct (handleAll evs (state (handleAaiEvent ev s))) as [[[] s2] o2].
  reflexivity.
Qed.

Lemma handleAll_prefix evs :
  forall s, is_prefix_of (finalized s) (finalized (state (handleAll evs s))).
Proof.
  induction evs as [|ev evs IH]; intros s.
  - apply is_prefix_of_refl.
  - rewrite handleAll_cons. unfold state at 1. cbn [fst snd].
    eapply is_prefix_of_trans; [apply handleAaiEvent_prefix | apply IH].
Qed.

(** What an update leaves of the commit handler, and what it commits. *)
Lemma update_commits s text fin eot fmt :
  let r := handleAaiEvent (transcript_update text fin eot fmt) s in
  insertFinalHandler (state r) = insertFinalHandler s
  /\ commits (output r)
     = if fin then calls (insertFinalHandler s) text else [].
Proof.
  destruct fin; cbv zeta.
  - rewrite update_final. unfold state, output. cbn [fst snd].
    split; [reflexivity|]. proj; now rewrite ?app_nil_r.
  - rewrite update_partial. unfold state, output. cbn [fst snd].
    split; [reflexivity|]. proj; reflexivity.
Qed.

Lemma updates_commit_finals evs :
  forall s,
    Forall (fun ev => is_update ev = true) evs ->
    commits (output (handleAll evs s))
    = flat_map (fun ev => calls (insertFinalHandler s) (text_of ev))
        (filter is_final_update evs).
Proof.
  induction evs as [|ev evs IH]; intros s Hall.
  - reflexivity.
  - inversion Hall as [|? ? Hev Hrest]; subst.
    destruct ev as [id | text fin eot fmt | | message]; try discriminate.
    rewrite handleAll_cons. unfold output at 1. cbn [snd].
    rewrite commits_app.
    destruct (update_commits s text fin eot fmt) as [Hh Hc].
    rewrite Hc, (IH _ Hrest), Hh. cbn [filter is_final_update].
    destruct fin; cbn [flat_map text_of]; reflexivity.
Qed.

(* ===================================================================== *)
(** * The reconciler *)
(* ===================================================================== *)

(** C1.  A final update appends its trimmed text and a space to
    [finalized], clears [current] and [pendingUnformatted], calls the commit
    callback once with the text as received and the partial callback with
    the empty string.  Hence a list of updates commits exactly its final
    ones, in their order of arrival. *)
Theorem final_update_commits_exactly_once :
  forall (s : LiveTranscribeService) (h : FinalHandler),
    insertFinalHandler s = Some h ->
    (forall text eot fmt,
        let r := handleAaiEvent (transcript_update text true eot fmt) s in
        finalized (state r) = (finalized s ++ trim text ++ " ")%string
        /\ current (state r) = ""
        /\ pendingUnformatted (state r) = ""
        /\ commits (output r) = [(h, text)]
        /\ partials (output r) = calls (insertPartialHandler s) "")
    /\ (forall evs,
          Forall (fun ev => is_update ev = true) evs ->
          commits (output (handleAll evs s))
          = map (fun ev => (h, text_of ev)) (filter is_final_update evs)).
Proof.
  intros s h Hh. split.
  - intros text eot fmt. cbv zeta. rewrite update_final.
    unfold state, output. cbn [fst snd]. rewrite Hh.
    repeat split; proj; now rewrite ?app_nil_r.
  - intros evs Hall. rewrite (updates_commit_finals evs s Hall), Hh.
    induction (filter is_final_update evs) as [|ev l IH]; [reflexivity|].
    cbn [flat_map map calls app]. now f_equal.
Qed.

Lemma final_update_commits_exactly_once_witness :
  insertFinalHandler demo_session = Some (TargetOnFinalText 1)
  /\ commits (output (handleAll
                        [transcript_update "a" true None None;
                         transcript_update "b?" false None None;
                         transcript_update " b " true (Some true) (Some true)]
                        demo_session))
     = [(TargetOnFinalText 1, "a"); (TargetOnFinalText 1, " b ")].
Proof.
  split; [reflexivity|].
  apply (proj2 (final_update_commits_exactly_once demo_session
                  (TargetOnFinalText 1) eq_refl)).
  repeat constructor.
Defined.

(** C3.  [finalized] only grows: its value before an event, a flush or a
    list of events is a prefix of its value after. *)
Theorem finalized_is_append_only :
  (forall s ev,
      is_prefix_of (finalized s) (finalized (state (handleAaiEvent ev s))))
  /\ (forall s,
        is_prefix_of (finalized s)
          (finalized (state (flushPendingUnformatted s))))
  /\ (forall evs s,
        is_prefix_of (finalized s) (finalized (state (handleAll evs s)))).
Proof.
  split; [exact handleAaiEvent_prefix|].
  split; [exact flush_prefix | exact handleAll_prefix].
Qed.

(** C4.  The flush run twice in a row: the second run changes nothing and
    calls nothing, and the first commits at most once.  In particular a
    [stop()] that follows a [SessionTerminated] commits nothing more and
    leaves [finalized] as the termination left it. *)
Theorem flush_twice_commits_once :
  forall s : LiveTranscribeService,
    let r1 := flushPendingUnformatted s in
    let r2 := flushPendingUnformatted (state r1) in
    let t := handleAaiEvent session_terminated s in
    let r3 := stop (state t) in
    state r2 = state r1
    /\ output r2 = []
    /\ length (commits (output r1)) <= 1
    /\ commits (output r3) = []
    /\ finalized (state r3) = finalized (state t).
Proof.
  intros s. cbv zeta.
  pose proof (flush_leaves_no_tail s) as T.
  rewrite (flush_blank _ T).
  split; [reflexivity|]. split; [reflexivity|].
  split; [apply flush_commits_at_most_once|].
  change (handleAaiEvent session_terminated s) with (flushPendingUnformatted s).
  destruct (running (state (flushPendingUnformatted s))) eqn:R.
  - destruct (stop_running _ R) as (F & _ & _ & _ & _ & _ & C & _).
    rewrite C, F, (flush_blank _ T). split; reflexivity.
  - rewrite (stop_idle _ R). split; reflexivity.
Qed.

(** C2, as stated, fails: an end-of-turn, unformatted update whose text is
    blank is followed by [SessionTerminated] and nothing is committed; and
    when the text has blanks around it the commit callback receives the
    trimmed text, not the text of the update. *)
Lemma blank_unformatted_tail_is_not_committed :
  insertFinalHandler demo_session = Some (TargetOnFinalText 1)
  /\ commits (output (handleAll
                        [transcript_update " " false (Some true) (Some false);
                         session_terminated] demo_session)) = []
  /\ finalized (state (handleAll
                         [transcript_update " " false (Some true) (Some false);
                          session_terminated] demo_session)) = ""
  /\ commits (output (handleAll
                        [transcript_update " hi " false (Some true) (Some false);
                         session_terminated] demo_session))
     = [(TargetOnFinalText 1, "hi")].
Proof. vm_compute. repeat split. Qed.

(** C2, amended.  When the text of the end-of-turn, unformatted update is
    not blank, the termination that follows commits it through the flush:
    the commit callback is called once, with the trimmed text, and the
    trimmed text and a space are appended to [finalized].  The flush takes
    [pendingUnformatted] if it is not empty and [current] otherwise. *)
Theorem unformatted_tail_is_flushed_on_termination :
  forall (s : LiveTranscribeService) (h : FinalHandler) (text : string),
    insertFinalHandler s = Some h ->
    trim text <> "" ->
    let r := handleAll [transcript_update text false (Some true) (Some false);
                        session_terminated] s in
    commits (output r) = [(h, trim text)]
    /\ finalized (state r) = (finalized s ++ trim text ++ " ")%string
    /\ current (state r) = ""
    /\ pendingUnformatted (state r) = ""
    /\ (forall s0 : LiveTranscribeService,
          tail_of s0 <> "" ->
          tail_of s0
          = trim (if pendingUnformatted s0 =? "" then current s0
                  else pendingUnformatted s0)
          /\ commits (output (flushPendingUnformatted s0))
             = calls (insertFinalHandler s0) (tail_of s0)
          /\ finalized (state (flushPendingUnformatted s0))
             = (finalized s0 ++ tail_of s0 ++ " ")%string).
Proof.
  intros s h text Hh Ht. cbv zeta.
  rewrite !handleAll_cons. cbn [handleAll]. unfold ret, state, output.
  cbn [fst snd]. rewrite update_partial. cbn [fst snd].
  change (handleAaiEvent session_terminated) with flushPendingUnformatted.
  set (s1 := set_pendingUnformatted _ _).
  assert (T : tail_of s1 = trim text).
  { unfold tail_of, s1. cbn. now rewrite (trim_nonempty_arg _ Ht). }
  assert (T' : tail_of s1 <> "") by now rewrite T.
  rewrite (flush_tail s1 T'), T. cbn [fst snd].
  split; [|split; [|split; [|split]]].
  - proj; unfold s1; cbn; rewrite Hh; reflexivity.
  - reflexivity.
  - reflexivity.
  - reflexivity.
  - intros s0 H0. rewrite (flush_tail s0 H0). cbn [fst snd].
    split; [reflexivity|]. split; [now proj | reflexivity].
Qed.

Lemma unformatted_tail_is_flushed_on_termination_witness :
  insertFinalHandler demo_session = Some (TargetOnFinalText 1)
  /\ trim "testing" <> ""
  /\ commits (output (handleAll
                        [transcript_update "testing" false (Some true) (Some false);
                         session_terminated] demo_session))
     = [(TargetOnFinalText 1, trim "testing")].
Proof.
  assert (Ht : trim "testing" <> "") by (vm_compute; discriminate).
  split; [reflexivity|]. split; [exact Ht|].
  exact (proj1 (unformatted_tail_is_flushed_on_termination demo_session
                  (TargetOnFinalText 1) "testing" eq_refl Ht)).
Defined.

(** C7, as stated, fails: when the computed preview is empty the handler
    itself gives "Listening…" to the status callback; only the preview
    callback receives the empty string. *)
Lemma empty_preview_reaches_status_as_placeholder :
  trim (finalized (state (handleAaiEvent (transcript_update " " false None None)
                            demo_session))
        ++ current (state (handleAaiEvent (transcript_update " " false None None)
                             demo_session))) = ""
  /\ statuses (output (handleAaiEvent (transcript_update " " false None None)
                         demo_session)) = ["Listening…"]
  /\ previews (output (handleAaiEvent (transcript_update " " false None None)
                         demo_session)) = [(3, "")].
Proof. vm_compute. repeat split. Qed.

(** C7, amended.  After an update of either kind the preview is the trimmed
    concatenation of [finalized] and [current].  The preview callback
    receives exactly it.  The status callback receives it when it is not
    empty, and the placeholder "Listening…", put in by the handler itself,
    when it is. *)
Theorem update_delivers_preview :
  forall (s : LiveTranscribeService) (text : string) (fin : bool)
         (eot fmt : option bool),
    let r := handleAaiEvent (transcript_update text fin eot fmt) s in
    let preview := trim (finalized (state r) ++ current (state r)) in
    statuses (output r)
    = (if opt_onStatusText s
       then [if preview =? "" then "Listening…" else preview]
       else [])
    /\ previews (output r) = calls (insertPreviewHandler s) preview.
Proof.
  intros s text fin eot fmt. cbv zeta. destruct fin.
  - rewrite update_final. unfold state, output. cbn [fst snd].
    fields s. cbn. split; proj; now rewrite ?app_nil_r.
  - rewrite update_partial. unfold state, output. cbn [fst snd].
    fields s. cbn. split; proj; now rewrite ?app_nil_r.
Qed.

(** C6.  [start] clears [finalized] and [current] but not
    [pendingUnformatted].  A blank end-of-turn tail received from the wire
    survives the [stop] (the flush returns before clearing it) and the next
    [start]: the new session begins with [pendingUnformatted] holding it. *)
Theorem start_keeps_stale_pendingUnformatted :
  running (state (run stale_tail_inputs (new_service true true true))) = true
  /\ finalized (state (run stale_tail_inputs (new_service true true true))) = ""
  /\ current (state (run stale_tail_inputs (new_service true true true))) = ""
  /\ pendingUnformatted
       (state (run stale_tail_inputs (new_service true true true))) = " ".
Proof. vm_compute. repeat split. Qed.

(** What the stale tail costs: in the second session the words of a
    partial update are neither committed on termination nor on stop, where
    a fresh session commits them. *)
Lemma stale_pendingUnformatted_loses_words :
  commits (output (run [Event (transcript_update "hello" false None None);
                        Event session_terminated;
                        DoStop]
                     (state (run stale_tail_inputs
                               (new_service true true true))))) = []
  /\ commits (output (run [Event (transcript_update "hello" false None None);
                           Event session_terminated;
                           DoStop]
                        demo_session))
     = [(TargetOnFinalText 1, "hello")].
Proof. vm_compute. split; reflexivity. Qed.

(* ===================================================================== *)
(** * The channel *)
(* ===================================================================== *)

(** C5.  A turn message whose transcript is a non-empty string is emitted
    as one update, final exactly when the turn has ended and either it is
    formatted or the client was created with [formatTurns] off.  A turn
    message whose transcript is empty, missing or not a string emits
    nothing. *)
Theorem turn_message_becomes_update :
  forall (c : AssemblyAiRealtimeClient) (dataStr : string) (msg : json),
    dataStr <> "" ->
    prop msg "type" = Some (JStr "Turn") ->
    let endOfTurn := truthy (prop msg "end_of_turn") in
    let turnIsFormatted := truthy (prop msg "turn_is_formatted") in
    let emitted := handleMessageString c dataStr (Some msg) in
    (forall transcript,
        prop msg "transcript" = Some (JStr transcript) ->
        transcript <> "" ->
        emitted
        = [transcript_update transcript
             (endOfTurn && (turnIsFormatted || negb (formatTurns c)))
             (Some endOfTurn) (Some turnIsFormatted)])
    /\ (prop msg "transcript" = Some (JStr "") -> emitted = [])
    /\ ((forall t, prop msg "transcript" <> Some (JStr t)) -> emitted = []).
Proof.
  intros c dataStr msg Hdata Htype. cbv zeta.
  unfold handleMessageString.
  rewrite (eqb_empty_false _ Hdata), Htype.
  repeat split.
  - intros transcript Ht Hne. rewrite Ht.
    destruct transcript as [|a t]; [contradiction|]. reflexivity.
  - intros Ht. rewrite Ht. reflexivity.
  - intros Hno. destruct (prop msg "transcript") as [[| | |t| |]|]; try reflexivity.
    now elim (Hno t).
Qed.

Lemma turn_message_becomes_update_witness :
  demo_turn_text <> ""
  /\ prop demo_turn "type" = Some (JStr "Turn")
  /\ handleMessageString demo_client demo_turn_text (Some demo_turn)
     = [transcript_update "hello world" false (Some true) (Some false)].
Proof.
  assert (Hd : demo_turn_text <> "") by (vm_compute; discriminate).
  assert (Ht : "hello world" <> "") by discriminate.
  split; [exact Hd|]. split; [reflexivity|].
  exact (proj1 (turn_message_becomes_update demo_client demo_turn_text
                  demo_turn Hd eq_refl)
           "hello world" eq_refl Ht).
Defined.

(* ===================================================================== *)
(** * After the channel is gone *)
(* ===================================================================== *)

Lemma run_cons i inputs s :
  run (i :: inputs) s
  = (tt,
     state (run inputs (state (step i s))),
     output (step i s) ++ output (run inputs (state (step i s)))).
Proof.
  cbn [run]. rewrite bind_run.
  destruct (run inputs (state (step i s))) as [[[] s2] o2]. reflexivity.
Qed.

Lemma emit_without_channel ev s : aai s = None -> emit ev s = (tt, s, []).
Proof. intros H. unfold emit. run_act. rewrite H. reflexivity. Qed.

(** With no client held, no input but a [start] brings one back, and none
    sends audio. *)
Lemma step_without_channel i s :
  is_start i = false ->
  aai s = None ->
  aai (state (step i s)) = None /\ sent_audio (output (step i s)) = [].
Proof.
  intros Hi Ha. destruct i as [t e | | ev | d p | reason | | chunk | data];
    try discriminate; cbn [step].
  - destruct (running s) eqn:R.
    + destruct (stop_running s R) as (_ & _ & _ & _ & A & _ & _ & S).
      rewrite S, flush_sends_no_audio. auto.
    + rewrite (stop_idle s R). auto.
  - rewrite (emit_without_channel _ _ Ha). auto.
  - unfold ws_onmessage. destruct (nullish d "" =? ""); run_act.
    + auto.
    + rewrite Ha. auto.
  - fields s. cbn in Ha. subst fAai.
    unfold ws_onclose, emit. run_act. cbn.
    destruct (trim (str_or reason "") =? ""); cbn; auto.
  - unfold ws_onerror. rewrite (emit_without_channel _ _ Ha). auto.
  - unfold onPcm16Chunk. run_act. rewrite Ha. auto.
  - unfold onAudioFrame. run_act. split; [exact Ha|].
    unfold output. cbn [snd]. now destruct (opt_onAudioFrame s).
Qed.

Lemma run_without_channel inputs :
  forall s,
    Forall (fun i => is_start i = false) inputs ->
    aai s = None ->
    sent_audio (output (run inputs s)) = [].
Proof.
  induction inputs as [|i inputs IH]; intros s Hall Ha.
  - reflexivity.
  - inversion Hall as [|? ? Hi Hrest]; subst.
    destruct (step_without_channel i s Hi Ha) as [A S].
    rewrite run_cons. unfold output at 1. cbn [snd].
    now rewrite sent_audio_app, S, (IH _ Hrest A).
Qed.

(** C8.  An error whose message mentions "not authorized" in any case,
    handled while the session runs, stops the service: it is no longer
    running, holds neither channel nor capture, the channel it closed drops
    what it is given, and whatever arrives afterwards, short of a new
    [start], sends no audio.  Any other error leaves the service as it
    was. *)
Theorem auth_error_stops_session :
  forall (s : LiveTranscribeService) (message : string),
    running s = true ->
    let r := handleAaiEvent (error message) s in
    (mentions_not_authorized message ->
       running (state r) = false
       /\ aai (state r) = None
       /\ mic (state r) = None
       /\ (forall c chunk, sendPcm16Chunk chunk (fst (terminate c)) = [])
       /\ (forall inputs,
             Forall (fun i => is_start i = false) inputs ->
             sent_audio (output (run inputs (state r))) = []))
    /\ (~ mentions_not_authorized message ->
          state r = s /\ running (state r) = true).
Proof.
  intros s message R. cbv zeta. rewrite error_event.
  unfold state at 1 2 3 4 5 6. cbn [fst snd].
  destruct (includes "not authorized" (toLowerCase message)) eqn:T.
  - split.
    + intros _.
      destruct (stop_running s R) as (_ & _ & _ & R' & A & M & _).
      repeat split; auto.
      * intros c chunk. unfold terminate, sendPcm16Chunk.
        destruct (ws c) as [[]|] eqn:W; cbn; rewrite ?W; reflexivity.
      * intros inputs Hall. now apply run_without_channel.
    + intros Hno. elim Hno. now apply not_authorized_test.
  - split.
    + intros Hyes. apply not_authorized_test in Hyes. congruence.
    + intros _. cbn. auto.
Qed.

Lemma auth_error_stops_session_witness :
  running demo_session = true
  /\ mentions_not_authorized "Not Authorized: token expired"
  /\ running (state (handleAaiEvent (error "Not Authorized: token expired")
                       demo_session)) = false
  /\ sent_audio
       (output (run [Pcm16Chunk [Byte.x01; Byte.x02];
                     Event (transcript_update "late" true None None);
                     Pcm16Chunk [Byte.x03]]
                  (state (handleAaiEvent (error "Not Authorized: token expired")
                            demo_session)))) = [].
Proof.
  assert (M : mentions_not_authorized "Not Authorized: token expired").
  { exists "", "Not Authorized", ": token expired". split; reflexivity. }
  pose proof (proj1 (auth_error_stops_session demo_session
                       "Not Authorized: token expired" eq_refl) M)
    as (R & _ & _ & _ & Q).
  split; [reflexivity|]. split; [exact M|]. split; [exact R|].
  apply Q. repeat constructor.
Defined.

(* ===================================================================== *)
(** * Starting a session *)
(* ===================================================================== *)

Lemma clients_created_app a b :
  clients_created (a ++ b) = clients_created a ++ clients_created b.
Proof.
  induction a as [|e a IH]; [reflexivity|].
  destruct e; cbn; rewrite ?IH; reflexivity.
Qed.

Lemma captures_started_app a b :
  captures_started (a ++ b) = captures_started a ++ captures_started b.
Proof.
  induction a as [|e a IH]; [reflexivity|].
  destruct e; cbn; rewrite ?IH; reflexivity.
Qed.

Lemma quiet_opens_nothing out :
  forallb is_quiet out = true ->
  clients_created out = [] /\ captures_started out = [].
Proof.
  induction out as [|e out IH]; [auto|].
  cbn [forallb]. rewrite andb_true_iff. intros [He Hout].
  destruct (IH Hout) as [C M].
  destruct e; try discriminate; cbn; auto.
Qed.

Lemma quiet_final h t : forallb is_quiet (final_calls h t) = true.
Proof. now destruct h. Qed.

Lemma quiet_partial h t : forallb is_quiet (partial_calls h t) = true.
Proof. now destruct h. Qed.

Lemma quiet_preview h t : forallb is_quiet (preview_calls h t) = true.
Proof. now destruct h. Qed.

Lemma quiet_when b e : is_quiet e = true -> forallb is_quiet (when b e) = true.
Proof. intros H. destruct b; cbn; now rewrite ?H. Qed.

Lemma quiet_terminate c : forallb is_quiet (snd (terminate c)) = true.
Proof. unfold terminate. destruct (ws c) as [[]|]; reflexivity. Qed.

Lemma flush_quiet s :
  forallb is_quiet (output (flushPendingUnformatted s)) = true.
Proof.
  destruct (string_dec (tail_of s) "") as [E|E].
  - now rewrite (flush_blank s E).
  - rewrite (flush_tail s E). unfold output. cbn [snd].
    now rewrite forallb_app, quiet_final, quiet_partial.
Qed.

Lemma cleanup_quiet s : forallb is_quiet (output (cleanup s)) = true.
Proof.
  fields s. unfold cleanup. callbacks. run_act. cbn.
  rewrite !forallb_app, quiet_partial, quiet_preview, quiet_when by reflexivity.
  destruct fUnsub, fAai, fMic; cbn; rewrite ?quiet_terminate; reflexivity.
Qed.

Lemma stop_quiet s : forallb is_quiet (output (stop s)) = true.
Proof.
  destruct (running s) eqn:R; [|now rewrite (stop_idle s R)].
  unfold stop. run_act. rewrite R. cbn [negb].
  pose proof (flush_quiet s) as F.
  destruct (flushPendingUnformatted s) as [[[] s1] o1].
  callbacks. run_act.
  pose proof (cleanup_quiet (set_running false s1)) as C.
  destruct (cleanup (set_running false s1)) as [[[] s2] o2].
  unfold output in *. cbn [fst snd] in *.
  rewrite !forallb_app, F, C, !quiet_when by reflexivity. reflexivity.
Qed.

Lemma usable_defaults : usable 16000%float /\ usable 800%float.
Proof. repeat split. Qed.

Lemma positive_or_usable x dflt :
  usable dflt ->
  (usable x -> positive_or x dflt = x)
  /\ (~ usable x -> positive_or x dflt = dflt)
  /\ usable (positive_or x dflt).
Proof.
  intros Hd. unfold positive_or, usable in *.
  destruct (isFinite x) eqn:F, (gt0 x) eqn:G; cbn; repeat split;
    try tauto; try (intros [? ?]; congruence); try (intros H; elim H; auto).
Qed.

Lemma begin_session_run target opts s :
  begin_session target opts s
  = (tt,
     set_unsubAai true
       (set_aai (Some (onEvent (new_client opts)))
          (set_running true
             (set_current ""
                (set_finalized ""
                   (set_insertPreviewHandler
                      match target with Some t => onPreviewText t | None => None end
                      (set_insertPartialHandler
                         match target with Some t => onPartialText t | None => None end
                         (set_insertFinalHandler
                            (Some match target with
                                  | Some t => TargetOnFinalText (onFinalText t)
                                  | None => InsertFinalAtCursor
                                  end) s))))))),
     when (opt_onRunningChange s) (CallOnRunningChange true)
       ++ when (opt_onStatusText s) (CallOnStatusText "Starting transcription…")
       ++ [NewRealtimeClient opts]).
Proof.
  fields s. unfold begin_session. callbacks. run_act. cbn.
  rewrite ?app_nil_r, <- ?app_assoc. reflexivity.
Qed.

(** C10.  A [start] that gets past its guards hands the channel and the
    capture a sample rate and a chunk size that are finite and positive:
    the configured ones when they are, 16000 and 800 when they are not.
    One client is created, with that rate; the capture, when [start] gets
    as far as starting it, is started with that chunk size and rate. *)
Theorem start_sanitizes_rate_and_chunk_size :
  forall (s : LiveTranscribeService) (target : option Target) (env : StartEnv),
    passes_guards s env ->
    let r := start target env s in
    let config := env_config env in
    exists (rate chunk : number) (opts : Opts.t),
      (usable (Cfg.sampleRate config) -> rate = Cfg.sampleRate config)
      /\ (~ usable (Cfg.sampleRate config) -> rate = 16000%float)
      /\ (usable (Cfg.chunkSizeSamples config)
          -> chunk = Cfg.chunkSizeSamples config)
      /\ (~ usable (Cfg.chunkSizeSamples config) -> chunk = 800%float)
      /\ usable rate
      /\ usable chunk
      /\ clients_created (output r) = [opts]
      /\ Opts.sampleRate opts = rate
      /\ (captures_started (output r) = [(chunk, rate)]
          \/ captures_started (output r) = []).
Proof.
  intros s target env [Hrun Hkey]. cbv zeta.
  destruct usable_defaults as [U16 U8].
  destruct (positive_or_usable (Cfg.sampleRate (env_config env)) _ U16)
    as (R1 & R2 & R3).
  destruct (positive_or_usable (Cfg.chunkSizeSamples (env_config env)) _ U8)
    as (K1 & K2 & K3).
  exists (positive_or (Cfg.sampleRate (env_config env)) 16000%float),
         (positive_or (Cfg.chunkSizeSamples (env_config env)) 800%float),
         {| Opts.apiKey := nullish (option_map trim (env_apiKey env)) "";
            Opts.sampleRate :=
              positive_or (Cfg.sampleRate (env_config env)) 16000%float;
            Opts.encoding := Some (Cfg.encoding (env_config env));
            Opts.formatTurns := Some (Cfg.formatTurns (env_config env));
            Opts.endOfTurnConfidenceThreshold :=
              Some (Cfg.endOfTurnConfidenceThreshold (env_config env));
            Opts.minEndOfTurnSilenceMs :=
              Some (Cfg.minEndOfTurnSilenceMs (env_config env));
            Opts.maxTurnSilenceMs := Some (Cfg.maxTurnSilenceMs (env_config env));
            Opts.keytermsPrompt := env_keyterms env |}.
  do 6 (split; [assumption|]).
  unfold start. run_act. rewrite Hrun, (eqb_empty_false _ Hkey).
  set (opts := Opts.Build _ _ _ _ _ _ _ _).
  rewrite begin_session_run. cbn [fst snd].
  set (s1 := set_unsubAai true _).
  destruct (connect (env_connect env) (onEvent (new_client opts)))
    as [[msg|] c']; cbn [fst snd].
  - callbacks. run_act.
    match goal with
    | |- context [cleanup ?x] =>
        pose proof (cleanup_quiet x) as Q; destruct (cleanup x) as [[[] s2] o2]
    end.
    unfold output in *. cbn [fst snd] in *.
    destruct (quiet_opens_nothing _ Q) as [QC QM].
    repeat match goal with
           | |- context [when ?b _] => destruct b; cbn [when]
           end;
      cbn [app clients_created captures_started]; rewrite QC, QM; auto.
  - destruct (env_mic env) as [|msg].
    + callbacks. run_act. unfold output. cbn [fst snd].
      repeat match goal with
             | |- context [when ?b _] => destruct b; cbn [when]
             end;
        cbn [app clients_created captures_started]; auto.
    + match goal with
      | |- context [stop ?x] =>
          pose proof (stop_quiet x) as Q; destruct (stop x) as [[[] s2] o2]
      end.
      unfold output in *. cbn [fst snd] in *.
      destruct (quiet_opens_nothing _ Q) as [QC QM].
      repeat match goal with
             | |- context [when ?b _] => destruct b; cbn [when]
             end;
        cbn [app clients_created captures_started]; rewrite QC, QM; auto.
Qed.

Lemma start_sanitizes_rate_and_chunk_size_witness :
  passes_guards (new_service true true true) demo_env
  /\ clients_created (output (start (Some demo_target) demo_env
                                (new_service true true true)))
     = [{| Opts.apiKey := "key";
           Opts.sampleRate := 16000%float;
           Opts.encoding := Some pcm_s16le;
           Opts.formatTurns := Some true;
           Opts.endOfTurnConfidenceThreshold := Some 0.5%float;
           Opts.minEndOfTurnSilenceMs := Some 160%float;
           Opts.maxTurnSilenceMs := Some 2400%float;
           Opts.keytermsPrompt := None |}]
  /\ captures_started (output (start (Some demo_target) demo_env
                                 (new_service true true true)))
     = [(800%float, 16000%float)]
  /\ exists (rate chunk : number) (opts : Opts.t),
       usable rate /\ usable chunk
       /\ clients_created (output (start (Some demo_target) demo_env
                                     (new_service true true true))) = [opts]
       /\ Opts.sampleRate opts = rate.
Proof.
  assert (G : passes_guards (new_service true true true) demo_env).
  { split; [reflexivity | vm_compute; discriminate]. }
  split; [exact G|]. split; [vm_compute; reflexivity|].
  split; [vm_compute; reflexivity|].
  destruct (start_sanitizes_rate_and_chunk_size
              (new_service true true true) (Some demo_target) demo_env G)
    as (rate & chunk & opts & _ & _ & _ & _ & Ur & Uc & C & R & _).
  exists rate, chunk, opts. auto.
Defined.

(** [start] on a running service returns at once, silently. *)
Lemma start_when_running s target env :
  running s = true -> start target env s = (tt, s, []).
Proof. intros H. unfold start. run_act. rewrite H. reflexivity. Qed.

(** What [start] leaves of the reconciler when the connection and the
    capture both succeed: [finalized] and [current] are empty,
    [pendingUnformatted] is as it was. *)
Lemma start_resets_two_fields s target env :
  passes_guards s env ->
  env_connect env = SocketOpens ->
  env_mic env = MicStarts ->
  let r := start target env s in
  finalized (state r) = ""
  /\ current (state r) = ""
  /\ pendingUnformatted (state r) = pendingUnformatted s.
Proof.
  intros [Hrun Hkey] Hc Hm. cbv zeta.
  unfold start. run_act. rewrite Hrun, (eqb_empty_false _ Hkey).
  rewrite begin_session_run. cbn [fst snd]. rewrite Hc, Hm.
  destruct (connect SocketOpens _) as [[msg|] c']; cbn [fst snd].
  - callbacks. run_act.
    match goal with
    | |- context [cleanup ?x] =>
        pose proof (cleanup_state x) as Q; destruct (cleanup x) as [[[] s2] o2]
    end.
    unfold state, output in *. cbn [fst snd] in *.
    destruct Q as (Q1 & Q2 & Q3 & _). rewrite Q1, Q2, Q3. fields s. auto.
  - callbacks. run_act. unfold state. cbn [fst snd]. fields s. auto.
Qed.

(* ===================================================================== *)
(** * Who may start a session *)
(* ===================================================================== *)

(** C9.  While the live session runs and belongs to another block or to
    nobody, a block's request to start streaming is turned down: the call
    returns false, the one thing it does is show a notice saying that a
    recording is going on, and the plugin, with the whole state of the
    service in it, is as before. *)
Theorem busy_start_is_rejected :
  forall (p : TuonScribePlugin) (svc : LiveTranscribeService)
         (opts : BlockOpts) (env : StartEnv) (fenv : FileEnv),
    mode opts = mode_stream ->
    liveTranscribe p = Some svc ->
    running svc = true ->
    streamRecordingBlockId p <> Some (blockId opts) ->
    let r := startRecordingForBlock opts env fenv p in
    value r = false
    /\ state r = p
    /\ exists message,
         output r = [Notice message]
         /\ In message ["Another scribe block is recording.";
                        "Live transcription is already running.";
                        "Recorded transcription is already running."].
Proof.
  intros p svc opts env fenv Hmode Hlive Hrun Hother. cbv zeta.
  unfold startRecordingForBlock. rewrite Hmode. run_act. rewrite Hlive.
  destruct (recorded_isRecording p || recorded_isTranscribing p).
  - cbn. repeat split. eexists. split; [reflexivity|]. cbn. auto.
  - rewrite Hrun. cbn [andb].
    destruct (streamRecordingBlockId p) as [b|] eqn:Hb; cbn [id_truthy id_differs].
    + destruct (b =? "") eqn:Hempty; cbn [negb andb].
      * cbn. repeat split. eexists. split; [reflexivity|]. cbn. auto.
      * destruct (b =? blockId opts) eqn:Hsame; cbn [negb].
        -- apply String.eqb_eq in Hsame. subst b. now elim Hother.
        -- cbn. repeat split. eexists. split; [reflexivity|]. cbn. auto.
    + cbn. repeat split. eexists. split; [reflexivity|]. cbn. auto.
Qed.

Lemma busy_start_is_rejected_witness :
  mode demo_request = mode_stream
  /\ liveTranscribe demo_plugin = Some demo_session
  /\ running demo_session = true
  /\ streamRecordingBlockId demo_plugin <> Some (blockId demo_request)
  /\ value (startRecordingForBlock demo_request demo_env demo_file_env
              demo_plugin) = false
  /\ state (startRecordingForBlock demo_request demo_env demo_file_env
              demo_plugin) = demo_plugin.
Proof.
  assert (H : streamRecordingBlockId demo_plugin <> Some (blockId demo_request))
    by discriminate.
  pose proof (busy_start_is_rejected demo_plugin demo_session demo_request
                demo_env demo_file_env eq_refl eq_refl eq_refl H)
    as (V & S & _).
  repeat split; try reflexivity; assumption.
Defined.

(** The same request in file mode is turned down as well, as long as the
    plugin has its recorded-transcription service. *)
Lemma busy_file_start_is_rejected p svc rec opts env fenv :
  mode opts = mode_file ->
  liveTranscribe p = Some svc ->
  running svc = true ->
  recordedTranscribe p = Some rec ->
  startRecordingForBlock opts env fenv p
  = (false, p,
     [Notice "Live transcription is running. Stop it before recording audio."]).
Proof.
  intros Hmode Hlive Hrun Hrec.
  unfold startRecordingForBlock, startFileRecordingForBlock. rewrite Hmode.
  run_act. rewrite Hrec. unfold live_isRunning. rewrite Hlive, Hrun.
  reflexivity.
Qed.

(** The owner itself is let through to [start], which returns at once
    because the service is running. *)
Lemma owner_restart_is_a_no_op :
  startRecordingForBlock
    {| blockId := "A"; sourcePath := "note.md"; mode := mode_stream;
       block_target := demo_target |}
    demo_env demo_file_env demo_plugin
  = (true, demo_plugin, []).
Proof. vm_compute. reflexivity. Qed.

(* ===================================================================== *)
(** * Append-only over everything but a start *)
(* ===================================================================== *)

Section Grows.

Lemma grows_ret {A} (a : A) : grows (ret a).
Proof. intros s. apply is_prefix_of_refl. Qed.

Lemma grows_tells es : grows (tells es).
Proof. intros s. apply is_prefix_of_refl. Qed.

Lemma grows_bind {A B} (m : Svc A) (f : A -> Svc B) :
  grows m -> (forall a, grows (f a)) -> grows (bind m f).
Proof.
  intros Hm Hf s. rewrite bind_run. unfold state at 1. cbn [fst snd].
  eapply is_prefix_of_trans; [apply Hm | apply Hf].
Qed.

Lemma grows_modify f :
  (forall s, finalized (f s) = finalized s) -> grows (modify f).
Proof.
  intros H s. unfold modify, state. cbn [fst snd]. rewrite H.
  apply is_prefix_of_refl.
Qed.

Lemma grows_handleAaiEvent ev : grows (handleAaiEvent ev).
Proof. intros s. apply handleAaiEvent_prefix. Qed.

Lemma grows_emit ev : grows (emit ev).
Proof.
  unfold emit. apply grows_bind; [intros s; apply is_prefix_of_refl|].
  intros s. destruct (aai s) as [c|]; [destruct (onEventHandlers c)|];
    auto using grows_handleAaiEvent, grows_ret.
Qed.

Lemma grows_emit_all evs : grows (emit_all evs).
Proof.
  induction evs as [|ev evs IH]; cbn [emit_all].
  - apply grows_ret.
  - apply grows_bind; [apply grows_emit | intros _; exact IH].
Qed.

Lemma grows_step i : is_start i = false -> grows (step i).
Proof.
  destruct i as [t e | | ev | d p | reason | | chunk | data];
    try discriminate; intros _; cbn [step].
  - intros s. apply stop_prefix.
  - apply grows_emit.
  - unfold ws_onmessage. destruct (nullish d "" =? ""); [apply grows_ret|].
    apply grows_bind; [intros s; apply is_prefix_of_refl|].
    intros s. destruct (aai s); auto using grows_emit_all, grows_ret.
  - unfold ws_onclose. apply grows_bind.
    + apply grows_modify. intros s. reflexivity.
    + intros _. apply grows_bind; [|intros _; apply grows_emit].
      destruct (trim (str_or reason "") =? "");
        auto using grows_emit, grows_ret.
  - apply grows_emit.
  - unfold onPcm16Chunk. apply grows_bind; [intros s; apply is_prefix_of_refl|].
    intros s. destruct (aai s); auto using grows_tells, grows_ret.
  - unfold onAudioFrame. apply grows_bind; [intros s; apply is_prefix_of_refl|].
    intros s. apply grows_tells.
Qed.

(** Whatever reaches the service between two starts, stops included,
    leaves the old [finalized] a prefix of the new one. *)
Lemma session_inputs_only_append inputs :
  Forall (fun i => is_start i = false) inputs -> grows (run inputs).
Proof.
  induction 1 as [|i inputs Hi _ IH]; cbn [run].
  - apply grows_ret.
  - apply grows_bind; [now apply grows_step | intros _; exact IH].
Qed.

End Grows.

(* ===================================================================== *)
(** * Events are only handled with the commit handler installed *)
(* ===================================================================== *)

Section Wired.

Variable P : LiveTranscribeService -> Prop.

Lemma keeps_ret {A} (a : A) : keeps P (ret a).
Proof. intros s H. exact H. Qed.

Lemma keeps_tells es : keeps P (tells es).
Proof. intros s H. exact H. Qed.

Lemma keeps_bind {A B} (m : Svc A) (f : A -> Svc B) :
  keeps P m -> (forall a, keeps P (f a)) -> keeps P (bind m f).
Proof.
  intros Hm Hf s H. rewrite bind_run. unfold state at 1. cbn [fst snd].
  apply Hf, Hm, H.
Qed.

End Wired.

Lemma wired_flush : keeps wired flushPendingUnformatted.
Proof.
  intros s H. destruct (string_dec (tail_of s) "") as [E|E].
  - now rewrite (flush_blank s E).
  - rewrite (flush_tail s E). exact H.
Qed.

Lemma wired_without_channel s : aai s = None -> wired s.
Proof. intros H. unfold wired. now rewrite H. Qed.

Lemma wired_stop : keeps wired stop.
Proof.
  intros s H. destruct (running s) eqn:R.
  - destruct (stop_running s R) as (_ & _ & _ & _ & A & _).
    now apply wired_without_channel.
  - now rewrite (stop_idle s R).
Qed.

Lemma wired_handleAaiEvent ev : keeps wired (handleAaiEvent ev).
Proof.
  intros s H. destruct ev as [id | text [|] eot fmt | | message].
  - exact H.
  - rewrite update_final. exact H.
  - rewrite update_partial. exact H.
  - now apply wired_flush.
  - rewrite error_event. unfold state at 1. cbn [fst snd].
    destruct (includes "not authorized" (toLowerCase message)).
    + now apply wired_stop.
    + exact H.
Qed.

Lemma wired_emit ev : keeps wired (emit ev).
Proof.
  unfold emit. apply keeps_bind; [intros s H; exact H|].
  intros s. destruct (aai s) as [c|]; [destruct (onEventHandlers c)|];
    auto using wired_handleAaiEvent, keeps_ret.
Qed.

Lemma wired_emit_all evs : keeps wired (emit_all evs).
Proof.
  induction evs as [|ev evs IH]; cbn [emit_all].
  - apply keeps_ret.
  - apply keeps_bind; [apply wired_emit | intros _; exact IH].
Qed.

Lemma wired_start target env : keeps wired (start target env).
Proof.
  intros s H. unfold start. run_act.
  destruct (running s) eqn:Hrun; [exact H|].
  destruct (nullish (option_map trim (env_apiKey env)) "" =? ""); [exact H|].
  rewrite begin_session_run. cbn [fst snd].
  destruct (connect (env_connect env) _) as [[msg|] c']; cbn [fst snd].
  - callbacks. run_act.
    match goal with
    | |- context [cleanup ?x] =>
        pose proof (cleanup_state x) as Q; destruct (cleanup x) as [[[] s2] o2]
    end.
    unfold state in *. cbn [fst snd] in *.
    apply wired_without_channel. tauto.
  - destruct (env_mic env) as [|msg].
    + callbacks. run_act. unfold state. cbn [fst snd].
      unfold wired. cbn. intros _. discriminate.
    + match goal with
      | |- context [stop ?x] =>
          pose proof (wired_stop x) as Q; destruct (stop x) as [[[] s2] o2]
      end.
      unfold state in *. cbn [fst snd] in *.
      apply Q. unfold wired. cbn. intros _. discriminate.
Qed.

Lemma wired_step i : keeps wired (step i).
Proof.
  destruct i as [t e | | ev | d p | reason | | chunk | data]; cbn [step].
  - apply wired_start.
  - apply wired_stop.
  - apply wired_emit.
  - unfold ws_onmessage. destruct (nullish d "" =? ""); [apply keeps_ret|].
    apply keeps_bind; [intros s H; exact H|].
    intros s. destruct (aai s); auto using wired_emit_all, keeps_ret.
  - unfold ws_onclose. apply keeps_bind.
    + intros s H. unfold modify, state. cbn [fst snd].
      unfold wired in *. cbn. destruct (aai s) as [c|]; [|exact I].
      cbn. destruct (ws c); exact H.
    + intros _. apply keeps_bind; [|intros _; apply wired_emit].
      destruct (trim (str_or reason "") =? "");
        auto using wired_emit, keeps_ret.
  - apply wired_emit.
  - unfold onPcm16Chunk. apply keeps_bind; [intros s H; exact H|].
    intros s. destruct (aai s); auto using keeps_tells, keeps_ret.
  - unfold onAudioFrame. apply keeps_bind; [intros s H; exact H|].
    intros s. apply keeps_tells.
Qed.

Lemma wired_run inputs : keeps wired (run inputs).
Proof.
  induction inputs as [|i inputs IH]; cbn [run].
  - apply keeps_ret.
  - apply keeps_bind; [apply wired_step | intros _; exact IH].
Qed.

Lemma reachable_wired s : reachable s -> wired s.
Proof.
  intros (a & b & c & inputs & ->). apply wired_run. exact I.
Qed.

(** In a state the service can be in, a final update that the channel
    emits and the service handles is committed exactly once, as received:
    the handler asked for in C1 is there whenever an event is handled. *)
Lemma emitted_final_update_commits_once s c text eot fmt :
  reachable s ->
  aai s = Some c ->
  onEventHandlers c = true ->
  exists h,
    insertFinalHandler s = Some h
    /\ commits (output (emit (transcript_update text true eot fmt) s))
       = [(h, text)].
Proof.
  intros Hr Ha Hc. pose proof (reachable_wired s Hr) as W.
  unfold wired in W. rewrite Ha in W. specialize (W Hc).
  destruct (insertFinalHandler s) as [h|] eqn:Hh; [|contradiction].
  exists h. split; [reflexivity|].
  unfold emit. run_act. rewrite Ha, Hc.
  destruct (update_commits s text true eot fmt) as [_ C].
  destruct (handleAaiEvent (transcript_update text true eot fmt) s)
    as [[[] s1] o1].
  unfold output in *. cbn [fst snd app] in *. now rewrite C, Hh.
Qed.

(* ===================================================================== *)
(** * The scenarios of the specification *)
(* ===================================================================== *)

Example scenario_partial_then_final :
  commits (output (handleAll [transcript_update "hello" false None None;
                              transcript_update "hello world" true None None]
                     demo_session))
  = [(TargetOnFinalText 1, "hello world")]
  /\ partials (output (handleAll [transcript_update "hello" false None None;
                                  transcript_update "hello world" true None None]
                         demo_session))
     = [(2, "hello"); (2, "")]
  /\ finalized (state (handleAll [transcript_update "hello" false None None;
                                  transcript_update "hello world" true None None]
                         demo_session))
     = "hello world ".
Proof. vm_compute. repeat split. Qed.

Example scenario_two_finals :
  commits (output (handleAll [transcript_update "a" true None None;
                              transcript_update "b" true None None]
                     demo_session))
  = [(TargetOnFinalText 1, "a"); (TargetOnFinalText 1, "b")]
  /\ finalized (state (handleAll [transcript_update "a" true None None;
                                  transcript_update "b" true None None]
                         demo_session))
     = "a b ".
Proof. vm_compute. split; reflexivity. Qed.

Example scenario_start_twice :
  start (Some demo_target) demo_env demo_session = (tt, demo_session, []).
Proof. vm_compute. reflexivity. Qed.

Example scenario_auth_error_then_audio :
  running (state (run [Event (error "Not Authorized: token expired")]
                    demo_session)) = false
  /\ output (run [Pcm16Chunk [Byte.x00]]
               (state (run [Event (error "Not Authorized: token expired")]
                         demo_session))) = []
  /\ output (run [Pcm16Chunk [Byte.x00]] demo_session)
     = [WsSendAudio [Byte.x00]].
Proof. vm_compute. repeat split. Qed.

(* ===================================================================== *)
(** * Trimming twice is trimming once *)
(* ===================================================================== *)

Lemma string_rev_append (a b : string) :
  string_rev (a ++ b) = (string_rev b ++ string_rev a)%string.
Proof.
  induction a as [|c a IH]; cbn.
  - now rewrite append_empty_r.
  - now rewrite IH, append_assoc.
Qed.

Lemma string_rev_involutive (s : string) : string_rev (string_rev s) = s.
Proof.
  induction s as [|c s IH]; [reflexivity|].
  cbn. now rewrite string_rev_append, IH.
Qed.

Lemma length_append (a b : string) :
  String.length (a ++ b) = String.length a + String.length b.
Proof. induction a as [|c a IH]; cbn; [reflexivity | now rewrite IH]. Qed.

Lemma length_string_rev (s : string) :
  String.length (string_rev s) = String.length s.
Proof.
  induction s as [|c s IH]; [reflexivity|].
  cbn. rewrite length_append, IH. cbn. lia.
Qed.

Lemma drop_prefix_split (p s r : string) :
  drop_prefix p s = Some r <-> s = (p ++ r)%string.
Proof.
  revert s. induction p as [|a p IH]; intros s; cbn.
  - split; [now intros [= ->] | now intros ->].
  - destruct s as [|b s]; [split; discriminate|].
    destruct (Ascii.eqb_spec a b) as [->|Hab].
    + rewrite IH. split; [now intros -> | now intros [= ->]].
    + split; [discriminate | intros [= ? ?]; congruence].
Qed.

Lemma strip_one_some table s r :
  Forall (fun w => w <> "") table ->
  strip_one table s = Some r ->
  exists w, In w table /\ w <> "" /\ s = (w ++ r)%string.
Proof.
  induction 1 as [|w t Hw Ht IH]; cbn; [discriminate|].
  destruct (drop_prefix w s) as [r'|] eqn:D.
  - intros [= ->]. exists w. apply drop_prefix_split in D. auto.
  - intros H. destruct (IH H) as (w' & Hin & Hne & Hs). exists w'. auto.
Qed.

Lemma strip_one_none table s w r :
  strip_one table s = None -> In w table -> s <> (w ++ r)%string.
Proof.
  induction table as [|w' t IH]; cbn; [tauto|].
  destruct (drop_prefix w' s) as [r'|] eqn:D; [discriminate|].
  intros H [->|Hin] Hs.
  - apply drop_prefix_split in Hs. congruence.
  - exact (IH H Hin Hs).
Qed.

Lemma strip_one_shorter table s r :
  Forall (fun w => w <> "") table ->
  strip_one table s = Some r -> String.length r < String.length s.
Proof.
  intros T H. destruct (strip_one_some _ _ _ T H) as (w & _ & Hne & ->).
  rewrite length_append. destruct w; [contradiction|]. cbn. lia.
Qed.

Lemma strip_leading_stops table fuel :
  Forall (fun w => w <> "") table ->
  forall s,
    String.length s <= fuel ->
    strip_one table (strip_leading table fuel s) = None.
Proof.
  intros T. induction fuel as [|fuel IH]; intros s Hlen; cbn.
  - destruct s; [|cbn in Hlen; lia].
    destruct (strip_one table "") as [r|] eqn:E; [|reflexivity].
    apply (strip_one_shorter _ _ _ T) in E. cbn in E. lia.
  - destruct (strip_one table s) as [r|] eqn:E; [|exact E].
    apply IH. apply (strip_one_shorter _ _ _ T) in E. lia.
Qed.

Lemma strip_leading_nothing table fuel s :
  strip_one table s = None -> strip_leading table fuel s = s.
Proof. intros H. destruct fuel; cbn; [reflexivity | now rewrite H]. Qed.

Lemma strip_leading_suffix table fuel :
  Forall (fun w => w <> "") table ->
  forall s, exists p, s = (p ++ strip_leading table fuel s)%string.
Proof.
  intros T. induction fuel as [|fuel IH]; intros s; cbn.
  - now exists "".
  - destruct (strip_one table s) as [r|] eqn:E; [|now exists ""].
    destruct (strip_one_some _ _ _ T E) as (w & _ & _ & ->).
    destruct (IH r) as [p Hp]. exists (w ++ p)%string.
    now rewrite append_assoc, <- Hp.
Qed.

Lemma whitespace_nonempty : Forall (fun w => w <> "") whitespace.
Proof. unfold whitespace. cbn. repeat constructor; discriminate. Qed.

Lemma whitespace_rev_nonempty :
  Forall (fun w => w <> "") (map string_rev whitespace).
Proof. unfold whitespace. cbn. repeat constructor; discriminate. Qed.

Lemma trimStart_clean s : strip_one whitespace (trimStart s) = None.
Proof. apply strip_leading_stops; [apply whitespace_nonempty | lia]. Qed.

Lemma trimEnd_prefix s : exists t, s = (trimEnd s ++ t)%string.
Proof.
  unfold trimEnd.
  destruct (strip_leading_suffix (map string_rev whitespace)
              (String.length s) whitespace_rev_nonempty (string_rev s)) as [p Hp].
  exists (string_rev p).
  rewrite <- string_rev_append, <- Hp. symmetry. apply string_rev_involutive.
Qed.

Lemma trimEnd_keeps_clean s :
  strip_one whitespace s = None -> strip_one whitespace (trimEnd s) = None.
Proof.
  intros H. destruct (strip_one whitespace (trimEnd s)) as [r|] eqn:E; [|reflexivity].
  destruct (strip_one_some _ _ _ whitespace_nonempty E) as (w & Hin & _ & Hw).
  destruct (trimEnd_prefix s) as [t Ht].
  exfalso. apply (strip_one_none whitespace s w (r ++ t) H Hin).
  rewrite Ht at 1. now rewrite Hw, append_assoc.
Qed.

Lemma trimEnd_idempotent s : trimEnd (trimEnd s) = trimEnd s.
Proof.
  unfold trimEnd at 1.
  assert (C : strip_one (map string_rev whitespace) (string_rev (trimEnd s)) = None).
  { unfold trimEnd. rewrite string_rev_involutive.
    apply strip_leading_stops; [apply whitespace_rev_nonempty|].
    rewrite length_string_rev. lia. }
  rewrite (strip_leading_nothing _ _ _ C). apply string_rev_involutive.
Qed.

Lemma trim_idempotent s : trim (trim s) = trim s.
Proof.
  unfold trim at 1.
  assert (C : strip_one whitespace (trim s) = None).
  { unfold trim. apply trimEnd_keeps_clean, trimStart_clean. }
  unfold trimStart. rewrite (strip_leading_nothing _ _ _ C).
  unfold trim. apply trimEnd_idempotent.
Qed.

(* ===================================================================== *)
(** * The tear-down in full *)
(* ===================================================================== *)

Lemma cleanup_run s :
  cleanup s
  = (tt,
     set_mic None
       (set_aai None
          (set_insertPreviewHandler None
             (set_insertPartialHandler None
                (set_insertFinalHandler None
                   (set_unsubAai false
                      (set_aai (if unsubAai s
                                then option_map unsubscribe (aai s)
                                else aai s) s)))))),
     partial_calls (insertPartialHandler s) ""
       ++ preview_calls (insertPreviewHandler s) ""
       ++ match (if unsubAai s then option_map unsubscribe (aai s) else aai s) with
          | Some c => snd (terminate c)
          | None => []
          end
       ++ match mic s with Some _ => [MicStop] | None => [] end
       ++ when (opt_onStatusText s) (CallOnStatusText "")).
Proof.
  fields s. unfold cleanup. callbacks. run_act. cbn.
  rewrite ?app_nil_r, <- ?app_assoc. reflexivity.
Qed.

Lemma stop_run s :
  running s = true ->
  stop s
  = (tt,
     state (cleanup (set_running false (state (flushPendingUnformatted s)))),
     output (flushPendingUnformatted s)
       ++ when (opt_onRunningChange (state (flushPendingUnformatted s)))
            (CallOnRunningChange false)
       ++ when (opt_onStatusText (state (flushPendingUnformatted s)))
            (CallOnStatusText "Stopping…")
       ++ output (cleanup (set_running false (state (flushPendingUnformatted s))))
       ++ [Notice "Live transcription stopped."]).
Proof.
  intros H. unfold stop. run_act. rewrite H. cbn [negb].
  destruct (flushPendingUnformatted s) as [[[] s1] o1].
  callbacks. run_act.
  unfold state, output. cbn [fst snd].
  destruct (cleanup (set_running false s1)) as [[[] s2] o2].
  cbn [fst snd]. rewrite ?app_nil_r, <- ?app_assoc. reflexivity.
Qed.

(** What the flush leaves alone. *)
Lemma flush_frame s :
  let s' := state (flushPendingUnformatted s) in
  opt_onStatusText s' = opt_onStatusText s
  /\ opt_onRunningChange s' = opt_onRunningChange s
  /\ opt_onAudioFrame s' = opt_onAudioFrame s
  /\ mic s' = mic s
  /\ aai s' = aai s
  /\ unsubAai s' = unsubAai s
  /\ running s' = running s
  /\ insertFinalHandler s' = insertFinalHandler s
  /\ insertPartialHandler s' = insertPartialHandler s
  /\ insertPreviewHandler s' = insertPreviewHandler s.
Proof.
  cbv zeta. destruct (string_dec (tail_of s) "") as [E|E].
  - rewrite (flush_blank s E). repeat split.
  - rewrite (flush_tail s E). repeat split.
Qed.

(** A [stop] of a running service tears everything down and leaves no
    text behind. *)
Lemma stop_tears_down s :
  running s = true ->
  let s' := state (stop s) in
  running s' = false
  /\ aai s' = None
  /\ mic s' = None
  /\ unsubAai s' = false
  /\ insertFinalHandler s' = None
  /\ insertPartialHandler s' = None
  /\ insertPreviewHandler s' = None
  /\ tail_of s' = "".
Proof.
  intros H. cbv zeta. rewrite (stop_run s H). unfold state at 1. cbn [fst snd].
  pose proof (flush_leaves_no_tail s) as T.
  destruct (flushPendingUnformatted s) as [[[] s1] o1].
  unfold state in *. cbn [fst snd] in *.
  rewrite cleanup_run. cbn [fst snd].
  fields s1. cbn in *. repeat split; auto.
Qed.

Lemma settled_idle s :
  running s = false ->
  settled s
  <-> aai s = None /\ mic s = None /\ unsubAai s = false
      /\ insertFinalHandler s = None /\ insertPartialHandler s = None
      /\ insertPreviewHandler s = None /\ tail_of s = "".
Proof. intros H. unfold settled. rewrite H. tauto. Qed.

Lemma settled_running s :
  running s = true ->
  settled s
  <-> (exists c, aai s = Some c /\ onEventHandlers c = true)
      /\ mic s <> None /\ insertFinalHandler s <> None /\ unsubAai s = true.
Proof. intros H. unfold settled. rewrite H. tauto. Qed.

Lemma settled_stop : keeps settled stop.
Proof.
  intros s H. destruct (running s) eqn:R.
  - pose proof (stop_tears_down s R) as T. cbv zeta in T.
    destruct T as (R' & T). apply (settled_idle _ R'). exact T.
  - now rewrite (stop_idle s R).
Qed.

Lemma settled_flush : keeps settled flushPendingUnformatted.
Proof.
  intros s H. destruct (string_dec (tail_of s) "") as [E|E].
  - now rewrite (flush_blank s E).
  - rewrite (flush_tail s E). unfold state. cbn [fst snd].
    unfold settled in *. fields s. cbn in *.
    destruct fRun; [exact H|]. exfalso. apply E. tauto.
Qed.

Lemma settled_handle_running ev s :
  running s = true -> settled s -> settled (state (handleAaiEvent ev s)).
Proof.
  intros R H. destruct ev as [id | text [|] eot fmt | | message].
  - exact H.
  - rewrite update_final. unfold state. cbn [fst snd].
    unfold settled in *. fields s. cbn in *. subst. exact H.
  - rewrite update_partial. unfold state. cbn [fst snd].
    unfold settled in *. fields s. cbn in *. subst. exact H.
  - now apply settled_flush.
  - rewrite error_event. unfold state at 1. cbn [fst snd].
    destruct (includes "not authorized" (toLowerCase message)).
    + now apply settled_stop.
    + exact H.
Qed.

Lemma settled_emit ev : keeps settled (emit ev).
Proof.
  intros s H. unfold emit. run_act.
  destruct (aai s) as [c|] eqn:A; [|exact H].
  destruct (onEventHandlers c); [|exact H].
  destruct (running s) eqn:R.
  - pose proof (settled_handle_running ev s R H) as K.
    destruct (handleAaiEvent ev s) as [[[] s1] o1]. exact K.
  - apply (settled_idle _ R) in H. destruct H as (A' & _). congruence.
Qed.

Lemma settled_emit_all evs : keeps settled (emit_all evs).
Proof.
  induction evs as [|ev evs IH]; cbn [emit_all].
  - apply keeps_ret.
  - apply keeps_bind; [apply settled_emit | intros _; exact IH].
Qed.

(* ===================================================================== *)
(** * A service is set up in full or torn down in full *)
(* ===================================================================== *)

Lemma connect_keeps_handlers o c :
  onEventHandlers (snd (connect o c)) = onEventHandlers c.
Proof.
  unfold connect. destruct (trim (apiKey c) =? ""); [reflexivity|].
  destruct (ws c) as [[| | |]|], o; reflexivity.
Qed.

Lemma settled_start target env : keeps settled (start target env).
Proof.
  intros s H. unfold start. run_act.
  destruct (running s) eqn:Hrun; [exact H|].
  destruct (nullish (option_map trim (env_apiKey env)) "" =? ""); [exact H|].
  apply (settled_idle _ Hrun) in H. destruct H as (_ & _ & _ & _ & _ & _ & T).
  rewrite begin_session_run. cbn [fst snd].
  match goal with
  | |- context [connect ?o ?c] =>
      pose proof (connect_keeps_handlers o c) as K;
      destruct (connect o c) as [[msg|] c']
  end; cbn [fst snd] in *.
  - callbacks. run_act. rewrite cleanup_run.
    unfold state. cbn [fst snd].
    unfold settled, tail_of in *. fields s. cbn in *.
    repeat split; auto.
    destruct (fPend =? ""); [apply trim_empty | exact T].
  - destruct (env_mic env) as [|msg].
    + callbacks. run_act. unfold state. cbn [fst snd].
      unfold settled. fields s. cbn in *.
      repeat split; try discriminate. exists c'. auto.
    + match goal with
      | |- context [stop ?x] =>
          assert (R : running x = true) by (fields s; reflexivity);
          pose proof (stop_tears_down x R) as Q; cbv zeta in Q;
          destruct (stop x) as [[[] s2] o2]
      end.
      unfold state in *. cbn [fst snd] in *.
      destruct Q as (R' & Q). apply (settled_idle _ R'). exact Q.
Qed.

Lemma settled_step i : keeps settled (step i).
Proof.
  destruct i as [t e | | ev | d p | reason | | chunk | data]; cbn [step].
  - apply settled_start.
  - apply settled_stop.
  - apply settled_emit.
  - unfold ws_onmessage. destruct (nullish d "" =? ""); [apply keeps_ret|].
    apply keeps_bind; [intros s H; exact H|].
    intros s. destruct (aai s); auto using settled_emit_all, keeps_ret.
  - unfold ws_onclose. apply keeps_bind.
    + intros s H. unfold modify, state. cbn [fst snd].
      unfold settled, tail_of in *. fields s. cbn in *.
      destruct fRun.
      * destruct H as ((c & A & E) & H). split; [|exact H].
        subst fAai. cbn. destruct (ws c); eexists; split; try reflexivity; exact E.
      * destruct H as (A & H). subst fAai. cbn. auto.
    + intros _. apply keeps_bind; [|intros _; apply settled_emit].
      destruct (trim (str_or reason "") =? "");
        auto using settled_emit, keeps_ret.
  - apply settled_emit.
  - unfold onPcm16Chunk. apply keeps_bind; [intros s H; exact H|].
    intros s. destruct (aai s); auto using keeps_tells, keeps_ret.
  - unfold onAudioFrame. apply keeps_bind; [intros s H; exact H|].
    intros s. apply keeps_tells.
Qed.

Lemma settled_run inputs : keeps settled (run inputs).
Proof.
  induction inputs as [|i inputs IH]; cbn [run].
  - apply keeps_ret.
  - apply keeps_bind; [apply settled_step | intros _; exact IH].
Qed.

Lemma settled_toggle env : keeps settled (toggle env).
Proof.
  unfold toggle. apply keeps_bind; [intros s H; exact H|].
  intros s. destruct (running s); [apply settled_stop | apply settled_start].
Qed.

Lemma settled_new_service a b c : settled (new_service a b c).
Proof. unfold settled, tail_of. cbn. repeat split. Qed.

(** X1.  Whatever reaches a service after its construction, it is either
    set up in full or torn down in full: while it runs it holds a client
    on which its event handler is registered, a capture handle and a commit
    handler; while it does not run it holds no client, no capture and no
    handler, and no text is left for a flush to commit. *)
Theorem reachable_service_is_settled :
  forall s : LiveTranscribeService, reachable s -> settled s.
Proof.
  intros s (a & b & c & inputs & ->).
  apply settled_run, settled_new_service.
Qed.

Lemma reachable_service_is_settled_witness :
  reachable demo_session /\ settled demo_session.
Proof.
  assert (R : reachable demo_session).
  { exists true, true, true, [DoStart (Some demo_target) demo_env].
    vm_compute. reflexivity. }
  split; [exact R | exact (reachable_service_is_settled demo_session R)].
Defined.

(* ===================================================================== *)
(** * What a stop and a start leave behind *)
(* ===================================================================== *)

Lemma running_changes_app a b :
  running_changes (a ++ b) = running_changes a ++ running_changes b.
Proof.
  induction a as [|e a IH]; [reflexivity|].
  destruct e; cbn; rewrite ?IH; reflexivity.
Qed.

Lemma running_changes_final h t : running_changes (final_calls h t) = [].
Proof. now destruct h. Qed.

Lemma running_changes_partial h t : running_changes (partial_calls h t) = [].
Proof. now destruct h. Qed.

Lemma running_changes_preview h t : running_changes (preview_calls h t) = [].
Proof. now destruct h. Qed.

Lemma running_changes_terminate c : running_changes (snd (terminate c)) = [].
Proof. unfold terminate. destruct (ws c) as [[]|]; reflexivity. Qed.

Lemma running_changes_flush s :
  running_changes (output (flushPendingUnformatted s)) = [].
Proof.
  destruct (string_dec (tail_of s) "") as [E|E].
  - now rewrite (flush_blank s E).
  - rewrite (flush_tail s E). unfold output. cbn [snd].
    now rewrite running_changes_app, running_changes_final,
      running_changes_partial.
Qed.

Lemma running_changes_cleanup s :
  running_changes (output (cleanup s)) = [].
Proof.
  rewrite cleanup_run. unfold output. cbn [snd].
  rewrite !running_changes_app, running_changes_partial,
    running_changes_preview.
  destruct (if unsubAai s then option_map unsubscribe (aai s) else aai s);
    rewrite ?running_changes_terminate;
    destruct (mic s), (opt_onStatusText s); reflexivity.
Qed.

Lemma running_changes_stop s :
  running s = true ->
  running_changes (output (stop s))
  = if opt_onRunningChange s then [false] else [].
Proof.
  intros R. rewrite (stop_run s R). unfold output at 1. cbn [snd].
  destruct (flush_frame s) as (_ & O & _).
  rewrite !running_changes_app, running_changes_flush,
    running_changes_cleanup, O.
  destruct (opt_onRunningChange s),
    (opt_onStatusText (state (flushPendingUnformatted s))); reflexivity.
Qed.




(** X3.  A second [stop] does nothing: whatever state the first one was
    called in, the state it leaves is one in which [stop] returns at once,
    with no callback, no notice and no change. *)
Theorem stop_twice_is_stop_once :
  forall s : LiveTranscribeService,
    stop (state (stop s)) = (tt, state (stop s), []).
Proof.
  intros s. apply stop_idle. destruct (running s) eqn:R.
  - now destruct (stop_tears_down s R) as (R' & _).
  - now rewrite (stop_idle s R).
Qed.

Lemma connect_fresh opts o :
  trim (Opts.apiKey opts) <> "" ->
  connect o (onEvent (new_client opts))
  = match o with
    | TokenFails message => (Some message, onEvent (new_client opts))
    | SocketFails =>
        (Some "Failed to connect to AssemblyAI WebSocket.",
         set_ws (Some CLOSED) (onEvent (new_client opts)))
    | SocketOpens => (None, set_ws (Some OPEN) (onEvent (new_client opts)))
    end.
Proof.
  intros H. unfold connect. cbn [apiKey onEvent new_client set_onEventHandlers ws].
  now rewrite (eqb_empty_false _ H).
Qed.

(** The key [start] hands to the client is trimmed and not blank. *)
Lemma guarded_key_is_trimmed s env :
  passes_guards s env ->
  trim (nullish (option_map trim (env_apiKey env)) "") <> "".
Proof.
  intros [_ H]. destruct (env_apiKey env) as [k|]; cbn in *.
  - now rewrite trim_idempotent.
  - contradiction.
Qed.

(** X4.  Without a key, or with a key of white space only, [start] on an
    idle service shows one notice and does nothing else: the service is as
    it was, no client is created and no capture is started. *)
Theorem start_without_key_only_shows_notice :
  forall (s : LiveTranscribeService) (target : option Target) (env : StartEnv),
    running s = false ->
    (env_apiKey env = None
     \/ exists k, env_apiKey env = Some k /\ trim k = "") ->
    start target env s
    = (tt, s, [Notice "Missing AssemblyAI API key. Set it in plugin settings."]).
Proof.
  intros s target env R K. unfold start. run_act. rewrite R.
  assert (E : nullish (option_map trim (env_apiKey env)) "" = "").
  { destruct K as [-> | (k & -> & T)]; [reflexivity | exact T]. }
  rewrite E. reflexivity.
Qed.

Lemma start_without_key_only_shows_notice_witness :
  running (new_service true true true) = false
  /\ start None {| env_apiKey := Some "  ";
                   env_config := demo_config;
                   env_keyterms := None;
                   env_connect := SocketOpens;
                   env_mic := MicStarts |} (new_service true true true)
     = (tt, new_service true true true,
        [Notice "Missing AssemblyAI API key. Set it in plugin settings."]).
Proof.
  split; [reflexivity|].
  apply start_without_key_only_shows_notice; [reflexivity|].
  right. exists "  ". split; reflexivity.
Defined.



(** The state in which [start] awaits the capture: the session has begun
    and the socket is open. *)
Lemma start_until_capture s target env :
  passes_guards s env ->
  env_connect env = SocketOpens ->
  exists opts s1 o1,
    Opts.apiKey opts = nullish (option_map trim (env_apiKey env)) ""
    /\ Opts.formatTurns opts = Some (Cfg.formatTurns (env_config env))
    /\ fst (fst (begin_session target opts s)) = tt
    /\ s1 = set_aai (Some (set_ws (Some OPEN) (onEvent (new_client opts))))
              (state (begin_session target opts s))
    /\ o1 = output (begin_session target opts s)
            ++ [StartMicPcm16Capture
                  (positive_or (Cfg.chunkSizeSamples (env_config env)) 800%float)
                  (positive_or (Cfg.sampleRate (env_config env)) 16000%float)]
    /\ start target env s
       = match env_mic env with
         | MicFails msg =>
             (tt, state (stop s1),
              o1 ++ Notice ("Microphone failed: " ++ msg) :: output (stop s1))
         | MicStarts =>
             (tt,
              set_mic
                (Some {| mic_chunkSizeSamples :=
                           positive_or (Cfg.chunkSizeSamples (env_config env))
                             800%float;
                         mic_sampleRate :=
                           positive_or (Cfg.sampleRate (env_config env))
                             16000%float |}) s1,
              o1 ++ when (opt_onStatusText s) (CallOnStatusText "Listening…")
                 ++ [Notice "Live transcription started."])
         end.
Proof.
  intros G C.
  pose proof (guarded_key_is_trimmed s env G) as K. destruct G as [R G].
  unfold start. run_act. rewrite R, (eqb_empty_false _ G).
  set (opts := Opts.Build _ _ _ _ _ _ _ _).
  exists opts. do 2 eexists.
  split; [reflexivity|]. split; [reflexivity|].
  split; [now rewrite begin_session_run|].
  split; [reflexivity|]. split; [reflexivity|].
  rewrite begin_session_run. cbn [fst snd].
  rewrite (connect_fresh opts _ K), C. cbn [fst snd].
  unfold state, output. cbn [fst snd].
  destruct (env_mic env) as [|msg].
  - callbacks. run_act. fields s. cbn [opt_onStatusText set_aai set_unsubAai
      set_running set_current set_finalized set_insertPreviewHandler
      set_insertPartialHandler set_insertFinalHandler].
    rewrite <- !app_assoc. reflexivity.
  - match goal with
    | |- context [stop ?x] => destruct (stop x) as [[[] s2] o2]
    end.
    cbn [fst snd]. rewrite <- !app_assoc. reflexivity.
Qed.

Lemma begin_session_facts target opts s :
  let s1 := set_aai (Some (set_ws (Some OPEN) (onEvent (new_client opts))))
              (state (begin_session target opts s)) in
  running s1 = true
  /\ aai s1 = Some (set_ws (Some OPEN) (onEvent (new_client opts)))
  /\ mic s1 = mic s
  /\ opt_onRunningChange s1 = opt_onRunningChange s
  /\ insertFinalHandler s1
     = Some match target with
            | Some t => TargetOnFinalText (onFinalText t)
            | None => InsertFinalAtCursor
            end
  /\ insertPartialHandler s1
     = match target with Some t => onPartialText t | None => None end
  /\ insertPreviewHandler s1
     = match target with Some t => onPreviewText t | None => None end
  /\ running_changes (output (begin_session target opts s))
     = (if opt_onRunningChange s then [true] else []).
Proof.
  cbv zeta. rewrite begin_session_run. unfold state, output. cbn [fst snd].
  fields s. cbn. repeat split. destruct oR, oS; reflexivity.
Qed.







(* ===================================================================== *)
(** * The channel: closing the socket, reading a message *)
(* ===================================================================== *)


(** The three message types the channel knows, and everything else. *)
Lemma message_type_cases {T} (P : T -> Prop) (ty : option json) (a b c d : T) :
  P a -> P b -> P c -> P d ->
  P match ty with
    | Some (JStr "Begin") => a
    | Some (JStr "Turn") => b
    | Some (JStr "Termination") => c
    | _ => d
    end.
Proof.
  intros Ha Hb Hc Hd.
  repeat match goal with
         | |- context [match ?x with _ => _ end] => destruct x
         end; assumption.
Qed.

(** X10.  One message gives at most one event, and an event the channel
    emits is well formed: an update has text, is final only at the end of a
    turn and, when the client asked for formatted turns, only when
    formatted; an error has a message that is trimmed and not empty.  A
    message that is empty or does not parse gives no event. *)
Theorem channel_events_are_well_formed :
  forall (c : AssemblyAiRealtimeClient) (dataStr : string) (parsed : option json),
    length (handleMessageString c dataStr parsed) <= 1
    /\ Forall (well_formed c) (handleMessageString c dataStr parsed)
    /\ (dataStr = "" \/ parsed = None ->
        handleMessageString c dataStr parsed = []).
Proof.
  intros c dataStr parsed. unfold handleMessageString.
  destruct (dataStr =? "") eqn:E.
  { cbn. repeat split; auto. }
  destruct parsed as [msg|].
  2:{ cbn. repeat split; auto. }
  split; [|split].
  - apply (message_type_cases (fun l => length l <= 1));
      [cbn; auto | | cbn; auto | ].
    + cbv zeta.
      destruct (prop msg "transcript") as [[| | |t| |]|];
        try (cbn; auto; fail).
      destruct (0 <? String.length t)%nat; cbn; auto.
    + destruct (val_or _ _) as [[| | |e| |]|]; try (cbn; auto; fail).
      destruct (trim e =? ""); cbn; auto.
  - apply (message_type_cases (Forall (well_formed c))).
    + repeat constructor.
    + cbv zeta.
      destruct (prop msg "transcript") as [[| | |t| |]|]; auto.
      destruct (0 <? String.length t)%nat eqn:L; auto.
      constructor; [|constructor]. cbn. split; [|split].
      * intros ->. discriminate L.
      * intros F. apply andb_true_iff in F. now rewrite (proj1 F).
      * intros F T. apply andb_true_iff in F. destruct F as [_ F].
        rewrite T in F. cbn in F. rewrite orb_false_r in F. now rewrite F.
    + repeat constructor.
    + destruct (val_or _ _) as [[| | |e| |]|]; auto.
      destruct (trim e =? "") eqn:T; auto.
      constructor; [|constructor]. cbn. split.
      * intros H. rewrite H in T. discriminate T.
      * apply trim_idempotent.
  - intros [H|H]; [|discriminate]. subst. discriminate.
Qed.

(* ===================================================================== *)
(** * After the socket has closed *)
(* ===================================================================== *)

Lemma state_of_triple {S A} (a : A) (s : S) (o : list Effect) :
  state (a, s, o) = s.
Proof. reflexivity. Qed.

Lemma output_of_triple {S A} (a : A) (s : S) (o : list Effect) :
  output (a, s, o) = o.
Proof. reflexivity. Qed.

Lemma mute_ret {A} (a : A) : mute (ret a).
Proof. intros s. cbn. auto. Qed.

Lemma mute_bind {A B} (m : Svc A) (f : A -> Svc B) :
  mute m -> (forall a, mute (f a)) -> mute (bind m f).
Proof.
  intros Hm Hf s. rewrite bind_run, state_of_triple, output_of_triple.
  destruct (Hm s) as [Am Sm].
  destruct (Hf (value (m s)) (state (m s))) as [Af Sf].
  rewrite sent_audio_app, Sm, Sf. split; [|reflexivity].
  destruct Af as [Af|Af]; [rewrite Af; exact Am | auto].
Qed.

Lemma mute_flush : mute flushPendingUnformatted.
Proof.
  intros s. split; [|apply flush_sends_no_audio].
  left. now destruct (flush_frame s) as (_ & _ & _ & _ & A & _).
Qed.

Lemma mute_stop : mute stop.
Proof.
  intros s. destruct (running s) eqn:R.
  - destruct (stop_running s R) as (_ & _ & _ & _ & A & _ & _ & S).
    rewrite S, flush_sends_no_audio. auto.
  - rewrite (stop_idle s R). cbn. auto.
Qed.

Lemma mute_handleAaiEvent ev : mute (handleAaiEvent ev).
Proof.
  intros s. destruct ev as [id | text [|] eot fmt | | message].
  - cbn. auto.
  - rewrite update_final. unfold state, output. cbn [fst snd]. split.
    + left. now destruct s.
    + now proj.
  - rewrite update_partial. unfold state, output. cbn [fst snd]. split.
    + left. now destruct s.
    + now proj.
  - apply mute_flush.
  - rewrite error_event, state_of_triple, output_of_triple.
    destruct (includes "not authorized" (toLowerCase message)).
    + destruct (mute_stop s) as [A S]. split; [exact A|].
      rewrite sent_audio_app. cbn [sent_audio]. rewrite S.
      now destruct (opt_onStatusText s).
    + cbn. split; [auto|]. now destruct (opt_onStatusText s).
Qed.

Lemma mute_emit ev : mute (emit ev).
Proof.
  unfold emit. apply mute_bind; [intros s; cbn; auto|].
  intros s. destruct (aai s) as [c|]; [destruct (onEventHandlers c)|];
    auto using mute_handleAaiEvent, mute_ret.
Qed.

Lemma mute_emit_all evs : mute (emit_all evs).
Proof.
  induction evs as [|ev evs IH]; cbn [emit_all].
  - apply mute_ret.
  - apply mute_bind; [apply mute_emit | intros _; exact IH].
Qed.

Lemma mute_keeps_shut {A} (m : Svc A) s :
  mute m -> socket_shut s -> socket_shut (state (m s)).
Proof.
  intros Hm H. destruct (Hm s) as [[E|E] _]; unfold socket_shut in *;
    rewrite E; auto.
Qed.

(** The state [ws.onclose] runs its emits in. *)
Lemma closed_is_shut s :
  socket_shut
    (set_aai (option_map (fun c => match ws c with
                                   | Some _ => set_ws (Some CLOSED) c
                                   | None => c
                                   end) (aai s)) s).
Proof.
  unfold socket_shut. fields s. cbn. destruct fAai as [c|]; cbn; [|exact I].
  destruct (ws c) eqn:W; cbn; [discriminate | now rewrite W].
Qed.

Lemma close_emits_are_mute reason :
  mute ((if trim (str_or reason "") =? "" then ret tt
         else emit (error (trim (str_or reason "")))) ;;
        emit session_terminated).
Proof.
  apply mute_bind; [|intros _; apply mute_emit].
  destruct (trim (str_or reason "") =? ""); auto using mute_emit, mute_ret.
Qed.

Lemma modify_then {A} f (k : unit -> Svc A) s :
  bind (modify f) k s = k tt (f s).
Proof.
  unfold bind, modify. destruct (k tt (f s)) as [[a s2] o2]. reflexivity.
Qed.

Lemma ws_onclose_run reason s :
  ws_onclose reason s
  = ((if trim (str_or reason "") =? "" then ret tt
      else emit (error (trim (str_or reason "")))) ;;
     emit session_terminated)
      (set_aai (option_map (fun c => match ws c with
                                     | Some _ => set_ws (Some CLOSED) c
                                     | None => c
                                     end) (aai s)) s).
Proof. unfold ws_onclose. now rewrite modify_then. Qed.

Lemma shut_step i s :
  is_start i = false ->
  socket_shut s ->
  socket_shut (state (step i s)) /\ sent_audio (output (step i s)) = [].
Proof.
  intros Hi H.
  destruct i as [t e | | ev | d p | reason | | chunk | data];
    try discriminate; cbn [step].
  - split; [now apply mute_keeps_shut, H; apply mute_stop | apply mute_stop].
  - split; [now apply mute_keeps_shut, H; apply mute_emit | apply mute_emit].
  - assert (M : mute (ws_onmessage d p)).
    { unfold ws_onmessage. destruct (nullish d "" =? ""); [apply mute_ret|].
      apply mute_bind; [intros x; cbn; auto|].
      intros x. destruct (aai x); auto using mute_emit_all, mute_ret. }
    split; [now apply mute_keeps_shut | apply M].
  - rewrite ws_onclose_run.
    split; [apply mute_keeps_shut; [apply close_emits_are_mute | apply closed_is_shut]
           | apply close_emits_are_mute].
  - split; [now apply mute_keeps_shut, H; apply mute_emit | apply mute_emit].
  - unfold onPcm16Chunk. run_act. unfold socket_shut in H.
    destruct (aai s) as [c|] eqn:A.
    + unfold state, output, tells, sendPcm16Chunk. cbn [fst snd].
      split; [unfold socket_shut; now rewrite A|].
      destruct (ws c) as [[]|]; try reflexivity. now elim H.
    + split; [unfold socket_shut, state, ret; cbn; now rewrite A | reflexivity].
  - unfold onAudioFrame. run_act. unfold state, output. cbn [fst snd].
    split; [exact H|]. now destruct (opt_onAudioFrame s).
Qed.

Lemma shut_run inputs :
  forall s,
    Forall (fun i => is_start i = false) inputs ->
    socket_shut s ->
    sent_audio (output (run inputs s)) = [].
Proof.
  induction inputs as [|i inputs IH]; intros s Hall H.
  - reflexivity.
  - inversion Hall as [|? ? Hi Hrest]; subst.
    destruct (shut_step i s Hi H) as [H' S].
    rewrite run_cons. unfold output at 1. cbn [snd].
    now rewrite sent_audio_app, S, (IH _ Hrest H').
Qed.

(** X11.  Once the socket has closed, no audio is sent: the close itself
    sends none, and neither does anything that reaches the service
    afterwards, short of a new [start], whether or not the service went on
    running. *)
Theorem closed_socket_sends_no_audio :
  forall (s : LiveTranscribeService) (reason : string) (inputs : list Input),
    Forall (fun i => is_start i = false) inputs ->
    sent_audio (output (ws_onclose reason s)) = []
    /\ sent_audio (output (run inputs (state (ws_onclose reason s)))) = [].
Proof.
  intros s reason inputs Hall.
  rewrite ws_onclose_run. split.
  - apply close_emits_are_mute.
  - apply shut_run; [exact Hall|].
    apply mute_keeps_shut; [apply close_emits_are_mute | apply closed_is_shut].
Qed.

Lemma closed_socket_sends_no_audio_witness :
  output (run [Pcm16Chunk [Byte.x01]] demo_session) = [WsSendAudio [Byte.x01]]
  /\ running (state (ws_onclose "" demo_session)) = true
  /\ sent_audio (output (run [Pcm16Chunk [Byte.x01]]
                           (state (ws_onclose "" demo_session)))) = [].
Proof.
  split; [vm_compute; reflexivity|]. split; [vm_compute; reflexivity|].
  apply (closed_socket_sends_no_audio demo_session "" [Pcm16Chunk [Byte.x01]]).
  repeat constructor.
Defined.

Lemma flush_commits s :
  commits (output (flushPendingUnformatted s)) = tail_commits s.
Proof.
  unfold tail_commits. destruct (string_dec (tail_of s) "") as [E|E].
  - rewrite (flush_blank s E), E. reflexivity.
  - rewrite (flush_tail s E), (eqb_empty_false _ E), output_of_triple.
    now proj.
Qed.

Lemma emit_subscribed ev s c :
  aai s = Some c -> onEventHandlers c = true ->
  emit ev s = handleAaiEvent ev s.
Proof.
  intros A H. unfold emit. run_act. rewrite A, H.
  now destruct (handleAaiEvent ev s) as [[[] s1] o1].
Qed.

Lemma ret_then {A} (k : unit -> Svc A) s : bind (ret tt) k s = k tt s.
Proof.
  unfold bind, ret. destruct (k tt s) as [[a s2] o2]. reflexivity.
Qed.

(** X12.  When the socket closes while the event handler is registered,
    the tail is committed exactly as a flush commits it, whatever the close
    reason: once, trimmed, if it is not blank; and no tail is left
    afterwards. *)
Theorem socket_close_commits_tail :
  forall (s : LiveTranscribeService) (c : AssemblyAiRealtimeClient)
         (reason : string),
    aai s = Some c ->
    onEventHandlers c = true ->
    let r := ws_onclose reason s in
    tail_of (state r) = ""
    /\ commits (output r) = tail_commits s.
Proof.
  intros s c reason A H. cbv zeta. rewrite ws_onclose_run.
  set (s0 := set_aai _ s).
  assert (T0 : tail_commits s0 = tail_commits s) by (now destruct s).
  assert (A0 : exists c0, aai s0 = Some c0 /\ onEventHandlers c0 = true).
  { unfold s0. fields s. cbn in *. subst fAai. cbn.
    destruct (ws c); eexists; split; try reflexivity; exact H. }
  destruct A0 as (c0 & A0 & H0). rewrite <- T0. clearbody s0. clear T0 A H c s.
  assert (F : tail_of (state (emit session_terminated s0)) = ""
              /\ commits (output (emit session_terminated s0))
                 = tail_commits s0).
  { rewrite (emit_subscribed _ _ _ A0 H0).
    change (handleAaiEvent session_terminated) with flushPendingUnformatted.
    split; [apply flush_leaves_no_tail | apply flush_commits]. }
  destruct (trim (str_or reason "") =? "").
  { now rewrite ret_then. }
  rewrite bind_run, state_of_triple, output_of_triple.
  rewrite (emit_subscribed _ _ _ A0 H0), error_event,
    state_of_triple, output_of_triple.
  destruct (includes "not authorized" (toLowerCase _)).
  2:{ rewrite state_of_triple, output_of_triple. destruct F as [F1 F2].
      split; [exact F1|]. rewrite !commits_app, F2.
      now destruct (opt_onStatusText s0). }
  destruct (running s0) eqn:R.
  2:{ rewrite (stop_idle s0 R), state_of_triple, output_of_triple.
      destruct F as [F1 F2].
      split; [exact F1|]. rewrite !commits_app, F2.
      now destruct (opt_onStatusText s0). }
  destruct (stop_running s0 R) as (_ & _ & _ & _ & N & _ & C & _).
  destruct (stop_tears_down s0 R) as (_ & _ & _ & _ & _ & _ & _ & T).
  rewrite (emit_without_channel _ _ N), state_of_triple, output_of_triple.
  split; [exact T|].
  rewrite !commits_app. cbn [commits]. rewrite C, flush_commits, app_nil_r.
  now destruct (opt_onStatusText s0).
Qed.

Lemma socket_close_commits_tail_witness :
  commits (output (ws_onclose "not authorized"
                     (state (handleAaiEvent
                               (transcript_update " tail " false (Some true)
                                  (Some false)) demo_session))))
  = [(TargetOnFinalText 1, "tail")].
Proof.
  assert (A : exists c,
             aai (state (handleAaiEvent
                           (transcript_update " tail " false (Some true)
                              (Some false)) demo_session)) = Some c
             /\ onEventHandlers c = true).
  { vm_compute. eexists. split; reflexivity. }
  destruct A as (c & A & H).
  rewrite (proj2 (socket_close_commits_tail _ c "not authorized" A H)).
  vm_compute. reflexivity.
Defined.

(* ===================================================================== *)
(** * The plugin's record of who holds the stream *)
(* ===================================================================== *)

Lemma stop_keeps_callback s :
  opt_onRunningChange (state (stop s)) = opt_onRunningChange s.
Proof.
  destruct (running s) eqn:R; [|now rewrite (stop_idle s R)].
  rewrite (stop_run s R), state_of_triple, cleanup_run, state_of_triple.
  destruct (flush_frame s) as (_ & O & _).
  destruct (state (flushPendingUnformatted s)). exact O.
Qed.

Lemma start_keeps_callback s target env :
  opt_onRunningChange (state (start target env s)) = opt_onRunningChange s.
Proof.
  destruct (running s) eqn:R.
  { now rewrite (start_when_running s target env R). }
  destruct (string_dec (nullish (option_map trim (env_apiKey env)) "") "")
    as [K|K].
  { unfold start. run_act. now rewrite R, K. }
  assert (G : passes_guards s env) by (split; assumption).
  destruct (env_connect env) eqn:C.
  1,2: pose proof (guarded_key_is_trimmed s env G) as K';
    unfold start; run_act; rewrite R, (eqb_empty_false _ K);
    set (opts := Opts.Build _ _ _ _ _ _ _ _);
    rewrite begin_session_run; cbn [fst snd];
    rewrite (connect_fresh opts _ K'), C; cbn [fst snd];
    callbacks; run_act; rewrite cleanup_run; unfold state; cbn [fst snd];
    fields s; reflexivity.
  destruct (start_until_capture s target env G C)
    as (opts & s1 & o1 & _ & _ & _ & -> & -> & E).
  rewrite E. clear E.
  destruct (begin_session_facts target opts s) as (_ & _ & _ & O & _).
  cbv zeta in O. set (s1 := set_aai _ _) in *.
  destruct (env_mic env) as [|msg]; rewrite state_of_triple.
  - destruct s1; exact O.
  - now rewrite stop_keeps_callback.
Qed.


Lemma after_callbacks_frame out :
  forall p,
    liveTranscribe (after_callbacks out p) = liveTranscribe p
    /\ recordedTranscribe (after_callbacks out p) = recordedTranscribe p
    /\ fileRecordingBlockId (after_callbacks out p) = fileRecordingBlockId p
    /\ streamRecordingBlockId (after_callbacks out p)
       = if existsb negb (running_changes out) then None
         else streamRecordingBlockId p.
Proof.
  induction out as [|e out IH]; intros p; [cbn; auto|].
  destruct e as [| |[|]| | | | | | | | | | | |]; cbn [after_callbacks];
    try (destruct (IH p) as (A & B & C & D); cbn; auto; fail).
  destruct (IH (set_streamRecordingBlockId None p)) as (A & B & C & D).
  cbn. repeat split; auto.
  rewrite D. now destruct (existsb negb (running_changes out)).
Qed.

Lemma in_running_changes out :
  In (CallOnRunningChange false) out ->
  existsb negb (running_changes out) = true.
Proof.
  induction out as [|e out IH]; [contradiction|].
  intros [H|H].
  - subst e. reflexivity.
  - destruct e as [| |[|]| | | | | | | | | | | |]; cbn; auto.
Qed.

Section Announces.

Lemma announces_ret {A} (a : A) : announces (ret a).
Proof. intros s O. split; [exact O|]. cbn. congruence. Qed.

Lemma announces_tells es : announces (tells es).
Proof. intros s O. split; [exact O|]. cbn. congruence. Qed.

Lemma announces_get : announces get.
Proof. intros s O. split; [exact O|]. cbn. congruence. Qed.

Lemma announces_bind {A B} (m : Svc A) (f : A -> Svc B) :
  announces m -> (forall a, announces (f a)) -> announces (bind m f).
Proof.
  intros Hm Hf s O. rewrite bind_run, state_of_triple, output_of_triple.
  destruct (Hm s O) as [O1 N1].
  destruct (Hf (value (m s)) (state (m s)) O1) as [O2 N2].
  split; [exact O2|]. intros R R'. apply in_or_app.
  destruct (running (state (m s))) eqn:R1; [right | left]; auto.
Qed.

Lemma announces_stop : announces stop.
Proof.
  intros s O. split; [now rewrite stop_keeps_callback|].
  intros R _. pose proof (running_changes_stop s R) as C. rewrite O in C.
  clear - C. induction (output (stop s)) as [|e out IH]; [discriminate|].
  destruct e as [| |[|]| | | | | | | | | | | |]; cbn in *;
    try (right; auto; fail).
  - discriminate.
  - auto.
Qed.

Lemma announces_same_running {A} (m : Svc A) :
  (forall s, running (state (m s)) = running s
             /\ opt_onRunningChange (state (m s)) = opt_onRunningChange s) ->
  announces m.
Proof.
  intros H s O. destruct (H s) as [R C]. split; [congruence|].
  intros R1 R2. congruence.
Qed.

Lemma announces_flush : announces flushPendingUnformatted.
Proof.
  apply announces_same_running. intros s.
  destruct (flush_frame s) as (_ & O & _ & _ & _ & _ & R & _). auto.
Qed.

Lemma announces_handleAaiEvent ev : announces (handleAaiEvent ev).
Proof.
  destruct ev as [id | text [|] eot fmt | | message].
  - apply announces_ret.
  - apply announces_same_running. intros s. rewrite update_final.
    now destruct s.
  - apply announces_same_running. intros s. rewrite update_partial.
    now destruct s.
  - apply announces_flush.
  - intros s O. rewrite error_event, state_of_triple, output_of_triple.
    destruct (includes "not authorized" (toLowerCase message)).
    + destruct (announces_stop s O) as [O' N]. split; [exact O'|].
      intros R R'. apply in_or_app. right. right. auto.
    + rewrite state_of_triple. split; [exact O | congruence].
Qed.

Lemma announces_emit ev : announces (emit ev).
Proof.
  unfold emit. apply announces_bind; [apply announces_get|].
  intros s. destruct (aai s) as [c|]; [destruct (onEventHandlers c)|];
    auto using announces_handleAaiEvent, announces_ret.
Qed.

Lemma announces_emit_all evs : announces (emit_all evs).
Proof.
  induction evs as [|ev evs IH]; cbn [emit_all].
  - apply announces_ret.
  - apply announces_bind; [apply announces_emit | intros _; exact IH].
Qed.

Lemma announces_start target env : announces (start target env).
Proof.
  intros s O. split; [now rewrite start_keeps_callback|].
  intros R. rewrite (start_when_running s target env R), state_of_triple.
  congruence.
Qed.

Lemma announces_step i : announces (step i).
Proof.
  destruct i as [t e | | ev | d p | reason | | chunk | data]; cbn [step].
  - apply announces_start.
  - apply announces_stop.
  - apply announces_emit.
  - unfold ws_onmessage. destruct (nullish d "" =? ""); [apply announces_ret|].
    apply announces_bind; [apply announces_get|].
    intros s. destruct (aai s); auto using announces_emit_all, announces_ret.
  - unfold ws_onclose. apply announces_bind.
    + apply announces_same_running. intros s. now destruct s.
    + intros _. apply announces_bind; [|intros _; apply announces_emit].
      destruct (trim (str_or reason "") =? "");
        auto using announces_emit, announces_ret.
  - apply announces_emit.
  - unfold onPcm16Chunk. apply announces_bind; [apply announces_get|].
    intros s. destruct (aai s); auto using announces_tells, announces_ret.
  - unfold onAudioFrame. apply announces_bind; [apply announces_get|].
    intros s. apply announces_tells.
Qed.

Lemma announces_toggle env : announces (toggle env).
Proof.
  unfold toggle. apply announces_bind; [apply announces_get|].
  intros s. destruct (running s); [apply announces_stop | apply announces_start].
Qed.

End Announces.
Lemma modify_then_plugin {A} f (k : unit -> Plg A) p :
  bind (modify f) k p = k tt (f p).
Proof.
  unfold bind, modify. destruct (k tt (f p)) as [[a p2] o2]. reflexivity.
Qed.

Lemma on_live_run m p svc :
  liveTranscribe p = Some svc ->
  on_live m p
  = (tt,
     set_liveTranscribe (Some (state (m svc)))
       (after_callbacks (output (m svc)) p),
     output (m svc)).
Proof. intros H. unfold on_live. now rewrite H. Qed.

(** The path of [startRecordingForBlock] in stream mode that gets to
    [start]. *)
Lemma stream_start_run opts env p svc :
  liveTranscribe p = Some svc ->
  (modify (set_streamRecordingBlockId (Some (blockId opts))) ;;
   on_live (start (Some (block_target opts)) env) ;;
   p <- get ;;
   (if negb (live_isRunning p)
    then modify (set_streamRecordingBlockId None)
    else ret tt) ;;
   p <- get ;;
   ret (live_isRunning p)) p
  = (running (state (start (Some (block_target opts)) env svc)),
     (if running (state (start (Some (block_target opts)) env svc))
      then fun q => q
      else set_streamRecordingBlockId None)
       (set_liveTranscribe
          (Some (state (start (Some (block_target opts)) env svc)))
          (after_callbacks (output (start (Some (block_target opts)) env svc))
             (set_streamRecordingBlockId (Some (blockId opts)) p))),
     output (start (Some (block_target opts)) env svc)).
Proof.
  intros H. rewrite modify_then_plugin.
  rewrite bind_run.
  rewrite (on_live_run _ (set_streamRecordingBlockId (Some (blockId opts)) p) svc)
    by exact H.
  rewrite !state_of_triple, !output_of_triple.
  set (r0 := start (Some (block_target opts)) env svc).
  set (p1 := set_liveTranscribe _ _).
  assert (L : live_isRunning p1 = running (state r0)) by reflexivity.
  unfold bind, get, ret, modify. cbn [fst snd]. rewrite L.
  destruct (running (state r0)) eqn:R; cbn [negb fst snd].
  - unfold value, state, output. cbn [fst snd app]. rewrite L, app_nil_r.
    reflexivity.
  - assert (L' : live_isRunning (set_streamRecordingBlockId None p1) = false).
    { unfold live_isRunning. cbn. exact R. }
    unfold value, state, output. cbn [fst snd app]. rewrite L', app_nil_r.
    reflexivity.
Qed.

Ltac plugin_fields :=
  cbn [liveTranscribe recordedTranscribe streamRecordingBlockId
       fileRecordingBlockId set_liveTranscribe set_recordedTranscribe
       set_streamRecordingBlockId set_fileRecordingBlockId].

Lemma state_ret {S A} (a : A) (s : S) : state (ret a s) = s.
Proof. reflexivity. Qed.

Lemma get_then_plugin {A} (k : TuonScribePlugin -> Plg A) p :
  bind get k p = k p p.
Proof.
  unfold bind, get. destruct (k p p) as [[a p2] o2]. reflexivity.
Qed.



(** X14.  [stopStreamRecording] always ends with the live service not
    running and with no block on record as the owner of the stream. *)
Theorem stopped_stream_has_no_owner :
  forall p : TuonScribePlugin,
    let r := stopStreamRecording p in
    live_isRunning (state r) = false
    /\ streamRecordingBlockId (state r) = None
    /\ fileRecordingBlockId (state r) = fileRecordingBlockId p.
Proof.
  intros p. cbv zeta. unfold stopStreamRecording.
  rewrite bind_run, state_of_triple.
  unfold modify. cbv beta. rewrite ?state_of_triple.
  destruct (liveTranscribe p) as [svc|] eqn:L.
  - rewrite (on_live_run stop p svc L), state_of_triple.
    destruct (after_callbacks_frame (output (stop svc)) p) as (_ & _ & C & _).
    unfold live_isRunning. plugin_fields. rewrite C. repeat split.
    destruct (running svc) eqn:R.
    + now destruct (stop_tears_down svc R) as (R' & _).
    + now rewrite (stop_idle svc R).
  - unfold on_live. rewrite L, state_of_triple.
    unfold live_isRunning. cbn. rewrite L. repeat split.
Qed.

Lemma on_live_keeps_owner m p :
  announces m ->
  listens p -> owner_runs p ->
  listens (state (on_live m p)) /\ owner_runs (state (on_live m p)).
Proof.
  intros Hm Hl Ho. destruct (liveTranscribe p) as [svc|] eqn:L.
  2:{ unfold on_live. rewrite L, state_of_triple. auto. }
  rewrite (on_live_run m p svc L), state_of_triple.
  unfold listens in Hl. rewrite L in Hl.
  destruct (Hm svc Hl) as [O N].
  destruct (after_callbacks_frame (output (m svc)) p) as (_ & _ & _ & D).
  split.
  - unfold listens. plugin_fields. exact O.
  - unfold owner_runs, live_isRunning in *. plugin_fields. rewrite D, L in *.
    intros Hs.
    destruct (existsb negb (running_changes (output (m svc)))) eqn:E;
      [contradiction|].
    specialize (Ho Hs).
    destruct (running (state (m svc))) eqn:R'; [reflexivity|].
    rewrite (in_running_changes _ (N Ho eq_refl)) in E. discriminate.
Qed.

Lemma file_start_frame opts fenv p :
  liveTranscribe (state (startFileRecordingForBlock opts fenv p))
  = liveTranscribe p
  /\ streamRecordingBlockId (state (startFileRecordingForBlock opts fenv p))
     = streamRecordingBlockId p.
Proof.
  unfold startFileRecordingForBlock. rewrite get_then_plugin.
  destruct (recordedTranscribe p) as [rec|]; [|split; reflexivity].
  destruct (live_isRunning p); [split; reflexivity|].
  destruct (_ && _ && _); [split; reflexivity|].
  destruct (_ && _); [split; reflexivity|].
  run_act. unfold startRecording.
  destruct (recording rec || transcribing rec); [split; reflexivity|].
  destruct (nullish _ _ =? ""); [split; reflexivity|].
  destruct (file_capture fenv); split; reflexivity.
Qed.

Lemma plugin_step_keeps_owner i p :
  listens p -> owner_runs p ->
  listens (state (plugin_step i p)) /\ owner_runs (state (plugin_step i p)).
Proof.
  intros Hl Ho. destruct i as [opts env fenv | | env | i]; cbn [plugin_step].
  - rewrite bind_run, state_of_triple, !state_ret.
    unfold startRecordingForBlock. destruct (mode opts).
    2:{ destruct (file_start_frame opts fenv p) as [A B].
        unfold listens, owner_runs, live_isRunning in *.
        rewrite A, B. auto. }
    rewrite get_then_plugin.
    destruct (liveTranscribe p) as [svc|] eqn:L; [|auto].
    destruct (_ || _); [auto|].
    destruct (_ && _ && _); [auto|].
    destruct (_ && _); [auto|].
    rewrite (stream_start_run opts env p svc L), state_of_triple.
    set (r0 := start (Some (block_target opts)) env svc).
    unfold listens in Hl. rewrite L in Hl.
    split.
    + unfold listens.
      destruct (running (state r0)); plugin_fields; unfold r0;
        now rewrite start_keeps_callback.
    + unfold owner_runs, live_isRunning.
      destruct (running (state r0)) eqn:R; plugin_fields; [auto | congruence].
  - unfold stopStreamRecording. rewrite bind_run, state_of_triple.
    unfold modify. cbv beta. rewrite ?state_of_triple.
    destruct (on_live_keeps_owner stop p announces_stop Hl Ho) as [A _].
    split.
    + unfold listens in *. now destruct (state (on_live stop p)).
    + unfold owner_runs. cbn. congruence.
  - apply on_live_keeps_owner; auto using announces_toggle.
  - apply on_live_keeps_owner; auto using announces_step.
Qed.

Lemma plugin_run_keeps_owner inputs :
  forall p,
    listens p -> owner_runs p ->
    listens (state (plugin_run inputs p))
    /\ owner_runs (state (plugin_run inputs p)).
Proof.
  induction inputs as [|i inputs IH]; intros p Hl Ho.
  - cbn. auto.
  - cbn [plugin_run]. rewrite bind_run, state_of_triple.
    destruct (plugin_step_keeps_owner i p Hl Ho) as [Hl' Ho'].
    apply IH; assumption.
Qed.

(** X15.  The plugin's record of the stream's owner never outlives the
    session: in a plugin that gave its live service the running-change
    callback, whatever blocks, commands, the channel and the capture do, a
    block is on record as the owner of the stream only while the live
    service runs. *)
Theorem stream_owner_implies_running :
  forall (inputs : list PluginInput) (p : TuonScribePlugin),
    listens p ->
    owner_runs p ->
    owner_runs (state (plugin_run inputs p)).
Proof.
  intros inputs p Hl Ho. now apply plugin_run_keeps_owner.
Qed.

Lemma stream_owner_implies_running_witness :
  listens demo_plugin
  /\ owner_runs demo_plugin
  /\ streamRecordingBlockId
       (state (plugin_run [ToService (Event (error "Not authorized"))]
                 demo_plugin)) = None
  /\ owner_runs
       (state (plugin_run [ToService (Event (error "Not authorized"));
                           ToggleCommand demo_env] demo_plugin)).
Proof.
  assert (L : listens demo_plugin) by reflexivity.
  assert (O : owner_runs demo_plugin) by (intros _; reflexivity).
  split; [exact L|]. split; [exact O|].
  split; [vm_compute; reflexivity|].
  exact (stream_owner_implies_running _ demo_plugin L O).
Defined.

(* ===================================================================== *)
(** * The default commit handler: the editor cursor *)
(* ===================================================================== *)

Lemma js_length_append a b :
  js_length (a ++ b) = js_length a + js_length b.
Proof. induction a as [|c a IH]; cbn; [reflexivity | rewrite IH; lia]. Qed.

Lemma split_lf_nonempty s : split_lf s <> [].
Proof.
  destruct s as [|c r]; cbn [split_lf]; [discriminate|].
  destruct (Ascii.eqb c LF); [discriminate|].
  destruct (split_lf r); discriminate.
Qed.

(** The lines of [a ++ b]: the last line of [a] continues with the first
    line of [b]. *)
Lemma split_lf_append a b :
  exists la x y lb,
    split_lf a = la ++ [x]
    /\ split_lf b = y :: lb
    /\ split_lf (a ++ b) = la ++ (x ++ y)%string :: lb.
Proof.
  induction a as [|c r (la & x & y & lb & Ha & Hb & Hab)].
  - destruct (split_lf b) as [|y lb] eqn:E.
    + now elim (split_lf_nonempty b).
    + exists [], "", y, lb. cbn. auto.
  - cbn [split_lf append]. destruct (Ascii.eqb c LF).
    + exists ("" :: la), x, y, lb. rewrite Ha, Hab. auto.
    + rewrite Ha, Hab. destruct la as [|l0 la0]; cbn.
      * exists [], (String c x), y, lb. auto.
      * exists (String c l0 :: la0), x, y, lb. auto.
Qed.

(** [advanceCursor] read on the lines of the text. *)
Lemma advanceCursor_lines c text la x :
  split_lf text = la ++ [x] ->
  advanceCursor c text
  = match la with
    | [] => {| line := line c; ch := ch c + js_length x |}
    | _ :: _ => {| line := line c + List.length la; ch := js_length x |}
    end.
Proof.
  intros H. unfold advanceCursor. rewrite H, last_last, length_app.
  cbn [List.length]. destruct la as [|l0 la]; [reflexivity|].
  cbn [List.length].
  destruct (Nat.eqb_spec (S (List.length la) + 1) 1) as [E|E]; [lia|].
  f_equal. lia.
Qed.

Lemma advanceCursor_append c a b :
  advanceCursor (advanceCursor c a) b = advanceCursor c (a ++ b).
Proof.
  destruct (split_lf_append a b) as (la & x & y & lb & Ha & Hb & Hab).
  rewrite (advanceCursor_lines c a la x Ha).
  destruct lb as [|l1 lb].
  - rewrite (advanceCursor_lines _ b [] y Hb).
    rewrite (advanceCursor_lines c (a ++ b) la (x ++ y) Hab).
    rewrite js_length_append.
    destruct la; cbn [line ch]; f_equal; lia.
  - destruct (exists_last (l := l1 :: lb)) as (lb' & z & E); [discriminate|].
    rewrite E in Hb, Hab.
    change (y :: lb' ++ [z]) with ((y :: lb') ++ [z]) in Hb.
    rewrite (advanceCursor_lines _ b (y :: lb') z Hb).
    assert (Hab' : split_lf (a ++ b)
                   = (la ++ (x ++ y)%string :: lb') ++ [z]).
    { rewrite Hab, <- app_assoc. reflexivity. }
    rewrite (advanceCursor_lines c (a ++ b) _ z Hab').
    destruct la as [|l0 la]; cbn [app line ch List.length]; f_equal;
      rewrite ?length_app; cbn [List.length]; lia.
Qed.

(** X16.  Advancing the cursor over a text in two parts ends where
    advancing over the whole text ends; and over a text without a line
    feed the cursor stays on its line and moves right by the length of the
    text. *)
Theorem advanceCursor_composes :
  forall (c : Cursor) (a b : string),
    advanceCursor (advanceCursor c a) b = advanceCursor c (a ++ b)
    /\ advanceCursor c "" = c
    /\ advanceCursor c (String LF b) = advanceCursor {| line := S (line c); ch := 0 |} b.
Proof.
  intros c a b. split; [apply advanceCursor_append|]. split.
  - destruct c as [l k]. unfold advanceCursor. cbn. f_equal. lia.
  - change (String LF b) with (String LF "" ++ b)%string.
    rewrite <- advanceCursor_append. f_equal.
    unfold advanceCursor. cbn. f_equal. lia.
Qed.

(** After a text that ends with a space the cursor is not at the start of
    its line. *)
Lemma advanceCursor_past_space c u :
  ch (advanceCursor c (u ++ " ")) <> 0.
Proof.
  rewrite <- advanceCursor_append.
  rewrite (advanceCursor_lines _ " " [] " " eq_refl). cbn [ch].
  change (js_length " ") with 1. lia.
Qed.

(** X17.  The default commit handler looks at the trimmed text only: a
    text and its trimmed form lead to the same editor calls, and without
    an editor, or for a blank text, no call is made.  Otherwise the text is
    inserted at the cursor, followed by a space and, unless the cursor is at
    the start of a line, also preceded by one, and the cursor is moved to
    the end of what was inserted, which is never the start of a line. *)
Theorem insertFinalAtCursor_uses_trimmed_text :
  forall (editor : option Cursor) (text : string),
    insertFinalAtCursor editor (trim text) = insertFinalAtCursor editor text
    /\ (editor = None \/ trim text = "" ->
        insertFinalAtCursor editor text = [])
    /\ (forall cursor,
          editor = Some cursor ->
          trim text <> "" ->
          exists insertion pos,
            insertFinalAtCursor editor text
            = [ReplaceRange insertion cursor; SetCursor pos]
            /\ insertion
               = ((if (ch cursor =? 0)%nat then "" else " ")
                  ++ trim text ++ " ")%string
            /\ pos = advanceCursor cursor insertion
            /\ ch pos <> 0).
Proof.
  intros editor text. split; [|split].
  - unfold insertFinalAtCursor. now rewrite trim_idempotent.
  - intros [-> | H]; [reflexivity|].
    unfold insertFinalAtCursor. destruct editor; [|reflexivity].
    now rewrite H.
  - intros cursor -> H. unfold insertFinalAtCursor.
    rewrite (eqb_empty_false _ H).
    do 2 eexists. split; [reflexivity|]. split; [reflexivity|].
    split; [reflexivity|].
    rewrite <- append_assoc. apply advanceCursor_past_space.
Qed.

(** X18.  Two commits in a row at the editor cursor: the second is
    inserted where the first left the cursor, and always with a space in
    front, after the space that ends the first. *)
Theorem successive_commits_are_spaced :
  forall (cursor : Cursor) (first second : string),
    trim first <> "" ->
    trim second <> "" ->
    exists insertion pos,
      insertFinalAtCursor (Some cursor) first
      = [ReplaceRange insertion cursor; SetCursor pos]
      /\ insertFinalAtCursor (Some pos) second
         = [ReplaceRange (" " ++ trim second ++ " ") pos;
            SetCursor (advanceCursor pos (" " ++ trim second ++ " "))].
Proof.
  intros cursor first second H1 H2. unfold insertFinalAtCursor.
  rewrite (eqb_empty_false _ H1), (eqb_empty_false _ H2).
  do 2 eexists. split; [reflexivity|].
  set (ins := ((if (ch cursor =? 0)%nat then "" else " ") ++ trim first ++ " ")%string).
  assert (N : ch (advanceCursor cursor ins) <> 0).
  { unfold ins. rewrite <- append_assoc. apply advanceCursor_past_space. }
  apply Nat.eqb_neq in N. rewrite N. reflexivity.
Qed.

Lemma successive_commits_are_spaced_witness :
  insertFinalAtCursor (Some {| line := 2; ch := 0 |}) " hello"
  = [ReplaceRange "hello " {| line := 2; ch := 0 |};
     SetCursor {| line := 2; ch := 6 |}]
  /\ insertFinalAtCursor (Some {| line := 2; ch := 6 |}) "world "
     = [ReplaceRange " world " {| line := 2; ch := 6 |};
        SetCursor {| line := 2; ch := 13 |}].
Proof.
  assert (H1 : trim " hello" <> "") by (vm_compute; discriminate).
  assert (H2 : trim "world " <> "") by (vm_compute; discriminate).
  destruct (successive_commits_are_spaced {| line := 2; ch := 0 |}
              " hello" "world " H1 H2) as (ins & pos & E1 & E2).
  assert (V : insertFinalAtCursor (Some {| line := 2; ch := 0 |}) " hello"
              = [ReplaceRange "hello " {| line := 2; ch := 0 |};
                 SetCursor {| line := 2; ch := 6 |}])
    by (vm_compute; reflexivity).
  rewrite V in E1. injection E1 as <- <-.
  split; [exact V|]. rewrite E2. vm_compute. reflexivity.
Defined.

(* ===================================================================== *)
(** * The vocabulary file *)
(* ===================================================================== *)

Lemma has_lf_append a b : has_lf (a ++ b) = has_lf a || has_lf b.
Proof.
  induction a as [|c a IH]; [reflexivity|].
  cbn. now rewrite IH, orb_assoc.
Qed.

(** What [trim] returns is a part of what it is given. *)
Lemma trim_substring s : exists a b, s = (a ++ trim s ++ b)%string.
Proof.
  destruct (strip_leading_suffix whitespace (String.length s)
              whitespace_nonempty s) as [p Hp].
  destruct (trimEnd_prefix (trimStart s)) as [t Ht].
  exists p, t. unfold trim. rewrite <- Ht. exact Hp.
Qed.

Lemma trim_keeps_no_lf s : has_lf s = false -> has_lf (trim s) = false.
Proof.
  intros H. destruct (trim_substring s) as (a & b & E).
  rewrite E, !has_lf_append in H.
  apply orb_false_iff in H. destruct H as [_ H].
  apply orb_false_iff in H. tauto.
Qed.

Lemma strip_leading_length table fuel s :
  Forall (fun w => w <> "") table ->
  String.length (strip_leading table fuel s) <= String.length s.
Proof.
  intros T. destruct (strip_leading_suffix table fuel T s) as [p Hp].
  rewrite Hp at 2. rewrite length_append. lia.
Qed.

(** A line feed is white space. *)
Lemma strip_one_lf r : strip_one whitespace (String LF r) = Some r.
Proof. reflexivity. Qed.

Lemma collapse_ws_fuel_no_lf fuel :
  forall s, String.length s <= fuel -> has_lf (collapse_ws_fuel fuel s) = false.
Proof.
  induction fuel as [|fuel IH]; intros s Hlen.
  - destruct s; [reflexivity | cbn in Hlen; lia].
  - cbn [collapse_ws_fuel].
    destruct (strip_one whitespace s) as [r|] eqn:E.
    + cbn [has_lf]. rewrite IH; [reflexivity|].
      pose proof (strip_one_shorter _ _ _ whitespace_nonempty E).
      pose proof (strip_leading_length whitespace (String.length r) r
                    whitespace_nonempty).
      lia.
    + destruct s as [|c r]; [reflexivity|].
      cbn [has_lf]. rewrite IH by (cbn in Hlen; lia).
      rewrite orb_false_r. destruct (Ascii.eqb_spec c LF) as [->|]; [|reflexivity].
      rewrite strip_one_lf in E. discriminate.
Qed.

Lemma collapse_ws_no_lf s : has_lf (collapse_ws s) = false.
Proof. apply collapse_ws_fuel_no_lf. lia. Qed.

Lemma normalizeVocabTerm_some raw t :
  normalizeVocabTerm raw = Some t ->
  exists w, t = trim (collapse_ws w) /\ t <> "".
Proof.
  unfold normalizeVocabTerm.
  destruct (trim (collapse_ws raw) =? ""); [discriminate|].
  destruct (trim (collapse_ws _) =? "") eqn:E; [discriminate|].
  intros H. injection H as <-. eexists. split; [reflexivity|].
  now apply String.eqb_neq.
Qed.

(** X19.  A normalized term is one clean line: it is not empty, has no
    white space at either end, and contains no line feed. *)
Theorem normalized_term_is_one_clean_line :
  forall raw t : string,
    normalizeVocabTerm raw = Some t ->
    t <> "" /\ trim t = t /\ has_lf t = false.
Proof.
  intros raw t H.
  destruct (normalizeVocabTerm_some raw t H) as (w & -> & N).
  split; [exact N|]. split; [apply trim_idempotent|].
  apply trim_keeps_no_lf, collapse_ws_no_lf.
Qed.

Lemma normalized_term_is_one_clean_line_witness :
  normalizeVocabTerm (String LF " 2) Kubernetes   cluster ")
  = Some "Kubernetes cluster"
  /\ has_lf "Kubernetes cluster" = false.
Proof.
  assert (H : normalizeVocabTerm (String LF " 2) Kubernetes   cluster ")
              = Some "Kubernetes cluster") by (vm_compute; reflexivity).
  split; [exact H|].
  exact (proj2 (proj2 (normalized_term_is_one_clean_line _ _ H))).
Defined.

(** What the loop of [parseVocabTerms] keeps true of its variables. *)
Lemma parse_line_invariant st rawLine :
  NoDup (terms st) ->
  (forall t, In t (seen st) <-> In t (terms st)) ->
  Forall is_keyterm (terms st) ->
  NoDup (terms (parse_line st rawLine))
  /\ (forall t, In t (seen (parse_line st rawLine))
                <-> In t (terms (parse_line st rawLine)))
  /\ Forall is_keyterm (terms (parse_line st rawLine)).
Proof.
  intros N S K. unfold parse_line.
  destruct (trim rawLine =? ""); [auto|].
  destruct (String.prefix "```" (trim rawLine)); [auto|].
  destruct (inCodeFence st); [auto|].
  destruct (String.prefix "#" (trim rawLine)); [auto|].
  destruct (String.prefix ">" (trim rawLine)); [auto|].
  destruct (String.prefix "<!--" (trim rawLine)); [auto|].
  destruct (normalizeVocabTerm (trim rawLine)) as [term|] eqn:E; [|auto].
  destruct (MAX_KEYTERM_LENGTH <? js_length term)%nat eqn:L; [auto|].
  destruct (existsb (String.eqb term) (seen st)) eqn:X; [auto|].
  cbn [terms seen].
  assert (Hnew : ~ In term (terms st)).
  { intros Hin. apply S in Hin.
    assert (existsb (String.eqb term) (seen st) = true).
    { apply existsb_exists. exists term. split; [exact Hin|].
      apply String.eqb_refl. }
    congruence. }
  split; [|split].
  - apply NoDup_app; [exact N | repeat constructor; intros [] | ].
    intros x Hx [<-|[]]. contradiction.
  - intros t. rewrite in_app_iff. cbn. rewrite S. tauto.
  - apply Forall_app. split; [exact K|]. constructor; [|constructor].
    split; [eauto|]. apply Nat.ltb_ge in L. exact L.
Qed.

Lemma parse_lines_invariant lines :
  forall st,
    NoDup (terms st) ->
    (forall t, In t (seen st) <-> In t (terms st)) ->
    Forall is_keyterm (terms st) ->
    NoDup (terms (fold_left parse_line lines st))
    /\ (forall t, In t (seen (fold_left parse_line lines st))
                  <-> In t (terms (fold_left parse_line lines st)))
    /\ Forall is_keyterm (terms (fold_left parse_line lines st)).
Proof.
  induction lines as [|l lines IH]; intros st N S K; [cbn; auto|].
  cbn [fold_left].
  destruct (parse_line_invariant st l N S K) as (N' & S' & K').
  apply IH; assumption.
Qed.

Lemma parse_end_invariant content :
  NoDup (terms (parse_end content))
  /\ (forall t, In t (seen (parse_end content))
                <-> In t (terms (parse_end content)))
  /\ Forall is_keyterm (terms (parse_end content)).
Proof.
  apply parse_lines_invariant; cbn; [constructor | tauto | constructor].
Qed.

(** X20.  The terms read from the vocabulary file are pairwise different,
    and each is the normal form of a line and at most 50 UTF-16 units
    long; [readVocabTerms] returns the first 100 of them at most, in the
    order of the file. *)
Theorem vocabulary_terms_are_distinct_and_bounded :
  forall content : string,
    NoDup (parseVocabTerms content)
    /\ Forall is_keyterm (parseVocabTerms content)
    /\ NoDup (readVocabTerms content)
    /\ Forall is_keyterm (readVocabTerms content)
    /\ length (readVocabTerms content) <= 100
    /\ exists rest,
         parseVocabTerms content = readVocabTerms content ++ rest.
Proof.
  intros content.
  destruct (parse_end_invariant content) as (N & _ & K).
  change (terms (parse_end content)) with (parseVocabTerms content) in *.
  assert (E : parseVocabTerms content
              = readVocabTerms content
                ++ skipn MAX_KEYTERMS (parseVocabTerms content)).
  { unfold readVocabTerms. symmetry. apply firstn_skipn. }
  split; [exact N|]. split; [exact K|].
  split; [rewrite E in N; exact (NoDup_app_remove_r _ _ N)|].
  split; [rewrite E in K; apply Forall_app in K; tauto|].
  split; [apply firstn_le_length|].
  eexists. exact E.
Qed.

Lemma ends_with_lf_snoc a : ends_with_lf (a ++ String LF "") = true.
Proof.
  induction a as [|c a IH]; [reflexivity|].
  cbn [append]. destruct a as [|d a]; [reflexivity|]. exact IH.
Qed.

Lemma ends_with_lf_split s :
  ends_with_lf s = true -> exists s0, s = (s0 ++ String LF "")%string.
Proof.
  induction s as [|c s IH]; [discriminate|].
  destruct s as [|d s].
  - cbn. intros H. apply Ascii.eqb_eq in H. subst c. now exists "".
  - intros H. destruct (IH H) as [s0 E]. exists (String c s0).
    cbn [append]. now rewrite <- E.
Qed.

(** What [appendVocabTerm] does with a term it accepts. *)
Lemma appendVocabTerm_added raw content t content' :
  appendVocabTerm raw content = (status_added, Some t, content') ->
  normalizeVocabTerm raw = Some t
  /\ js_length t <= MAX_KEYTERM_LENGTH
  /\ existsb (String.eqb t) (parseVocabTerms content) = false
  /\ content'
     = (content
        ++ (if (0 <? String.length content)%nat && negb (ends_with_lf content)
            then String LF "" else "")
        ++ t ++ String LF "")%string.
Proof.
  unfold appendVocabTerm.
  destruct (normalizeVocabTerm raw) as [n|]; [|discriminate].
  destruct (MAX_KEYTERM_LENGTH <? js_length n)%nat eqn:L; [discriminate|].
  destruct (existsb (String.eqb n) (parseVocabTerms content)) eqn:X;
    [discriminate|].
  intros H. injection H as <- <-. apply Nat.ltb_ge in L. auto.
Qed.


(** ** Reading back what was appended *)

Lemma split_lf_app_lf a b :
  split_lf (a ++ String LF b) = split_lf a ++ split_lf b.
Proof.
  induction a as [|c a IH]; [reflexivity|].
  cbn [append split_lf]. rewrite IH.
  destruct (Ascii.eqb c LF); [reflexivity|].
  destruct (split_lf a) as [|x xs] eqn:E; [now elim (split_lf_nonempty a)|].
  reflexivity.
Qed.

Lemma split_lf_no_lf t : has_lf t = false -> split_lf t = [t].
Proof.
  induction t as [|c t IH]; [reflexivity|].
  cbn [has_lf split_lf]. intros H. apply orb_false_iff in H.
  destruct H as [Hc Ht]. rewrite Hc, (IH Ht). reflexivity.
Qed.

Lemma chop_all_but_last_snoc l x :
  chop_all_but_last (l ++ [x]) = map chop_cr l ++ [x].
Proof.
  induction l as [|y l IH]; [reflexivity|].
  cbn [app map]. rewrite <- IH.
  destruct (l ++ [x]) eqn:E; [destruct l; discriminate | reflexivity].
Qed.

Lemma chop_cr_cases t :
  chop_cr t = t \/ t = (chop_cr t ++ String CR "")%string.
Proof.
  induction t as [|c r IH]; [now left|].
  destruct r as [|d r'].
  - cbn [chop_cr]. destruct (Ascii.eqb_spec c CR) as [->|]; [now right | now left].
  - change (chop_cr (String c (String d r')))
      with (String c (chop_cr (String d r'))).
    destruct IH as [IH|IH].
    + left. now rewrite IH.
    + right. cbn [append]. now rewrite <- IH.
Qed.

(** A carriage return is white space. *)
Lemma strip_one_rev_cr r :
  strip_one (map string_rev whitespace) (String CR r) = Some r.
Proof. reflexivity. Qed.

Lemma trimEnd_drops_cr u :
  String.length (trimEnd (u ++ String CR "")) <= String.length u.
Proof.
  unfold trimEnd. rewrite length_string_rev, string_rev_append, length_append.
  cbn [string_rev append String.length]. rewrite Nat.add_1_r.
  cbn [strip_leading]. rewrite strip_one_rev_cr.
  etransitivity; [apply strip_leading_length, whitespace_rev_nonempty|].
  now rewrite length_string_rev.
Qed.

Lemma trimmed_is_trimEnd_fixed t : trim t = t -> trimEnd t = t.
Proof.
  intros H. rewrite <- H at 1. unfold trim.
  rewrite trimEnd_idempotent. exact H.
Qed.

Lemma chop_cr_trimmed t : trim t = t -> chop_cr t = t.
Proof.
  intros H. destruct (chop_cr_cases t) as [E|E]; [exact E|].
  exfalso. pose proof (trimmed_is_trimEnd_fixed t H) as F.
  pose proof (trimEnd_drops_cr (chop_cr t)) as L.
  rewrite <- E, F in L. rewrite E in L at 1.
  rewrite length_append in L. cbn in L. lia.
Qed.

Lemma parse_line_blank st : parse_line st "" = st.
Proof. reflexivity. Qed.

(** The lines of a file that is empty or ends with a line feed, and its
    lines after a line has been appended. *)
Lemma lines_after_append content :
  content = "" \/ ends_with_lf content = true ->
  exists lines0,
    split_lines content = lines0 ++ [""]
    /\ forall t,
         has_lf t = false ->
         split_lines (content ++ t ++ String LF "")
         = lines0 ++ [chop_cr t; ""].
Proof.
  intros [->|H].
  - exists []. split; [reflexivity|]. intros t Ht.
    unfold split_lines. cbn [append].
    rewrite split_lf_app_lf, (split_lf_no_lf t Ht). reflexivity.
  - destruct (ends_with_lf_split content H) as [s0 ->].
    exists (map chop_cr (split_lf s0)). split.
    + unfold split_lines. rewrite split_lf_app_lf.
      apply chop_all_but_last_snoc.
    + intros t Ht. unfold split_lines.
      rewrite append_assoc. cbn [append].
      rewrite !split_lf_app_lf, (split_lf_no_lf t Ht).
      change (split_lf "") with [""].
      rewrite app_assoc, chop_all_but_last_snoc, map_app, <- app_assoc.
      reflexivity.
Qed.

Lemma parse_line_term st t :
  trim t = t -> t <> "" ->
  is_markup t = false ->
  inCodeFence st = false ->
  normalizeVocabTerm t = Some t ->
  js_length t <= MAX_KEYTERM_LENGTH ->
  existsb (String.eqb t) (seen st) = false ->
  terms (parse_line st t) = terms st ++ [t].
Proof.
  intros T N M F Z L X. unfold parse_line. rewrite T, (eqb_empty_false _ N).
  unfold is_markup in M.
  apply orb_false_iff in M. destruct M as [M M4].
  apply orb_false_iff in M. destruct M as [M M3].
  apply orb_false_iff in M. destruct M as [M1 M2].
  rewrite M1, F, M2, M3, M4, Z, X.
  apply Nat.ltb_ge in L. rewrite L. reflexivity.
Qed.

Lemma parse_line_skipped st t :
  trim t = t -> t <> "" ->
  inCodeFence st = true \/ is_markup t = true ->
  terms (parse_line st t) = terms st.
Proof.
  intros T N H. unfold parse_line. rewrite T, (eqb_empty_false _ N).
  destruct (String.prefix "```" t) eqn:M1; [reflexivity|].
  destruct (inCodeFence st); [reflexivity|].
  destruct H as [H|H]; [discriminate|].
  unfold is_markup in H. rewrite M1 in H. cbn [orb] in H.
  destruct (String.prefix "#" t); [reflexivity|].
  destruct (String.prefix ">" t); [reflexivity|].
  destruct (String.prefix "<!--" t); [reflexivity|]. discriminate.
Qed.

Lemma existsb_eqb_in t l :
  existsb (String.eqb t) l = true <-> In t l.
Proof.
  rewrite existsb_exists. split.
  - intros (x & Hx & E). apply String.eqb_eq in E. now subst.
  - intros H. exists t. split; [exact H | apply String.eqb_refl].
Qed.

(** The terms read after a term has been added to a file that is empty or
    ends with a line feed: those read before, and what one more turn of the
    loop makes of the new line. *)
Lemma parse_after_append raw content t content' :
  appendVocabTerm raw content = (status_added, Some t, content') ->
  content = "" \/ ends_with_lf content = true ->
  content' = (content ++ t ++ String LF "")%string
  /\ ends_with_lf content' = true
  /\ trim t = t /\ t <> ""
  /\ parseVocabTerms content'
     = terms (parse_line (parse_end content) t)
  /\ existsb (String.eqb t) (seen (parse_end content)) = false.
Proof.
  intros A Hc.
  destruct (appendVocabTerm_added _ _ _ _ A) as (N & L & X & E).
  destruct (normalizeVocabTerm_some raw t N) as (w & Ew & Nt).
  assert (T : trim t = t) by (rewrite Ew; apply trim_idempotent).
  assert (Hl : has_lf t = false)
    by (rewrite Ew; apply trim_keeps_no_lf, collapse_ws_no_lf).
  assert (Hsep : (if (0 <? String.length content)%nat
                     && negb (ends_with_lf content)
                  then String LF "" else "") = "").
  { destruct Hc as [->|Hc]; [reflexivity|]. rewrite Hc.
    now rewrite andb_false_r. }
  rewrite Hsep in E. cbn [append] in E.
  split; [exact E|].
  split; [rewrite E, <- append_assoc; apply ends_with_lf_snoc|].
  split; [exact T|]. split; [exact Nt|].
  destruct (lines_after_append content Hc) as (lines0 & L0 & L1).
  specialize (L1 t Hl). rewrite (chop_cr_trimmed t T) in L1.
  assert (P0 : parse_end content
               = fold_left parse_line lines0
                   {| terms := []; seen := []; inCodeFence := false |}).
  { unfold parse_end. rewrite L0, fold_left_app. reflexivity. }
  split.
  - unfold parseVocabTerms. rewrite E, L1, fold_left_app, <- P0. reflexivity.
  - destruct (parse_end_invariant content) as (_ & S & _).
    destruct (existsb (String.eqb t) (seen (parse_end content))) eqn:Y;
      [|reflexivity].
    apply existsb_eqb_in, S in Y.
    change (terms (parse_end content)) with (parseVocabTerms content) in Y.
    apply existsb_eqb_in in Y. congruence.
Qed.

(** X22.  A term added to a file that is empty or ends with a line feed is
    read back as the last term, and adding it again is answered with
    "exists" and leaves the file alone, provided the file does not end
    inside a code fence and the term does not look like markup and is its
    own normal form. *)
Theorem added_term_is_read_back :
  forall raw content t content' : string,
    appendVocabTerm raw content = (status_added, Some t, content') ->
    content = "" \/ ends_with_lf content = true ->
    inCodeFence (parse_end content) = false ->
    is_markup t = false ->
    normalizeVocabTerm t = Some t ->
    parseVocabTerms content' = parseVocabTerms content ++ [t]
    /\ appendVocabTerm raw content' = (status_exists, Some t, content').
Proof.
  intros raw content t content' A Hc F M Z.
  destruct (parse_after_append _ _ _ _ A Hc) as (E & _ & T & N & P & X).
  destruct (appendVocabTerm_added _ _ _ _ A) as (Nr & L & _ & _).
  assert (P' : parseVocabTerms content' = parseVocabTerms content ++ [t]).
  { rewrite P. now apply parse_line_term. }
  split; [exact P'|].
  unfold appendVocabTerm. rewrite Nr.
  apply Nat.ltb_ge in L. rewrite L.
  assert (In t (parseVocabTerms content')).
  { rewrite P'. apply in_or_app. right. now left. }
  apply existsb_eqb_in in H. rewrite H. reflexivity.
Qed.

Lemma added_term_is_read_back_witness :
  appendVocabTerm " 1. Obsidian  vault" DEFAULT_VOCAB_CONTENT
  = (status_added, Some "Obsidian vault",
     (DEFAULT_VOCAB_CONTENT ++ "Obsidian vault" ++ String LF "")%string)
  /\ parseVocabTerms
       (DEFAULT_VOCAB_CONTENT ++ "Obsidian vault" ++ String LF "")
     = ["Obsidian vault"].
Proof.
  assert (A : appendVocabTerm " 1. Obsidian  vault" DEFAULT_VOCAB_CONTENT
              = (status_added, Some "Obsidian vault",
                 (DEFAULT_VOCAB_CONTENT ++ "Obsidian vault"
                    ++ String LF "")%string))
    by (vm_compute; reflexivity).
  split; [exact A|].
  assert (Hc : DEFAULT_VOCAB_CONTENT = ""
               \/ ends_with_lf DEFAULT_VOCAB_CONTENT = true)
    by (right; reflexivity).
  assert (F : inCodeFence (parse_end DEFAULT_VOCAB_CONTENT) = false)
    by (vm_compute; reflexivity).
  assert (M : is_markup "Obsidian vault" = false) by reflexivity.
  assert (Z : normalizeVocabTerm "Obsidian vault" = Some "Obsidian vault")
    by (vm_compute; reflexivity).
  rewrite (proj1 (added_term_is_read_back _ _ _ _ A Hc F M Z)).
  vm_compute. reflexivity.
Defined.

(** X23.  A term added to such a file that ends inside a code fence, or a
    term that looks like markup, is not read back: the terms read are
    those read before, and adding the same text again adds the line
    again. *)
Theorem term_added_as_markup_is_not_read :
  forall raw content t content' : string,
    appendVocabTerm raw content = (status_added, Some t, content') ->
    content = "" \/ ends_with_lf content = true ->
    inCodeFence (parse_end content) = true \/ is_markup t = true ->
    parseVocabTerms content' = parseVocabTerms content
    /\ appendVocabTerm raw content'
       = (status_added, Some t, (content' ++ t ++ String LF "")%string).
Proof.
  intros raw content t content' A Hc H.
  destruct (parse_after_append _ _ _ _ A Hc) as (E & El & T & N & P & _).
  destruct (appendVocabTerm_added _ _ _ _ A) as (Nr & L & X & _).
  assert (P' : parseVocabTerms content' = parseVocabTerms content).
  { rewrite P. now apply parse_line_skipped. }
  split; [exact P'|].
  unfold appendVocabTerm. rewrite Nr.
  apply Nat.ltb_ge in L. rewrite L, P', X, El.
  now rewrite andb_false_r.
Qed.

Lemma term_added_as_markup_is_not_read_witness :
  appendVocabTerm "#tag" DEFAULT_VOCAB_CONTENT
  = (status_added, Some "#tag",
     (DEFAULT_VOCAB_CONTENT ++ "#tag" ++ String LF "")%string)
  /\ parseVocabTerms (DEFAULT_VOCAB_CONTENT ++ "#tag" ++ String LF "") = []
  /\ fst (fst (appendVocabTerm "#tag"
                 (DEFAULT_VOCAB_CONTENT ++ "#tag" ++ String LF "")))
     = status_added.
Proof.
  assert (A : appendVocabTerm "#tag" DEFAULT_VOCAB_CONTENT
              = (status_added, Some "#tag",
                 (DEFAULT_VOCAB_CONTENT ++ "#tag" ++ String LF "")%string))
    by (vm_compute; reflexivity).
  split; [exact A|].
  assert (Hc : DEFAULT_VOCAB_CONTENT = ""
               \/ ends_with_lf DEFAULT_VOCAB_CONTENT = true)
    by (right; reflexivity).
  assert (M : inCodeFence (parse_end DEFAULT_VOCAB_CONTENT) = true
              \/ is_markup "#tag" = true)
    by (right; reflexivity).
  destruct (term_added_as_markup_is_not_read _ _ _ _ A Hc M) as [P Q].
  split; [rewrite P; vm_compute; reflexivity|]. rewrite Q. reflexivity.
Defined.

(* ===================================================================== *)
(** * The plugin: the recording state and file recordings *)
(* ===================================================================== *)

(** X24.  In a plugin that gave its live service the running-change
    callback and whose record of the stream's owner starts out right,
    whatever blocks, commands, the
    channel and the capture have done, a block on record as the owner of
    the stream is the block [getRecordingState] names, as recording in
    stream mode; and [getRecordingState] reports nothing running exactly
    when neither the live service runs nor the recorded service records or
    transcribes. *)
Theorem recording_state_names_the_owner :
  forall (inputs : list PluginInput) (p : TuonScribePlugin) (b : string),
    listens p ->
    owner_runs p ->
    let p' := state (plugin_run inputs p) in
    (streamRecordingBlockId p' = Some b ->
     getRecordingState p'
     = {| RecordingState.running := true;
          RecordingState.blockId := Some b;
          RecordingState.mode := Some mode_stream;
          RecordingState.phase := Some phase_recording |})
    /\ (RecordingState.running (getRecordingState p') = false
        <-> live_isRunning p' = false
            /\ recorded_isRecording p' = false
            /\ recorded_isTranscribing p' = false).
Proof.
  intros inputs p b Hl Ho. cbv zeta.
  destruct (plugin_run_keeps_owner inputs p Hl Ho) as [_ O].
  set (p' := state (plugin_run inputs p)) in *. split.
  - intros Hb. unfold getRecordingState.
    rewrite O by (rewrite Hb; discriminate). now rewrite Hb.
  - unfold getRecordingState.
    destruct (live_isRunning p'), (recorded_isRecording p'),
      (recorded_isTranscribing p'); cbn; intuition discriminate.
Qed.

Lemma recording_state_names_the_owner_witness :
  getRecordingState (state (plugin_run [ToService (Event session_terminated)]
                              demo_plugin))
  = {| RecordingState.running := true;
       RecordingState.blockId := Some "A";
       RecordingState.mode := Some mode_stream;
       RecordingState.phase := Some phase_recording |}.
Proof.
  assert (L : listens demo_plugin) by reflexivity.
  assert (O : owner_runs demo_plugin) by (intros _; reflexivity).
  assert (B : streamRecordingBlockId
                (state (plugin_run [ToService (Event session_terminated)]
                          demo_plugin)) = Some "A")
    by (vm_compute; reflexivity).
  exact (proj1 (recording_state_names_the_owner
                  [ToService (Event session_terminated)] demo_plugin "A" L O) B).
Defined.

Lemma file_start_run opts env p rec :
  recordedTranscribe p = Some rec ->
  live_isRunning p = false ->
  ((recording rec || transcribing rec)
   && id_truthy (fileRecordingBlockId p)
   && id_differs (fileRecordingBlockId p) (blockId opts) = false) ->
  ((recording rec || transcribing rec)
   && negb (id_truthy (fileRecordingBlockId p)) = false) ->
  startFileRecordingForBlock opts env p
  = match value (startRecording env rec) with
    | None =>
        (recording (state (startRecording env rec)),
         set_recordedTranscribe (Some (state (startRecording env rec)))
           (set_fileRecordingBlockId (Some (blockId opts)) p),
         output (startRecording env rec))
    | Some msg =>
        (false,
         set_fileRecordingBlockId None
           (set_recordedTranscribe (Some (state (startRecording env rec)))
              (set_fileRecordingBlockId (Some (blockId opts)) p)),
         output (startRecording env rec) ++ [Notice ("Recording failed: " ++ msg)])
    end.
Proof.
  intros Hrec Hlive H1 H2. unfold startFileRecordingForBlock.
  rewrite get_then_plugin, Hrec, Hlive, H1, H2.
  rewrite modify_then_plugin.
  destruct (startRecording env rec) as [[[msg|] rec'] out];
    unfold value, state, output; cbn [fst snd];
    unfold bind, tells, modify, ret, notice, tell; cbn [fst snd];
    rewrite ?app_nil_r; reflexivity.
Qed.



(** X26.  When the block on record as the owner of the file recording
    asks to start again while the recorded service records or transcribes,
    [startRecording] throws: the call returns false after one notice, the
    recorded service is left as it is, and no block is on record as the
    owner any more. *)
Theorem file_owner_restart_drops_the_owner :
  forall (p : TuonScribePlugin) (rec : RecordedTranscribeService)
         (opts : BlockOpts) (fenv : FileEnv),
    recordedTranscribe p = Some rec ->
    live_isRunning p = false ->
    recording rec || transcribing rec = true ->
    fileRecordingBlockId p = Some (blockId opts) ->
    blockId opts <> "" ->
    startFileRecordingForBlock opts fenv p
    = (false,
       set_fileRecordingBlockId None p,
       [Notice "Recording failed: Recorded transcription is already running."]).
Proof.
  intros p rec opts fenv Hrec Hlive B Ho Hne.
  assert (E : (blockId opts =? "") = false) by now apply String.eqb_neq.
  rewrite (file_start_run opts fenv p rec Hrec Hlive).
  - unfold startRecording. rewrite B.
    unfold value, state, output. cbn [fst snd app append].
    destruct p as [l r s f]. cbn in *. subst. reflexivity.
  - rewrite B, Ho. cbn [id_truthy id_differs andb].
    now rewrite E, String.eqb_refl.
  - rewrite B, Ho. cbn [id_truthy andb]. now rewrite E.
Qed.

Lemma file_owner_restart_drops_the_owner_witness :
  fileRecordingBlockId
    (state (startFileRecordingForBlock demo_request demo_file_env
              {| liveTranscribe := None;
                 recordedTranscribe := Some {| recording := true;
                                               transcribing := false |};
                 streamRecordingBlockId := None;
                 fileRecordingBlockId := Some "B" |})) = None
  /\ recorded_isRecording
       (state (startFileRecordingForBlock demo_request demo_file_env
                 {| liveTranscribe := None;
                    recordedTranscribe := Some {| recording := true;
                                                  transcribing := false |};
                    streamRecordingBlockId := None;
                    fileRecordingBlockId := Some "B" |})) = true.
Proof.
  assert (N : blockId demo_request <> "") by discriminate.
  rewrite (file_owner_restart_drops_the_owner
             {| liveTranscribe := None;
                recordedTranscribe := Some {| recording := true;
                                              transcribing := false |};
                streamRecordingBlockId := None;
                fileRecordingBlockId := Some "B" |}
             {| recording := true; transcribing := false |}
             demo_request demo_file_env
             (@eq_refl _ (Some {| recording := true; transcribing := false |}))
             (@eq_refl _ false) (@eq_refl _ true)
             (@eq_refl _ (Some "B")) N).
  split; reflexivity.
Defined.

(* ===================================================================== *)
(** * More on the channel and the reconciler *)
(* ===================================================================== *)

(** X27.  [connect] makes at most one socket: with a blank key it throws
    and leaves the client as it is; when it returns normally the client
    holds a socket that is open or connecting, and another [connect] then
    returns at once, whatever would have become of a new connection.  The
    registered handler and the key are never touched. *)
Theorem connect_makes_one_socket :
  forall (c : AssemblyAiRealtimeClient) (o o' : ConnectOutcome),
    let r := connect o c in
    (trim (apiKey c) = "" -> r = (Some "Missing AssemblyAI API key.", c))
    /\ (fst r = None ->
        (ws (snd r) = Some OPEN \/ ws (snd r) = Some CONNECTING)
        /\ connect o' (snd r) = (None, snd r))
    /\ onEventHandlers (snd r) = onEventHandlers c
    /\ apiKey (snd r) = apiKey c.
Proof.
  intros c o o'. cbv zeta. unfold connect.
  destruct (trim (apiKey c) =? "") eqn:K.
  - cbn [fst snd]. rewrite K. repeat split; try discriminate; auto.
  - apply String.eqb_neq in K.
    destruct c as [w k r e f t m x p h]. cbn [ws apiKey] in *.
    destruct w as [[| | |]|], o; cbn [fst snd ws apiKey set_ws onEventHandlers];
      rewrite ?(eqb_empty_false _ K);
      repeat split; try discriminate; try contradiction; auto.
Qed.

Lemma socket_error_is_not_an_authorization_error :
  includes "not authorized"
    (toLowerCase "WebSocket error connecting to AssemblyAI streaming.") = false.
Proof. vm_compute. reflexivity. Qed.

(** X28.  A socket error alone does not end the session: [ws.onerror]
    leaves the service as it is, commits nothing and sends nothing; a
    service whose handler is registered shows the error in the status and
    in a notice. *)
Theorem socket_error_does_not_end_session :
  forall s : LiveTranscribeService,
    let r := ws_onerror s in
    state r = s
    /\ commits (output r) = []
    /\ sent_audio (output r) = []
    /\ running_changes (output r) = []
    /\ (forall c,
          aai s = Some c -> onEventHandlers c = true ->
          output r
          = when (opt_onStatusText s) (CallOnStatusText "Transcription error.")
            ++ [Notice "Transcription error: WebSocket error connecting to AssemblyAI streaming."]).
Proof.
  intros s. cbv zeta. unfold ws_onerror.
  destruct (aai s) as [c|] eqn:A.
  2:{ rewrite (emit_without_channel _ _ A). repeat split. discriminate. }
  destruct (onEventHandlers c) eqn:H.
  2:{ unfold emit. run_act. rewrite A, H. cbn.
      repeat split. intros c' E. injection E as <-. congruence. }
  rewrite (emit_subscribed _ _ _ A H), error_event.
  rewrite socket_error_is_not_an_authorization_error.
  rewrite state_of_triple, output_of_triple, state_of_triple, output_of_triple.
  destruct (opt_onStatusText s); repeat split.
Qed.

Lemma set_aai_same s : aai s = None -> set_aai None s = s.
Proof. destruct s. cbn. now intros ->. Qed.

Lemma idle_step i s :
  is_start i = false ->
  running s = false ->
  aai s = None ->
  state (step i s) = s /\ forallb is_frame_call (output (step i s)) = true.
Proof.
  intros Hi R A.
  destruct i as [t e | | ev | d p | reason | | chunk | data];
    try discriminate; cbn [step].
  - now rewrite (stop_idle s R).
  - now rewrite (emit_without_channel _ _ A).
  - unfold ws_onmessage. destruct (nullish d "" =? ""); [auto|].
    run_act. now rewrite A.
  - rewrite ws_onclose_run, A. cbn [option_map]. rewrite (set_aai_same s A).
    destruct (trim (str_or reason "") =? "").
    + rewrite ret_then. now rewrite (emit_without_channel _ _ A).
    + rewrite bind_run, (emit_without_channel _ _ A).
      rewrite !state_of_triple, !output_of_triple.
      now rewrite (emit_without_channel _ _ A).
  - unfold ws_onerror. now rewrite (emit_without_channel _ _ A).
  - unfold onPcm16Chunk. run_act. now rewrite A.
  - unfold onAudioFrame. run_act. rewrite state_of_triple, output_of_triple.
    now destruct (opt_onAudioFrame s).
Qed.

(** X29.  A service that does not run and holds no client is inert: no
    stop, channel event, socket callback or capture callback changes it,
    and the only calls it makes are those that pass audio frames on to the
    audio-frame callback.  Only a [start] brings it back. *)
Theorem idle_service_is_inert :
  forall (inputs : list Input) (s : LiveTranscribeService),
    running s = false ->
    aai s = None ->
    Forall (fun i => is_start i = false) inputs ->
    state (run inputs s) = s
    /\ forallb is_frame_call (output (run inputs s)) = true.
Proof.
  induction inputs as [|i inputs IH]; intros s R A Hall.
  - cbn. auto.
  - inversion Hall as [|? ? Hi Hrest]; subst.
    destruct (idle_step i s Hi R A) as [S F].
    rewrite run_cons, state_of_triple, output_of_triple, S.
    destruct (IH s R A Hrest) as [S' F'].
    split; [exact S'|]. now rewrite forallb_app, F, F'.
Qed.

Lemma idle_service_is_inert_witness :
  state (run [Event (transcript_update "late" true None None);
              WsCloseEvent "gone"; Pcm16Chunk [Byte.x01]; DoStop]
           (state (stop demo_session)))
  = state (stop demo_session).
Proof.
  assert (R : running (state (stop demo_session)) = false)
    by (vm_compute; reflexivity).
  assert (A : aai (state (stop demo_session)) = None)
    by (vm_compute; reflexivity).
  apply (idle_service_is_inert _ _ R A). repeat constructor.
Defined.

Lemma handleAll_snoc evs ev s :
  handleAll (evs ++ [ev]) s
  = (tt,
     state (handleAaiEvent ev (state (handleAll evs s))),
     output (handleAll evs s)
       ++ output (handleAaiEvent ev (state (handleAll evs s)))).
Proof.
  revert s. induction evs as [|e evs IH]; intros s.
  - cbn [app]. rewrite handleAll_cons. cbn [handleAll]. unfold ret.
    rewrite !state_of_triple, !output_of_triple, app_nil_r. reflexivity.
  - cbn [app]. rewrite !handleAll_cons, IH.
    rewrite !state_of_triple, !output_of_triple, app_assoc. reflexivity.
Qed.

Lemma partial_updates_frame evs :
  forall s,
    Forall (fun ev => is_partial_update ev = true) evs ->
    finalized (state (handleAll evs s)) = finalized s
    /\ insertPartialHandler (state (handleAll evs s)) = insertPartialHandler s
    /\ commits (output (handleAll evs s)) = []
    /\ partials (output (handleAll evs s))
       = flat_map (fun ev => calls (insertPartialHandler s) (text_of ev)) evs.
Proof.
  induction evs as [|ev evs IH]; intros s Hall; [cbn; auto|].
  inversion Hall as [|? ? Hev Hrest]; subst.
  destruct ev as [id | text [|] eot fmt | | message]; try discriminate.
  rewrite handleAll_cons, state_of_triple, output_of_triple, update_partial.
  rewrite state_of_triple, output_of_triple.
  set (s1 := set_pendingUnformatted _ _).
  destruct (IH s1 Hrest) as (F & P & C & Q).
  assert (F1 : finalized s1 = finalized s) by (now destruct s).
  assert (P1 : insertPartialHandler s1 = insertPartialHandler s)
    by (now destruct s).
  rewrite F, P, F1, P1. split; [reflexivity|]. split; [reflexivity|].
  split.
  - rewrite !commits_app, C. proj; now rewrite ?app_nil_r.
  - rewrite !partials_app, Q, P1. cbn [flat_map text_of].
    proj; now rewrite ?app_nil_r.
Qed.

(** X30.  Updates that are not final replace one another: after any
    number of them [finalized] is as before, nothing has been committed,
    each text has gone to the partial handler in turn, and [current] is the
    text of the last one. *)
Theorem partial_updates_replace_each_other :
  forall (evs : list AssemblyAiTranscriptEvent) (last_ev : AssemblyAiTranscriptEvent)
         (s : LiveTranscribeService),
    Forall (fun ev => is_partial_update ev = true) (evs ++ [last_ev]) ->
    let r := handleAll (evs ++ [last_ev]) s in
    finalized (state r) = finalized s
    /\ current (state r) = text_of last_ev
    /\ commits (output r) = []
    /\ partials (output r)
       = flat_map (fun ev => calls (insertPartialHandler s) (text_of ev))
           (evs ++ [last_ev]).
Proof.
  intros evs last_ev s Hall. cbv zeta.
  destruct (partial_updates_frame (evs ++ [last_ev]) s Hall) as (F & _ & C & Q).
  split; [exact F|]. split; [|split; assumption].
  apply Forall_app in Hall. destruct Hall as [_ Hl].
  inversion Hl as [|? ? Hev _]; subst.
  destruct last_ev as [id | text [|] eot fmt | | message]; try discriminate.
  rewrite handleAll_snoc, state_of_triple, update_partial, state_of_triple.
  now destruct (state (handleAll evs s)).
Qed.

Lemma partial_updates_replace_each_other_witness :
  current (state (handleAll [transcript_update "he" false None None;
                             transcript_update "hello" false None None]
                    demo_session)) = "hello"
  /\ commits (output (handleAll [transcript_update "he" false None None;
                                 transcript_update "hello" false None None]
                        demo_session)) = [].
Proof.
  assert (H : Forall (fun ev => is_partial_update ev = true)
                ([transcript_update "he" false None None]
                   ++ [transcript_update "hello" false None None]))
    by (repeat constructor).
  pose proof (partial_updates_replace_each_other
                [transcript_update "he" false None None]
                (transcript_update "hello" false None None)
                demo_session H) as K.
  cbv zeta in K. destruct K as (_ & K2 & K3 & _).
  split; [exact K2 | exact K3].
Defined.
